(** * whisper-dictation desktop shell: worker supervision and event protocol

    A shallow embedding of [apps/desktop/main.js]: the module-level
    variables become one [state] record, every handler the file installs
    becomes a state transformer, and the platform pieces the handlers call
    ([JSON.parse], [JSON.stringify], [String.prototype.split/match/trim],
    [globalShortcut], the child process streams) are modelled next to them. *)

From stdpp Require Import gmap list strings.
From Stdlib Require Import ZArith NArith Lia Ascii.

Local Open Scope N_scope.

(** ** JavaScript strings

    A JavaScript string is a sequence of UTF-16 code units. *)

Abbreviation jsstring := (list N).

(** [js "text"] is the JavaScript string with the code units of an ASCII
    literal. *)
Fixpoint js (s : string) : jsstring :=
  match s with
  | EmptyString => []
  | String a r => N_of_ascii a :: js r
  end.

Arguments js : simpl never.

Definition str_eqb (a b : jsstring) : bool := bool_decide (a = b).

Definition is_digit (c : N) : bool := (48 <=? c) && (c <=? 57).

(** ** Decimal digits *)

(** Value of a run of digit characters read left to right, starting from
    the accumulator [acc]. *)
Fixpoint dval (acc : N) (ds : jsstring) : N :=
  match ds with
  | [] => acc
  | d :: r => dval (acc * 10 + (d - 48)) r
  end.

Fixpoint to_digits_aux (fuel : nat) (n : N) (acc : jsstring) : jsstring :=
  match fuel with
  | O => acc
  | S f =>
      if n <? 10 then (48 + n) :: acc
      else to_digits_aux f (n / 10) ((48 + n mod 10) :: acc)
  end.

(** Decimal digits of [n], most significant first; [N.size_nat n] bounds the
    number of divisions by ten. *)
Definition to_digits (n : N) : jsstring :=
  to_digits_aux (S (N.size_nat n)) n [].

(** Drop the zeros at the front of a digit run; returns how many went. *)
Fixpoint strip_zeros (ds : jsstring) : nat * jsstring :=
  match ds with
  | c :: r =>
      if c =? 48 then let '(k, r') := strip_zeros r in (S k, r')
      else (O, ds)
  | [] => (O, [])
  end.

(** ** Numbers

    JSON numbers are kept as exact decimals [mant * 10 ^ exp10]; the
    rounding of IEEE doubles is outside the model.  The representation is
    canonical: zero is [(0, 0)] and a non-zero mantissa does not end in a
    zero digit. *)

Record number := Num { mant : Z; exp10 : Z }.

Definition canonical (n : number) : Prop :=
  if decide (mant n = 0%Z) then exp10 n = 0%Z else (mant n mod 10 ≠ 0)%Z.

(** The number denoted by the digit run [ds] (sign [neg]) scaled by
    [10 ^ e]: trailing zeros of the run move into the exponent. *)
Definition mk_number (neg : bool) (ds : jsstring) (e : Z) : number :=
  let '(k, r) := strip_zeros (rev ds) in
  let m := Z.of_N (dval 0 (rev r)) in
  if decide (m = 0%Z) then Num 0 0
  else Num (if neg then - m else m) (e + Z.of_nat k).

(** The integer a number with a non-negative exponent stands for. *)
Definition number_value (n : number) : Z := (mant n * 10 ^ exp10 n)%Z.

Definition num_of_Z (z : Z) : number :=
  mk_number (z <? 0)%Z (to_digits (Z.abs_N z)) 0.

(** [Number::toString] of ECMA-262 for radix ten, on the digits [s]
    ([k] of them, the last one not zero) of a positive number
    [s * 10 ^ e]; [n] is the position of the decimal point. *)
Definition digits_to_string (s : jsstring) (e : Z) : jsstring :=
  let k := Z.of_nat (length s) in
  let n := (k + e)%Z in
  if decide (k ≤ n ∧ n ≤ 21)%Z then
    s ++ replicate (Z.to_nat (n - k)) 48
  else if decide (0 < n ∧ n ≤ 21)%Z then
    take (Z.to_nat n) s ++ js "." ++ drop (Z.to_nat n) s
  else if decide (-6 < n ∧ n ≤ 0)%Z then
    js "0." ++ replicate (Z.to_nat (- n)) 48 ++ s
  else
    let ex := (n - 1)%Z in
    let es := (if (ex <? 0)%Z then js "-" else js "+")
                ++ to_digits (Z.abs_N ex) in
    match s with
    | [d] => [d] ++ js "e" ++ es
    | d :: ds => [d] ++ js "." ++ ds ++ js "e" ++ es
    | [] => []
    end.

Definition number_to_string (x : number) : jsstring :=
  if decide (mant x = 0%Z) then js "0"
  else
    (if (mant x <? 0)%Z then js "-" else [])
    ++ digits_to_string (to_digits (Z.abs_N (mant x))) (exp10 x).

(** ** JSON values *)

#[warnings="-register-all"]
Inductive value :=
| JNull
| JBool (b : bool)
| JNum (n : number)
| JStr (s : jsstring)
| JArr (items : list value)
| JObj (props : list (jsstring * value)).

(** An object is the list of its own properties in creation order.
    [obj_set] is [CreateDataProperty]: a key that exists keeps its place
    and takes the new value, a new key goes last. *)
Fixpoint obj_set (k : jsstring) (v : value) (props : list (jsstring * value))
  : list (jsstring * value) :=
  match props with
  | [] => [(k, v)]
  | (k', v') :: r =>
      if str_eqb k k' then (k, v) :: r else (k', v') :: obj_set k v r
  end.

Fixpoint obj_get (k : jsstring) (props : list (jsstring * value)) : option value :=
  match props with
  | [] => None
  | (k', v') :: r => if str_eqb k k' then Some v' else obj_get k r
  end.

(** Character names. *)
Abbreviation QUOTE := 34.
Abbreviation BACKSLASH := 92.
Abbreviation LBRACE := 123.
Abbreviation RBRACE := 125.
Abbreviation LBRACKET := 91.
Abbreviation RBRACKET := 93.
Abbreviation COLON := 58.
Abbreviation COMMA := 44.
Abbreviation MINUS := 45.
Abbreviation PLUS := 43.
Abbreviation DOT := 46.
Abbreviation LPAREN := 40.
Abbreviation PERCENT := 37.
Abbreviation CR := 13.
Abbreviation LF := 10.

(** ** JSON.stringify *)

Definition hex_digit (d : N) : N := if d <? 10 then 48 + d else 87 + d.

(** [UnicodeEscape]: backslash, u and four lowercase hexadecimal digits. *)
Definition unicode_escape (c : N) : jsstring :=
  [BACKSLASH; 117; hex_digit (c / 4096 mod 16); hex_digit (c / 256 mod 16);
   hex_digit (c / 16 mod 16); hex_digit (c mod 16)].

Definition is_high_surrogate (c : N) : bool := (55296 <=? c) && (c <=? 56319).
Definition is_low_surrogate (c : N) : bool := (56320 <=? c) && (c <=? 57343).

(** One code unit that is not the first half of a surrogate pair. *)
Definition quote_unit (c : N) : jsstring :=
  if c =? 8 then js "\b"
  else if c =? 9 then js "\t"
  else if c =? 10 then js "\n"
  else if c =? 12 then js "\f"
  else if c =? 13 then js "\r"
  else if c =? QUOTE then [BACKSLASH; QUOTE]
  else if c =? BACKSLASH then [BACKSLASH; BACKSLASH]
  else if (c <? 32) || is_high_surrogate c || is_low_surrogate c
       then unicode_escape c
  else [c].

(** [QuoteJSONString] without the surrounding quotes: a surrogate pair is
    copied, a lone surrogate is escaped. *)
Fixpoint quote_units (s : jsstring) : jsstring :=
  match s with
  | [] => []
  | c :: r =>
      match r with
      | d :: r' =>
          if is_high_surrogate c && is_low_surrogate d
          then c :: d :: quote_units r'
          else quote_unit c ++ quote_units r
      | [] => quote_unit c
      end
  end.

Definition quote_string (s : jsstring) : jsstring :=
  [QUOTE] ++ quote_units s ++ [QUOTE].

(** Items of a list with a comma between them. *)
Fixpoint join_comma (parts : list jsstring) : jsstring :=
  match parts with
  | [] => []
  | [p] => p
  | p :: r => p ++ [COMMA] ++ join_comma r
  end.

Fixpoint stringify (v : value) : jsstring :=
  match v with
  | JNull => js "null"
  | JBool true => js "true"
  | JBool false => js "false"
  | JNum n => number_to_string n
  | JStr s => quote_string s
  | JArr items => [LBRACKET] ++ join_comma (map stringify items) ++ [RBRACKET]
  | JObj props =>
      [LBRACE] ++
      join_comma (map (λ kv, quote_string (fst kv) ++ [COLON] ++ stringify (snd kv)) props)
      ++ [RBRACE]
  end.

(** ** JSON.parse *)

Definition is_ws (c : N) : bool :=
  (c =? 32) || (c =? 9) || (c =? LF) || (c =? CR).

Fixpoint skip_ws (s : jsstring) : jsstring :=
  match s with
  | c :: r => if is_ws c then skip_ws r else s
  | [] => []
  end.

Fixpoint strip_prefix (p s : jsstring) : option jsstring :=
  match p, s with
  | [], _ => Some s
  | a :: p', b :: s' => if a =? b then strip_prefix p' s' else None
  | _ :: _, [] => None
  end.

Definition hex_val (c : N) : option N :=
  if is_digit c then Some (c - 48)
  else if (97 <=? c) && (c <=? 102) then Some (c - 87)
  else if (65 <=? c) && (c <=? 70) then Some (c - 55)
  else None.

Definition hex4 (a b c d : N) : option N :=
  match hex_val a, hex_val b, hex_val c, hex_val d with
  | Some x, Some y, Some z, Some w => Some (((x * 16 + y) * 16 + z) * 16 + w)
  | _, _, _, _ => None
  end.

(** The character after a backslash, other than [u]. *)
Definition unescape (e : N) : option N :=
  if e =? QUOTE then Some QUOTE
  else if e =? BACKSLASH then Some BACKSLASH
  else if e =? 47 then Some 47
  else if e =? 98 then Some 8
  else if e =? 102 then Some 12
  else if e =? 110 then Some 10
  else if e =? 114 then Some 13
  else if e =? 116 then Some 9
  else None.

Definition cons_fst {A B} (a : A) (r : option (list A * B)) : option (list A * B) :=
  match r with
  | Some (l, b) => Some (a :: l, b)
  | None => None
  end.

(** A string body up to and including the closing quote. *)
Fixpoint read_string (s : jsstring) : option (jsstring * jsstring) :=
  match s with
  | [] => None
  | c :: r =>
      if c =? QUOTE then Some ([], r)
      else if c =? BACKSLASH then
        match r with
        | [] => None
        | e :: r1 =>
            if e =? 117 then
              match r1 with
              | h1 :: h2 :: h3 :: h4 :: r2 =>
                  match hex4 h1 h2 h3 h4 with
                  | Some u => cons_fst u (read_string r2)
                  | None => None
                  end
              | _ => None
              end
            else
              match unescape e with
              | Some u => cons_fst u (read_string r1)
              | None => None
              end
        end
      else if c <? 32 then None
      else cons_fst c (read_string r)
  end.

(** The longest run of digits at the front. *)
Fixpoint read_digits (s : jsstring) : jsstring * jsstring :=
  match s with
  | c :: r =>
      if is_digit c then let '(ds, r') := read_digits r in (c :: ds, r')
      else ([], s)
  | [] => ([], [])
  end.

(** [int frac? exp?] of the JSON grammar, after the optional sign. *)
Definition read_int (s : jsstring) : option (jsstring * jsstring) :=
  match s with
  | c :: r =>
      if c =? 48 then Some ([48], r)
      else if is_digit c then let '(ds, r') := read_digits r in Some (c :: ds, r')
      else None
  | [] => None
  end.

Definition read_frac (s : jsstring) : option (jsstring * jsstring) :=
  match s with
  | c :: r =>
      if c =? DOT then
        match read_digits r with
        | ([], _) => None
        | (ds, r') => Some (ds, r')
        end
      else Some ([], s)
  | [] => Some ([], [])
  end.

Definition read_exp (s : jsstring) : option (Z * jsstring) :=
  match s with
  | c :: r =>
      if (c =? 101) || (c =? 69) then
        let '(neg, r1) :=
          match r with
          | sg :: r0 =>
              if sg =? MINUS then (true, r0)
              else if sg =? PLUS then (false, r0)
              else (false, r)
          | [] => (false, r)
          end in
        match read_digits r1 with
        | ([], _) => None
        | (ds, r') =>
            let e := Z.of_N (dval 0 ds) in
            Some ((if neg then - e else e)%Z, r')
        end
      else Some (0%Z, s)
  | [] => Some (0%Z, [])
  end.

Definition read_number (s : jsstring) : option (number * jsstring) :=
  let '(neg, s1) :=
    match s with
    | c :: r => if c =? MINUS then (true, r) else (false, s)
    | [] => (false, s)
    end in
  match read_int s1 with
  | None => None
  | Some (ip, s2) =>
      match read_frac s2 with
      | None => None
      | Some (fp, s3) =>
          match read_exp s3 with
          | None => None
          | Some (e, s4) =>
              Some (mk_number neg (ip ++ fp) (e - Z.of_nat (length fp)), s4)
          end
      end
  end.

(** Array elements after the first one has been seen to exist: a value,
    then a comma and more, or the closing bracket.  [pv] parses one value. *)
Fixpoint read_elements (pv : jsstring → option (value * jsstring))
    (n : nat) (s : jsstring) : option (list value * jsstring) :=
  match n with
  | O => None
  | S n' =>
      match pv s with
      | None => None
      | Some (v, r) =>
          match skip_ws r with
          | c :: r' =>
              if c =? COMMA then cons_fst v (read_elements pv n' r')
              else if c =? RBRACKET then Some ([v], r')
              else None
          | [] => None
          end
      end
  end.

(** Object members: a quoted key, a colon, a value, then a comma and more,
    or the closing brace.  Members are stored as they are read. *)
Fixpoint read_members (pv : jsstring → option (value * jsstring))
    (n : nat) (acc : list (jsstring * value)) (s : jsstring)
  : option (list (jsstring * value) * jsstring) :=
  match n with
  | O => None
  | S n' =>
      match skip_ws s with
      | q :: r0 =>
          if q =? QUOTE then
            match read_string r0 with
            | None => None
            | Some (k, r1) =>
                match skip_ws r1 with
                | c :: r2 =>
                    if c =? COLON then
                      match pv r2 with
                      | None => None
                      | Some (v, r3) =>
                          match skip_ws r3 with
                          | d :: r4 =>
                              if d =? COMMA then read_members pv n' (obj_set k v acc) r4
                              else if d =? RBRACE then Some (obj_set k v acc, r4)
                              else None
                          | [] => None
                          end
                      end
                    else None
                | [] => None
                end
            end
          else None
      | [] => None
      end
  end.

(** One JSON value with the white space before it.  The fuel bounds the
    nesting depth and the number of elements; [S (length s)] is enough for
    every input [s]. *)
Fixpoint parse_value (fuel : nat) (s : jsstring) : option (value * jsstring) :=
  match fuel with
  | O => None
  | S f =>
      match skip_ws s with
      | [] => None
      | c :: r =>
          if c =? LBRACE then
            match skip_ws r with
            | d :: r' =>
                if d =? RBRACE then Some (JObj [], r')
                else
                  match read_members (parse_value f) f [] r with
                  | Some (props, r'') => Some (JObj props, r'')
                  | None => None
                  end
            | [] => None
            end
          else if c =? LBRACKET then
            match skip_ws r with
            | d :: r' =>
                if d =? RBRACKET then Some (JArr [], r')
                else
                  match read_elements (parse_value f) f r with
                  | Some (items, r'') => Some (JArr items, r'')
                  | None => None
                  end
            | [] => None
            end
          else if c =? QUOTE then
            match read_string r with
            | Some (str, r') => Some (JStr str, r')
            | None => None
            end
          else if (c =? MINUS) || is_digit c then
            match read_number (c :: r) with
            | Some (n, r') => Some (JNum n, r')
            | None => None
            end
          else
            match strip_prefix (js "null") (c :: r) with
            | Some r' => Some (JNull, r')
            | None =>
                match strip_prefix (js "true") (c :: r) with
                | Some r' => Some (JBool true, r')
                | None =>
                    match strip_prefix (js "false") (c :: r) with
                    | Some r' => Some (JBool false, r')
                    | None => None
                    end
                end
            end
      end
  end.

(** [JSON.parse text]: [None] stands for the [SyntaxError] it throws. *)
Definition JSON_parse (text : jsstring) : option value :=
  match parse_value (S (length text)) text with
  | Some (v, r) => match skip_ws r with [] => Some v | _ => None end
  | None => None
  end.

(** ** Regular expressions

    The two regular expressions of the file, run by a backtracking matcher
    in the style of ECMA-262: a matcher takes the continuation that matches
    the rest of the pattern, and alternatives are tried left to right. *)

Inductive regex :=
| Chr (c : N)                         (* a literal character *)
| Range (lo hi : N)                   (* [lo-hi] *)
| WordB                               (* \b *)
| Seq (r1 r2 : regex)
| Alt (r1 r2 : regex)                 (* r1|r2 *)
| Group (i : nat) (r : regex)         (* the i-th capturing parenthesis *)
| Rep (lo hi : nat) (r : regex).      (* greedy r{lo,hi}, r never empty *)

(** The matcher's position: the character before it (for [\b]), the rest
    of the input, and the captures so far. *)
Record mstate := MState {
  prev : option N;
  rest : jsstring;
  caps : list (nat * jsstring)
}.

(** [A-Za-z0-9_] *)
Definition is_word_char (c : N) : bool :=
  ((97 <=? c) && (c <=? 122)) || ((65 <=? c) && (c <=? 90))
  || is_digit c || (c =? 95).

Definition word_before (x : mstate) : bool :=
  match prev x with Some c => is_word_char c | None => false end.

Definition word_after (x : mstate) : bool :=
  match rest x with c :: _ => is_word_char c | [] => false end.

Definition at_word_boundary (x : mstate) : bool :=
  xorb (word_before x) (word_after x).

Definition eat (p : N → bool) (k : mstate → option mstate) (x : mstate)
  : option mstate :=
  match rest x with
  | c :: t => if p c then k (MState (Some c) t (caps x)) else None
  | [] => None
  end.

Definition set_cap (i : nat) (x0 : mstate) (y : mstate) : mstate :=
  MState (prev y) (rest y)
         ((i, take (length (rest x0) - length (rest y)) (rest x0)) :: caps y).

Fixpoint rmatch (r : regex) (k : mstate → option mstate) (x : mstate)
  : option mstate :=
  match r with
  | Chr c => eat (N.eqb c) k x
  | Range lo hi => eat (λ a, (lo <=? a) && (a <=? hi)) k x
  | WordB => if at_word_boundary x then k x else None
  | Seq r1 r2 => rmatch r1 (rmatch r2 k) x
  | Alt r1 r2 =>
      match rmatch r1 k x with
      | Some y => Some y
      | None => rmatch r2 k x
      end
  | Group i r1 => rmatch r1 (λ y, k (set_cap i x y)) x
  | Rep lo hi r1 =>
      (fix rep (lo hi : nat) (k : mstate → option mstate) (x : mstate)
         : option mstate :=
         match hi with
         | O => match lo with O => k x | S _ => None end
         | S hi' =>
             match rmatch r1 (rep (pred lo) hi' k) x with
             | Some y => Some y
             | None => match lo with O => k x | S _ => None end
             end
         end) lo hi k x
  end.

(** [RegExp.prototype.exec] without flags: the first start position, from
    the left, at which the pattern matches. *)
Fixpoint rexec (r : regex) (p : option N) (s : jsstring) : option mstate :=
  match rmatch r Some (MState p s []) with
  | Some y => Some y
  | None =>
      match s with
      | c :: t => rexec r (Some c) t
      | [] => None
      end
  end.

Fixpoint get_cap (i : nat) (cs : list (nat * jsstring)) : option jsstring :=
  match cs with
  | (j, s) :: r => if Nat.eqb i j then Some s else get_cap i r
  | [] => None
  end.

(** [String.prototype.split] with a pattern that has no capturing group:
    [piece] is the text since the last separator, [skip] counts the
    characters of a separator still to pass over.  A match of no
    characters where the piece starts is ignored. *)
Fixpoint rsplit_from (r : regex) (p : option N) (skip : nat)
    (piece : jsstring) (s : jsstring) : list jsstring :=
  match s with
  | [] => [piece]
  | c :: t =>
      match skip with
      | S n => rsplit_from r (Some c) n piece t
      | O =>
          match rmatch r Some (MState p s []) with
          | None => rsplit_from r (Some c) O (piece ++ [c]) t
          | Some y =>
              match (length s - length (rest y))%nat with
              | O =>
                  match piece with
                  | [] => rsplit_from r (Some c) O [c] t
                  | _ => piece :: rsplit_from r (Some c) O [c] t
                  end
              | S n => piece :: rsplit_from r (Some c) n [] t
              end
          end
      end
  end.

Definition rsplit (r : regex) (s : jsstring) : list jsstring :=
  match s with
  | [] => match rmatch r Some (MState None [] []) with
          | Some _ => []
          | None => [[]]
          end
  | _ => rsplit_from r None O [] s
  end.

(** [/\r?\n/] *)
Definition newline_re : regex := Seq (Rep 0 1 (Chr CR)) (Chr LF).

(** [/(\b|\()([0-9]{1,2}|100)%/]: first [([0-9]{1,2}|100)%], then the
    whole pattern. *)
Definition percent_digits : regex :=
  Seq (Group 2 (Alt (Rep 1 2 (Range 48 57))
                    (Seq (Chr 49) (Seq (Chr 48) (Chr 48)))))
      (Chr PERCENT).

Definition percent_re : regex :=
  Seq (Group 1 (Alt WordB (Chr LPAREN))) percent_digits.

(** White space and line terminators of ECMA-262, as [trim] removes them. *)
Definition is_js_space (c : N) : bool :=
  ((9 <=? c) && (c <=? 13)) || (c =? 32) || (c =? 160) || (c =? 5760)
  || ((8192 <=? c) && (c <=? 8202)) || (c =? 8232) || (c =? 8233)
  || (c =? 8239) || (c =? 8287) || (c =? 12288) || (c =? 65279).

Fixpoint trim_start (s : jsstring) : jsstring :=
  match s with
  | c :: r => if is_js_space c then trim_start r else s
  | [] => []
  end.

Definition trim (s : jsstring) : jsstring :=
  rev (trim_start (rev (trim_start s))).

(** [Number(s)] for a run of decimal digits, the only strings the second
    group of [percent_re] captures. *)
Definition js_Number (s : jsstring) : number := mk_number false s 0.

(** ** Exceptions

    A computation either returns or throws; [try_catch] is
    [try { ... } catch (e) { ... }]. *)

Inductive result (A : Type) :=
| Ok (a : A)
| Throw (msg : jsstring).
Arguments Ok {A} a.
Arguments Throw {A} msg.

#[global] Instance result_bind : MBind result := λ A B f m,
  match m with
  | Ok a => f a
  | Throw e => Throw e
  end.

Definition try_catch {A} (m : result A) (h : jsstring → A) : A :=
  match m with
  | Ok a => a
  | Throw e => h e
  end.

(** ** The main process state *)

(** What the operating system knows of the child process behind the [py]
    handle.  The program keeps no such field: it is the environment's side
    of the handle, kept to state what a handler does at each stage. *)
Inductive proc_status := Live | Closed.

(** The closures given to [globalShortcut.register]: the one made at
    start-up reads the language from the store, the one made by
    [hotkey:set] has captured its [language] argument ([None] is
    [undefined]). *)
Inductive handler :=
| HRestore
| HSet (language : option value).

Inductive os_call :=
| OsUnregister (a : jsstring)
| OsRegister (a : jsstring).

Record state := State {
  win : bool;                             (* [win] holds a window *)
  py : option proc_status;                (* [py] holds a child process *)
  running : bool;
  registeredShortcut : option jsstring;   (* [None] is [null] *)
  lastProgress : option number;           (* [None] is [null] *)
  store : option (gmap jsstring value);   (* [None] is [null] *)
  (* the world outside the process *)
  sent : list value;                      (* 'server-event' messages sent to the window *)
  stdin_writes : list jsstring;           (* chunks [py.stdin.write] accepted *)
  shortcuts : gmap jsstring handler;      (* accelerators the OS holds for the app *)
  os_calls : list os_call                 (* calls made to [globalShortcut] *)
}.

Definition initial (st0 : option (gmap jsstring value)) : state :=
  State false None false None None st0 [] [] ∅ [].

Definition set_win (b : bool) (st : state) : state :=
  State b (py st) (running st) (registeredShortcut st) (lastProgress st)
        (store st) (sent st) (stdin_writes st) (shortcuts st) (os_calls st).
Definition set_py (p : option proc_status) (st : state) : state :=
  State (win st) p (running st) (registeredShortcut st) (lastProgress st)
        (store st) (sent st) (stdin_writes st) (shortcuts st) (os_calls st).
Definition set_running (b : bool) (st : state) : state :=
  State (win st) (py st) b (registeredShortcut st) (lastProgress st)
        (store st) (sent st) (stdin_writes st) (shortcuts st) (os_calls st).
Definition set_registeredShortcut (r : option jsstring) (st : state) : state :=
  State (win st) (py st) (running st) r (lastProgress st)
        (store st) (sent st) (stdin_writes st) (shortcuts st) (os_calls st).
Definition set_lastProgress (p : option number) (st : state) : state :=
  State (win st) (py st) (running st) (registeredShortcut st) p
        (store st) (sent st) (stdin_writes st) (shortcuts st) (os_calls st).
Definition set_store (s : option (gmap jsstring value)) (st : state) : state :=
  State (win st) (py st) (running st) (registeredShortcut st) (lastProgress st)
        s (sent st) (stdin_writes st) (shortcuts st) (os_calls st).
Definition set_sent (l : list value) (st : state) : state :=
  State (win st) (py st) (running st) (registeredShortcut st) (lastProgress st)
        (store st) l (stdin_writes st) (shortcuts st) (os_calls st).
Definition set_stdin_writes (l : list jsstring) (st : state) : state :=
  State (win st) (py st) (running st) (registeredShortcut st) (lastProgress st)
        (store st) (sent st) l (shortcuts st) (os_calls st).
Definition set_shortcuts (m : gmap jsstring handler) (st : state) : state :=
  State (win st) (py st) (running st) (registeredShortcut st) (lastProgress st)
        (store st) (sent st) (stdin_writes st) m (os_calls st).
Definition set_os_calls (l : list os_call) (st : state) : state :=
  State (win st) (py st) (running st) (registeredShortcut st) (lastProgress st)
        (store st) (sent st) (stdin_writes st) (shortcuts st) l.

(** ** JavaScript values in conditions and property reads *)

(** [ToBoolean]; [None] is [undefined]. *)
Definition truthy (v : option value) : bool :=
  match v with
  | None | Some JNull => false
  | Some (JBool b) => b
  | Some (JNum n) => negb (mant n =? 0)%Z
  | Some (JStr s) => negb (str_eqb s [])
  | Some (JArr _) | Some (JObj _) => true
  end.

(** [v.name] for a value that came out of [JSON.parse]: reading a property
    of [null] throws a [TypeError]; a property that is not there is
    [undefined].  The names read in this file ([event], [model_name],
    [language]) are on no prototype. *)
Definition get_prop (v : value) (name : jsstring) : result (option value) :=
  match v with
  | JNull => Throw (js "Cannot read properties of null")
  | JObj props => Ok (obj_get name props)
  | _ => Ok None
  end.

(** [args?.name]; an absent [args] is [undefined]. *)
Definition opt_prop (args : option value) (name : jsstring) : option value :=
  match args with
  | Some (JObj props) => obj_get name props
  | _ => None
  end.

(** [v === 'text'] *)
Definition is_string (v : option value) (s : jsstring) : bool :=
  match v with
  | Some (JStr t) => str_eqb t s
  | _ => false
  end.

(** An object literal: a property whose value is [undefined] is left out,
    as [JSON.stringify] and the structured clone of a message do. *)
Fixpoint defined_props (l : list (jsstring * option value))
  : list (jsstring * value) :=
  match l with
  | [] => []
  | (k, Some v) :: r => (k, v) :: defined_props r
  | (_, None) :: r => defined_props r
  end.

Definition object (fields : list (jsstring * option value)) : value :=
  JObj (defined_props fields).

(** ** Events sent to the window *)

(** [win?.webContents.send('server-event', e)] *)
Definition send (e : value) (st : state) : state :=
  if win st then set_sent (sent st ++ [e]) st else st.

Definition ev_stderr (data : jsstring) : value :=
  JObj [(js "event", JStr (js "stderr")); (js "data", JStr data)].

Definition ev_log (data : jsstring) : value :=
  JObj [(js "event", JStr (js "log")); (js "data", JStr data)].

Definition ev_progress (pct : number) (message : jsstring) : value :=
  JObj [(js "event", JStr (js "progress")); (js "percent", JNum pct);
        (js "message", JStr message)].

(** [code] and [signal] are [null] when absent. *)
Definition ev_exit (code : option Z) (signal : option jsstring) : value :=
  JObj [(js "event", JStr (js "exit"));
        (js "code", match code with Some c => JNum (num_of_Z c) | None => JNull end);
        (js "signal", match signal with Some s => JStr s | None => JNull end)].

Definition ev_pref (kind : jsstring) (v : value) : value :=
  JObj [(js "event", JStr kind); (js "value", v)].

(** ** The preference store *)

(** [store?.get(key)] *)
Definition store_get (key : jsstring) (st : state) : option value :=
  match store st with
  | Some m => m !! key
  | None => None
  end.

(** [store.set(key, v)] and [store.delete(key)], behind [if (store)]. *)
Definition store_set (key : jsstring) (v : value) (st : state) : state :=
  match store st with
  | Some m => set_store (Some (<[key := v]> m)) st
  | None => st
  end.

Definition store_delete (key : jsstring) (st : state) : state :=
  match store st with
  | Some m => set_store (Some (delete key m)) st
  | None => st
  end.

(** ** The worker's streams *)

(** The body of the [try] in the output-stream reader, for one line. *)
Definition stdout_try (line : jsstring) (st : state) : result state :=
  evt ← match JSON_parse line with
        | Some v => Ok v
        | None => Throw (js "SyntaxError")
        end;
  e1 ← get_prop evt (js "event");
  let st1 := if is_string e1 (js "started") then set_running true st else st in
  e2 ← get_prop evt (js "event");
  let st2 := if is_string e2 (js "stopped") then set_running false st1 else st1 in
  Ok (send evt st2).

Definition stdout_line (line : jsstring) (st : state) : state :=
  try_catch (stdout_try line st) (λ _, send (ev_log line) st).

(** [data.toString().split(/\r?\n/).filter(Boolean)] *)
Definition stdout_lines (data : jsstring) : list jsstring :=
  filter (λ l, l ≠ []) (rsplit newline_re data).

(** [py.stdout.on('data', ...)] *)
Definition on_stdout_data (data : jsstring) (st : state) : state :=
  foldl (λ s line, stdout_line line s) st (stdout_lines data).

(** [py.stderr.on('data', ...)] *)
Definition on_stderr_data (text : jsstring) (st : state) : state :=
  match rexec percent_re None text with
  | Some m =>
      let pct := js_Number (default [] (get_cap 2 (caps m))) in
      send (ev_progress pct (trim text)) (set_lastProgress (Some pct) st)
  | None => send (ev_stderr text) st
  end.

(** [py.on('close', ...)]; the status field is the environment's. *)
Definition on_close (code : option Z) (signal : option jsstring) (st : state)
  : state :=
  send (ev_exit code signal) st.

(** [py.on('error', ...)] *)
Definition on_error (message : jsstring) (st : state) : state :=
  send (ev_stderr (js "Failed to spawn python: " ++ message)) st.

(** ** startPython *)

(** [projectRoot] is the resolved project directory and [present] what
    [fs.existsSync(forcedPy)] answers. *)
Definition forcedPy (projectRoot : jsstring) : jsstring :=
  projectRoot ++ js "/.venv/bin/python".

Definition startPython (projectRoot : jsstring) (present : bool) (st : state)
  : state :=
  if negb present then
    send (ev_stderr
            (js "Required interpreter missing: " ++ forcedPy projectRoot
             ++ js ". Create it and install deps (python3 -m venv .venv && source .venv/bin/activate && pip install -r requirements.txt) at "
             ++ projectRoot)) st
  else
    let st1 :=
      send (ev_log (js "Spawning Python: " ++ forcedPy projectRoot
                    ++ js " (cwd=" ++ projectRoot ++ js ")")) st in
    set_py (Some Live) st1.

(** ** sendCmd *)

(** What [py.stdin.write(payload)] does: it returns, or throws an error
    with a message. *)
Inductive write_outcome :=
| WriteReturns
| WriteThrows (message : jsstring).

(** [JSON.stringify({ cmd, args }) + '\n'] *)
Definition encode_command (cmd : jsstring) (args : value) : jsstring :=
  stringify (JObj [(js "cmd", JStr cmd); (js "args", args)]) ++ [LF].

Definition stdin_write (payload : jsstring) (w : write_outcome) (st : state)
  : result state :=
  match w with
  | WriteReturns => Ok (set_stdin_writes (stdin_writes st ++ [payload]) st)
  | WriteThrows e => Throw e
  end.

(** [args] is [None] when the caller passed [undefined]: the default
    parameter [{}] takes its place. *)
Definition sendCmd (cmd : jsstring) (args : option value) (w : write_outcome)
    (st : state) : state :=
  let payload := encode_command cmd (default (JObj []) args) in
  match py st with
  | None => send (ev_stderr (js "Python server is not running yet.")) st
  | Some _ =>
      try_catch (stdin_write payload w st)
        (λ e, send (ev_stderr (js "Failed to send command: " ++ e)) st)
  end.

(** ** Global shortcuts *)

(** What [globalShortcut.register] answers. *)
Inductive reg_outcome := RegOk | RegFail | RegThrow.

Definition gs_register (a : jsstring) (h : handler) (o : reg_outcome)
    (st : state) : result (bool * state) :=
  match o with
  | RegThrow => Throw (js "TypeError")
  | RegFail => Ok (false, set_os_calls (os_calls st ++ [OsRegister a]) st)
  | RegOk =>
      Ok (true, set_shortcuts (<[a := h]> (shortcuts st))
                  (set_os_calls (os_calls st ++ [OsRegister a]) st))
  end.

Definition gs_unregister (a : jsstring) (st : state) : state :=
  set_shortcuts (delete a (shortcuts st))
    (set_os_calls (os_calls st ++ [OsUnregister a]) st).

(** The body of both registered closures. *)
Definition run_handler (h : handler) (w : write_outcome) (st : state) : state :=
  if running st then sendCmd (js "stop") (Some (JObj [])) w st
  else
    match h with
    | HSet language =>
        sendCmd (js "start") (Some (object [(js "language", language)])) w st
    | HRestore =>
        let lang := store_get (js "language") st in
        sendCmd (js "start")
          (Some (object [(js "language",
                          if truthy lang then lang else Some (JStr (js "en")))]))
          w st
    end.

(** The operating system delivers a key press to the closure registered
    for the accelerator, if there is one. *)
Definition keypress (a : jsstring) (w : write_outcome) (st : state) : state :=
  match shortcuts st !! a with
  | Some h => run_handler h w st
  | None => st
  end.

(** [if (registeredShortcut) { unregister; registeredShortcut = null }] *)
Definition drop_registered (st : state) : state :=
  match registeredShortcut st with
  | Some old =>
      if negb (str_eqb old []) then
        set_registeredShortcut None (gs_unregister old st)
      else st
  | None => st
  end.

(** [ipcMain.handle('hotkey:set', ...)]: the value returned to the caller
    and the state left behind. *)
Definition hotkey_set (accelerator : jsstring) (language : option value)
    (o : reg_outcome) (st : state) : bool * state :=
  let st1 := drop_registered st in
  try_catch
    ('(ok, st2) ← gs_register accelerator (HSet language) o st1;
     if (ok : bool) then
       Ok (true, store_set (js "hotkey") (JStr accelerator)
                   (set_registeredShortcut (Some accelerator) st2))
     else Ok (false, st2))
    (λ _, (false, st1)).

(** [ipcMain.handle('hotkey:clear', ...)] *)
Definition hotkey_clear (st : state) : bool * state :=
  (true, store_delete (js "hotkey") (drop_registered st)).

(** ** Start-up: the [did-finish-load] callback *)

Definition send_pref (kind : jsstring) (v : option value) (st : state) : state :=
  match v with
  | Some x => if truthy v then send (ev_pref kind x) st else st
  | None => st
  end.

Definition restore_hotkey (o : reg_outcome) (st : state) : state :=
  let savedLanguage := store_get (js "language") st in
  let savedHotkey := store_get (js "hotkey") st in
  if truthy savedHotkey && truthy savedLanguage then
    try_catch
      ('(ok, st1) ← match savedHotkey with
                    | Some (JStr a) => gs_register a HRestore o st
                    | _ => Throw (js "TypeError")
                    end;
       if (ok : bool) then
         Ok (set_registeredShortcut
               (match savedHotkey with Some (JStr a) => Some a | _ => None end) st1)
       else Ok st1)
      (λ _, st)
  else st.

Definition did_finish_load (projectRoot : jsstring) (present : bool)
    (o : reg_outcome) (st : state) : state :=
  let st1 := startPython projectRoot present st in
  let st2 := send_pref (js "pref:model") (store_get (js "model") st1) st1 in
  let st3 := send_pref (js "pref:language") (store_get (js "language") st2) st2 in
  let st4 := send_pref (js "pref:hotkey") (store_get (js "hotkey") st3) st3 in
  restore_hotkey o st4.

(** ** The command handlers of [ipcMain] *)

Definition cmd_load (args : option value) (w : write_outcome) (st : state) : state :=
  let st1 :=
    match opt_prop args (js "model_name") with
    | Some v => if truthy (Some v) then store_set (js "model") v st else st
    | None => st
    end in
  sendCmd (js "load") args w st1.

Definition cmd_start (args : option value) (w : write_outcome) (st : state) : state :=
  let st1 :=
    match opt_prop args (js "language") with
    | Some v => if truthy (Some v) then store_set (js "language") v st else st
    | None => st
    end in
  sendCmd (js "start") args w st1.

Definition cmd_stop (w : write_outcome) (st : state) : state :=
  sendCmd (js "stop") (Some (JObj [])) w st.

Definition cmd_status (w : write_outcome) (st : state) : state :=
  sendCmd (js "status") (Some (JObj [])) w st.

(** ** Runs

    Everything that can happen to the main process once the application is
    ready, in the order it happens. *)

Inductive action :=
| Ready                                             (* createWindow *)
| DidFinishLoad (projectRoot : jsstring) (present : bool) (o : reg_outcome)
| StdoutData (data : jsstring)
| StderrData (text : jsstring)
| ProcError (message : jsstring)
| Close (code : option Z) (signal : option jsstring)
| CmdLoad (args : option value) (w : write_outcome)
| CmdStart (args : option value) (w : write_outcome)
| CmdStop (w : write_outcome)
| CmdStatus (w : write_outcome)
| HotkeySet (accelerator : jsstring) (language : option value) (o : reg_outcome)
| HotkeyClear
| Keypress (accelerator : jsstring) (w : write_outcome).

(** The listeners on the child process exist once [startPython] has
    spawned it. *)
Definition if_spawned (f : state → state) (st : state) : state :=
  match py st with
  | Some _ => f st
  | None => st
  end.

Definition step (st : state) (a : action) : state :=
  match a with
  | Ready => set_win true st
  | DidFinishLoad root present o => did_finish_load root present o st
  | StdoutData data => if_spawned (on_stdout_data data) st
  | StderrData text => if_spawned (on_stderr_data text) st
  | ProcError message => if_spawned (on_error message) st
  | Close code signal =>
      if_spawned (λ s, set_py (Some Closed) (on_close code signal s)) st
  | CmdLoad args w => cmd_load args w st
  | CmdStart args w => cmd_start args w st
  | CmdStop w => cmd_stop w st
  | CmdStatus w => cmd_status w st
  | HotkeySet a language o => snd (hotkey_set a language o st)
  | HotkeyClear => snd (hotkey_clear st)
  | Keypress a w => keypress a w st
  end.

Definition run (st : state) (tr : list action) : state := foldl step st tr.

(** ** Vocabulary of the statements *)

(** A percentage as [percent_re] accepts it: one or two digits, or 100. *)
Definition short_percent (ds : jsstring) : Prop :=
  (Forall (λ c, is_digit c = true) ds ∧ (length ds = 1 ∨ length ds = 2)%nat)
  ∨ ds = js "100".

(** A percentage as the specification describes it: one to three digits
    with a value of at most 100. *)
Definition spec_percent (ds : jsstring) : Prop :=
  Forall (λ c, is_digit c = true) ds ∧ (1 ≤ length ds ≤ 3)%nat
  ∧ dval 0 ds ≤ 100.

(** The digits [ds] followed by a percent sign stand in [text] after [pre],
    at a word boundary or after an opening parenthesis. *)
Definition percent_occurrence (percent : jsstring → Prop)
    (text pre ds post : jsstring) : Prop :=
  text = pre ++ ds ++ PERCENT :: post
  ∧ percent ds
  ∧ (at_word_boundary (MState (last pre) (ds ++ PERCENT :: post) []) = true
     ∨ last pre = Some LPAREN).

(** What [percent_digits] accepts at the front of [s]: the digits and what
    follows the percent sign.  Written from the pattern's words, to compare
    the matcher with. *)
Definition percent_prefix (s : jsstring) : option (jsstring * jsstring) :=
  match s with
  | d1 :: d2 :: r2 =>
      if is_digit d1 then
        match r2 with
        | c :: t =>
            if is_digit d2 && (c =? PERCENT) then Some ([d1; d2], t)
            else if d2 =? PERCENT then Some ([d1], r2)
            else
              match t with
              | c' :: t' =>
                  if (d1 =? 49) && (d2 =? 48) && (c =? 48) && (c' =? PERCENT)
                  then Some ([49; 48; 48], t')
                  else None
              | [] => None
              end
        | [] => if d2 =? PERCENT then Some ([d1], []) else None
        end
      else None
  | _ => None
  end.

(** What [percent_re] accepts at a position, the previous character being
    [p]: the digits of the second group. *)
Definition percent_here (p : option N) (s : jsstring) : option jsstring :=
  match (if at_word_boundary (MState p s []) then percent_prefix s else None) with
  | Some (ds, _) => Some ds
  | None =>
      match s with
      | c :: s' => if c =? LPAREN then fst <$> percent_prefix s' else None
      | [] => None
      end
  end.

(** The character before the position reached after reading [s1], when the
    character before [s1] was [p]. *)
Definition last_or (p : option N) (s1 : jsstring) : option N :=
  match last s1 with
  | Some c => Some c
  | None => p
  end.

(** The line [{"event":"<kind>"}] as the worker prints it. *)
Definition event_line (kind : jsstring) : jsstring :=
  stringify (JObj [(js "event", JStr kind)]).

(** The line decodes to a value whose [event] field is the string [kind]. *)
Definition decodes_to (kind : jsstring) (line : jsstring) : Prop :=
  ∃ evt, JSON_parse line = Some evt
         ∧ get_prop evt (js "event") = Ok (Some (JStr kind)).

(** Actions that issue a command to the dispatcher. *)
Definition is_command (a : action) : bool :=
  match a with
  | CmdLoad _ _ | CmdStart _ _ | CmdStop _ | CmdStatus _ | Keypress _ _ => true
  | _ => false
  end.

(** Actions that touch the table of global shortcuts. *)
Definition rebinds (a : action) : bool :=
  match a with
  | DidFinishLoad _ _ _ | HotkeySet _ _ _ | HotkeyClear => true
  | _ => false
  end.

(** A run that has started the worker and seen it report [started]. *)
Definition started_run : list action :=
  [Ready; DidFinishLoad (js "/opt/app") true RegFail;
   StdoutData (event_line (js "started") ++ [LF])].

(** A run in which the worker was spawned and has since closed. *)
Definition closed_run : list action :=
  [Ready; DidFinishLoad (js "/opt/app") true RegFail; Close (Some 1%Z) None].

(** What [globalShortcut.register] never does: accept the empty string as
    an accelerator. *)
Definition env_ok (a : action) : Prop :=
  match a with
  | HotkeySet accelerator _ RegOk => accelerator ≠ []
  | _ => True
  end.

(** Every accelerator the OS holds is the recorded one; the recorded one is
    not the empty string; and when there is a store, it has the recorded
    accelerator under [hotkey]. *)
Definition bindings_consistent (st : state) : Prop :=
  (∀ a h, shortcuts st !! a = Some h → registeredShortcut st = Some a)
  ∧ (∀ b, registeredShortcut st = Some b → b ≠ [])
  ∧ (∀ b m, registeredShortcut st = Some b → store st = Some m →
            m !! js "hotkey" = Some (JStr b)).

(** The calls [hotkey:set] makes to [globalShortcut]. *)
Definition rebind_calls (old : option jsstring) (accelerator : jsstring)
    (o : reg_outcome) : list os_call :=
  match old with Some b => [OsUnregister b] | None => [] end
  ++ match o with RegThrow => [] | _ => [OsRegister accelerator] end.

(** The input after a number does not go on like a number. *)
Definition num_end (rest : jsstring) : Prop :=
  match rest with
  | c :: _ => is_digit c = false ∧ c ≠ DOT ∧ c ≠ 101 ∧ c ≠ 69
  | [] => True
  end.

(** The input after a digit run does not go on with a digit. *)
Definition digits_end (rest : jsstring) : Prop :=
  match rest with
  | c :: _ => is_digit c = false
  | [] => True
  end.

(** Values that [JSON.stringify] prints and [JSON.parse] gives back: the
    numbers are canonical and no object has a key twice. *)
Fixpoint wf_value (v : value) : Prop :=
  match v with
  | JNum n => canonical n
  | JArr items => foldr (λ x P, wf_value x ∧ P) True items
  | JObj props =>
      NoDup (map fst props)
      ∧ foldr (λ kv P, wf_value (snd kv) ∧ P) True props
  | _ => True
  end.

(** The number of values in a value. *)
Fixpoint vsize (v : value) : nat :=
  match v with
  | JArr items => S (foldr (λ x n, vsize x + n) 0 items)%nat
  | JObj props => S (foldr (λ kv n, vsize (snd kv) + n) 0 props)%nat
  | _ => 1%nat
  end.

(** One member of an object as [stringify] prints it. *)
Definition member (kv : jsstring * value) : jsstring :=
  quote_string (fst kv) ++ [COLON] ++ stringify (snd kv).

(** No control character. *)
Definition plain (s : jsstring) : Prop := Forall (λ c, 32 ≤ c) s.

(** A reader that makes progress. *)
Definition consumes {A} (pv : jsstring → option (A * jsstring)) : Prop :=
  ∀ s v r, pv s = Some (v, r) → (length r < length s)%nat.

(** The lines of a chunk, read off the pattern of [newline_re]: a line
    ends at a line feed, or at a carriage return that a line feed
    follows.  Written to compare [rsplit newline_re] with. *)
Fixpoint lines_of (piece : jsstring) (s : jsstring) : list jsstring :=
  match s with
  | [] => [piece]
  | c :: t =>
      if c =? LF then piece :: lines_of [] t
      else
        match t with
        | d :: t' =>
            if (c =? CR) && (d =? LF) then piece :: lines_of [] t'
            else lines_of (piece ++ [c]) t
        | [] => [piece ++ [c]]
        end
  end.

(** What a request does to the preferences, when there is a store. *)
Definition store_effect (a : action) (m : gmap jsstring value)
  : gmap jsstring value :=
  match a with
  | CmdLoad args _ =>
      match opt_prop args (js "model_name") with
      | Some v => if truthy (Some v) then <[js "model" := v]> m else m
      | None => m
      end
  | CmdStart args _ =>
      match opt_prop args (js "language") with
      | Some v => if truthy (Some v) then <[js "language" := v]> m else m
      | None => m
      end
  | HotkeySet accelerator _ RegOk => <[js "hotkey" := JStr accelerator]> m
  | HotkeyClear => delete (js "hotkey") m
  | _ => m
  end.

(** The last progress is absent or a whole number from 0 to 100. *)
Definition percentage (p : option number) : Prop :=
  match p with
  | Some n => (0 ≤ exp10 n)%Z ∧ (0 ≤ number_value n ≤ 100)%Z
  | None => True
  end.

(** White space on both sides of [String.prototype.trim]. *)
Definition spaces (s : jsstring) : Prop := Forall (λ c, is_js_space c = true) s.

(** A restart: a new main process that finds the preferences [prefs] and
    gets as far as the end of the start-up callback. *)
Definition restart (prefs : option (gmap jsstring value)) (root : jsstring)
    (present : bool) (o : reg_outcome) : state :=
  run (initial prefs) [Ready; DidFinishLoad root present o].

(** The event that echoes a saved preference, if it is worth one. *)
Definition pref_event (kind : jsstring) (v : option value) : list value :=
  match v with
  | Some x => if truthy v then [ev_pref kind x] else []
  | None => []
  end.

(** The names of the commands the main process sends. *)
Definition command_names : list jsstring :=
  [js "load"; js "start"; js "stop"; js "status"].

(** A chunk handed to the worker's input: one encoded command with one of
    the four names. *)
Definition command_chunk (w : jsstring) : Prop :=
  ∃ cmd args, cmd ∈ command_names ∧ w = encode_command cmd args.

(** The accelerator the main process has recorded is the one the OS holds,
    and the OS holds no other. *)
Definition bindings_exact (st : state) : Prop :=
  match registeredShortcut st with
  | Some a => ∃ h, shortcuts st = {[ a := h ]}
  | None => shortcuts st = ∅
  end.






(* ================================================================= *)
(** * Properties *)

(** ** Field by field: what [send] and [sendCmd] leave alone *)

Lemma send_running e st : running (send e st) = running st.
Proof. unfold send. by destruct (win st). Qed.

Lemma send_py e st : py (send e st) = py st.
Proof. unfold send. by destruct (win st). Qed.

Lemma send_win e st : win (send e st) = win st.
Proof. unfold send. by destruct (win st) eqn:E. Qed.

Lemma send_store e st : store (send e st) = store st.
Proof. unfold send. by destruct (win st). Qed.

Lemma send_shortcuts e st : shortcuts (send e st) = shortcuts st.
Proof. unfold send. by destruct (win st). Qed.

Lemma send_registered e st :
  registeredShortcut (send e st) = registeredShortcut st.
Proof. unfold send. by destruct (win st). Qed.

Lemma send_os_calls e st : os_calls (send e st) = os_calls st.
Proof. unfold send. by destruct (win st). Qed.

Lemma send_stdin e st : stdin_writes (send e st) = stdin_writes st.
Proof. unfold send. by destruct (win st). Qed.

Lemma send_sent e st : win st = true → sent (send e st) = sent st ++ [e].
Proof. unfold send. by intros ->. Qed.

Lemma sendCmd_running cmd args w st :
  running (sendCmd cmd args w st) = running st.
Proof.
  unfold sendCmd. destruct (py st); [|apply send_running].
  destruct w; simpl; [done|apply send_running].
Qed.

Lemma sendCmd_shortcuts cmd args w st :
  shortcuts (sendCmd cmd args w st) = shortcuts st.
Proof.
  unfold sendCmd. destruct (py st); [|apply send_shortcuts].
  destruct w; simpl; [done|apply send_shortcuts].
Qed.

Lemma sendCmd_registered cmd args w st :
  registeredShortcut (sendCmd cmd args w st) = registeredShortcut st.
Proof.
  unfold sendCmd. destruct (py st); [|apply send_registered].
  destruct w; simpl; [done|apply send_registered].
Qed.

Lemma sendCmd_store cmd args w st :
  store (sendCmd cmd args w st) = store st.
Proof.
  unfold sendCmd. destruct (py st); [|apply send_store].
  destruct w; simpl; [done|apply send_store].
Qed.

Lemma sendCmd_os_calls cmd args w st :
  os_calls (sendCmd cmd args w st) = os_calls st.
Proof.
  unfold sendCmd. destruct (py st); [|apply send_os_calls].
  destruct w; simpl; [done|apply send_os_calls].
Qed.

Lemma send_pref_py kind v st : py (send_pref kind v st) = py st.
Proof.
  unfold send_pref. destruct v; [|done].
  destruct (truthy _); [apply send_py|done].
Qed.

Lemma restore_hotkey_py o st : py (restore_hotkey o st) = py st.
Proof.
  unfold restore_hotkey.
  destruct (truthy _ && truthy _); [|done].
  destruct (store_get (js "hotkey") st) as [[]|]; try done.
  by destruct o.
Qed.

Lemma did_finish_load_py root present o st :
  py (did_finish_load root present o st) = py (startPython root present st).
Proof.
  unfold did_finish_load. cbv zeta.
  by rewrite restore_hotkey_py, !send_pref_py.
Qed.

(** ** The exit watcher *)

(** C1, as stated, fails: the worker has reported [started], then the
    process closes with exit code 1; the running flag is still true after
    the exit watcher has run. *)
Lemma exit_watcher_leaves_running_set :
  let st := run (initial None) started_run in
  running st = true
  ∧ running (step st (Close (Some 1%Z) None)) = true.
Proof. vm_compute. done. Qed.

(** C1 (amended): when the worker process closes, the exit watcher forwards
    one [exit] event carrying the exit code and the signal, and leaves the
    running flag as it was. *)
Theorem exit_watcher_reports_exit st p code signal :
  win st = true →
  py st = Some p →
  let st' := step st (Close code signal) in
  sent st' = sent st ++ [ev_exit code signal]
  ∧ running st' = running st.
Proof.
  intros Hwin Hpy. simpl. unfold if_spawned, on_close. rewrite Hpy. simpl.
  split; [by apply send_sent|apply send_running].
Qed.

Lemma exit_watcher_reports_exit_witness :
  let st := run (initial None) started_run in
  let st' := step st (Close (Some 1%Z) None) in
  sent st' = sent st ++ [ev_exit (Some 1%Z) None]
  ∧ running st' = running st.
Proof.
  apply (exit_watcher_reports_exit (run (initial None) started_run) Live);
    vm_compute; reflexivity.
Defined.

(** ** Missing interpreter *)

(** C7: when the interpreter is absent, [startPython] only sends one
    [stderr] event that names the missing path; the process handle is left
    as it was, so a supervisor without a worker stays without one, and the
    start-up callback as a whole leaves it so. *)
Theorem missing_interpreter_spawns_nothing root st o :
  win st = true →
  py st = None →
  let st' := startPython root false st in
  py st' = None
  ∧ (∃ pre post,
       sent st' = sent st ++ [ev_stderr (pre ++ forcedPy root ++ post)])
  ∧ stdin_writes st' = stdin_writes st
  ∧ running st' = running st
  ∧ py (step st (DidFinishLoad root false o)) = None.
Proof.
  intros Hwin Hpy. unfold startPython. cbn [negb].
  rewrite send_py, send_stdin, send_running, send_sent by done.
  repeat split; try done.
  - eexists _, _. reflexivity.
  - cbn [step]. rewrite did_finish_load_py. unfold startPython. cbn [negb].
    by rewrite send_py.
Qed.

Lemma missing_interpreter_spawns_nothing_witness :
  let st := run (initial None) [Ready] in
  let st' := startPython (js "/opt/app") false st in
  py st' = None
  ∧ (∃ pre post,
       sent st' = sent st ++ [ev_stderr (pre ++ forcedPy (js "/opt/app") ++ post)])
  ∧ stdin_writes st' = stdin_writes st
  ∧ running st' = running st
  ∧ py (step st (DidFinishLoad (js "/opt/app") false RegOk)) = None.
Proof.
  apply (missing_interpreter_spawns_nothing (js "/opt/app")
           (run (initial None) [Ready]) RegOk); reflexivity.
Defined.

(** ** The dispatcher *)

(** C8, as stated, fails: the worker process has exited, so no live worker
    exists, yet a [stop] command is handed to [py.stdin.write] and no error
    event is reported. *)
Lemma dispatch_after_exit_still_writes :
  let st := run (initial None) closed_run in
  let st' := step st (CmdStop WriteReturns) in
  py st = Some Closed
  ∧ sent st' = sent st
  ∧ stdin_writes st' = stdin_writes st ++ [encode_command (js "stop") (JObj [])].
Proof. vm_compute. done. Qed.

(** C8 (amended): with no process handle, [sendCmd] reports an error event
    and writes nothing; with a handle, of a live or of an exited process,
    it hands the encoded command to the input stream, and a write that
    throws is caught and reported as an event, nothing being written. *)
Theorem dispatch_reports_or_writes cmd args w st :
  win st = true →
  let st' := sendCmd cmd args w st in
  (py st = None →
     sent st' = sent st ++ [ev_stderr (js "Python server is not running yet.")]
     ∧ stdin_writes st' = stdin_writes st)
  ∧ (∀ p msg, py st = Some p → w = WriteThrows msg →
       sent st' = sent st ++ [ev_stderr (js "Failed to send command: " ++ msg)]
       ∧ stdin_writes st' = stdin_writes st)
  ∧ (∀ p, py st = Some p → w = WriteReturns →
       sent st' = sent st
       ∧ stdin_writes st' = stdin_writes st ++ [encode_command cmd (default (JObj []) args)]).
Proof.
  intros Hwin. simpl. unfold sendCmd. repeat split.
  - rewrite H. by apply send_sent.
  - rewrite H. apply send_stdin.
  - rewrite H, H0. simpl. by apply send_sent.
  - rewrite H, H0. simpl. apply send_stdin.
  - by rewrite H, H0.
  - by rewrite H, H0.
Qed.

Lemma dispatch_reports_or_writes_witness :
  let st := run (initial None) [Ready] in
  let st' := sendCmd (js "status") None WriteReturns st in
  (py st = None →
     sent st' = sent st ++ [ev_stderr (js "Python server is not running yet.")]
     ∧ stdin_writes st' = stdin_writes st)
  ∧ (∀ p msg, py st = Some p → WriteReturns = WriteThrows msg →
       sent st' = sent st ++ [ev_stderr (js "Failed to send command: " ++ msg)]
       ∧ stdin_writes st' = stdin_writes st)
  ∧ (∀ p, py st = Some p → WriteReturns = WriteReturns →
       sent st' = sent st
       ∧ stdin_writes st' = stdin_writes st ++ [encode_command (js "status") (default (JObj []) None)]).
Proof.
  apply (dispatch_reports_or_writes (js "status") None WriteReturns
           (run (initial None) [Ready])).
  reflexivity.
Defined.

(** ** Who writes the running flag *)

Lemma store_set_running k v st : running (store_set k v st) = running st.
Proof. unfold store_set. by destruct (store st). Qed.

Lemma store_delete_running k st : running (store_delete k st) = running st.
Proof. unfold store_delete. by destruct (store st). Qed.

Lemma drop_registered_running st : running (drop_registered st) = running st.
Proof.
  unfold drop_registered. destruct (registeredShortcut st); [|done].
  by destruct (negb _).
Qed.

Lemma hotkey_set_running a l o st :
  running (snd (hotkey_set a l o st)) = running st.
Proof.
  unfold hotkey_set. destruct o; cbn;
    rewrite ?store_set_running; cbn; apply drop_registered_running.
Qed.

Lemma restore_hotkey_running o st : running (restore_hotkey o st) = running st.
Proof.
  unfold restore_hotkey.
  destruct (truthy _ && truthy _); [|done].
  destruct (store_get (js "hotkey") st) as [[]|]; try done.
  by destruct o.
Qed.

Lemma send_pref_running kind v st : running (send_pref kind v st) = running st.
Proof.
  unfold send_pref. destruct v; [|done].
  destruct (truthy _); [apply send_running|done].
Qed.

Lemma startPython_running root present st :
  running (startPython root present st) = running st.
Proof.
  unfold startPython. destruct present; cbn; apply send_running.
Qed.

Lemma run_handler_running h w st : running (run_handler h w st) = running st.
Proof.
  unfold run_handler. destruct (running st) eqn:E.
  - by rewrite sendCmd_running.
  - destruct h; by rewrite sendCmd_running.
Qed.

Lemma on_stderr_running text st : running (on_stderr_data text st) = running st.
Proof.
  unfold on_stderr_data. destruct (rexec _ _ _); by rewrite send_running.
Qed.

(** One line of output: the flag changes only to what the line says. *)
Lemma stdout_line_running line st :
  running (stdout_line line st) = running st
  ∨ (running (stdout_line line st) = true ∧ decodes_to (js "started") line)
  ∨ (running (stdout_line line st) = false ∧ decodes_to (js "stopped") line).
Proof.
  unfold stdout_line, stdout_try, decodes_to.
  destruct (JSON_parse line) as [evt|]; cbn; [|left; apply send_running].
  destruct (get_prop evt (js "event")) as [e|] eqn:Hp; cbn;
    [|left; apply send_running].
  rewrite send_running.
  destruct (is_string e (js "stopped")) eqn:Hstop.
  - right; right. split; [done|]. exists evt. split; [done|].
    destruct e as [[]|]; try done. cbn in Hstop. unfold str_eqb in Hstop.
    apply bool_decide_eq_true in Hstop. by subst.
  - destruct (is_string e (js "started")) eqn:Hstart; [|by left].
    right; left. split; [done|]. exists evt. split; [done|].
    destruct e as [[]|]; try done. cbn in Hstart. unfold str_eqb in Hstart.
    apply bool_decide_eq_true in Hstart. by subst.
Qed.

Lemma stdout_lines_running lines st b :
  running st = negb b →
  running (foldl (λ s line, stdout_line line s) st lines) = b →
  ∃ line, line ∈ lines
          ∧ decodes_to (if b then js "started" else js "stopped") line.
Proof.
  revert st. induction lines as [|l lines IH]; intros st Hst Hend; cbn in Hend.
  - rewrite Hst in Hend. by destruct b.
  - destruct (decide (running (stdout_line l st) = negb b)) as [Hn|Hn].
    + destruct (IH _ Hn Hend) as (line & Hin & Hd).
      exists line. split; [by right|done].
    + exists l. split; [by left|].
      destruct (stdout_line_running l st) as [H|[[H Hd]|[H Hd]]].
      * congruence.
      * destruct b; [done|]. cbn in Hn. congruence.
      * destruct b; [|done]. cbn in Hn. congruence.
Qed.

(** C4: along every run, a step that turns the running flag on is an
    output-stream chunk with a line that decodes to a [started] event; a
    step that turns it off is an output-stream chunk with a line that
    decodes to a [stopped] event (or the close of the process); and no
    command issued through the dispatcher, from the window or from the
    hotkey, changes the flag. *)
Theorem run_state_follows_worker_events st0 tr a :
  let st := run st0 tr in
  (running st = false → running (step st a) = true →
     ∃ data line, a = StdoutData data ∧ line ∈ stdout_lines data
                  ∧ decodes_to (js "started") line)
  ∧ (running st = true → running (step st a) = false →
       (∃ data line, a = StdoutData data ∧ line ∈ stdout_lines data
                     ∧ decodes_to (js "stopped") line)
       ∨ (∃ code signal, a = Close code signal))
  ∧ (is_command a = true → running (step st a) = running st)
  ∧ (∀ cmd args w, running (sendCmd cmd args w st) = running st).
Proof.
  cbv zeta. generalize (run st0 tr) as st. clear st0 tr. intros st.
  assert (Hother : (∀ data, a ≠ StdoutData data) →
                   running (step st a) = running st).
  { intros Hne. destruct a; cbn [step]; unfold if_spawned.
    - done.
    - unfold did_finish_load. cbv zeta.
      by rewrite restore_hotkey_running, !send_pref_running,
        startPython_running.
    - by destruct (Hne data).
    - destruct (py st); [apply on_stderr_running|done].
    - destruct (py st); [apply send_running|done].
    - destruct (py st); [|done]. cbn. apply send_running.
    - unfold cmd_load. rewrite sendCmd_running.
      destruct (opt_prop _ _); [|done].
      destruct (truthy _); [apply store_set_running|done].
    - unfold cmd_start. rewrite sendCmd_running.
      destruct (opt_prop _ _); [|done].
      destruct (truthy _); [apply store_set_running|done].
    - apply sendCmd_running.
    - apply sendCmd_running.
    - apply hotkey_set_running.
    - cbn. by rewrite store_delete_running, drop_registered_running.
    - unfold keypress. destruct (_ !! _); [apply run_handler_running|done]. }
  assert (Hout : ∀ b, running st = negb b → running (step st a) = b →
                 ∃ data line, a = StdoutData data ∧ line ∈ stdout_lines data
                   ∧ decodes_to (if b then js "started" else js "stopped") line).
  { intros b Hb Hb'.
    assert (Hcase : (∃ data, a = StdoutData data) ∨ ∀ data, a ≠ StdoutData data)
      by (destruct a; eauto; right; done).
    destruct Hcase as [[data ->]|Hne].
    - cbn [step] in Hb'. unfold if_spawned in Hb'.
      destruct (py st); [|rewrite Hb in Hb'; by destruct b].
      destruct (stdout_lines_running _ _ _ Hb Hb') as (line & Hin & Hd).
      by exists data, line.
    - rewrite Hother in Hb' by done. rewrite Hb in Hb'. by destruct b. }
  repeat split.
  - intros H1 H2. by apply (Hout true).
  - intros H1 H2. left. by apply (Hout false).
  - intros Hc. apply Hother. intros data ->. done.
  - intros. apply sendCmd_running.
Qed.

Lemma run_state_follows_worker_events_witness :
  let st := run (initial None) [Ready; DidFinishLoad (js "/opt/app") true RegFail] in
  let a := StdoutData (event_line (js "started") ++ [LF]) in
  running st = false ∧ running (step st a) = true
  ∧ ∃ data line, a = StdoutData data ∧ line ∈ stdout_lines data
                 ∧ decodes_to (js "started") line.
Proof.
  split; [reflexivity|]. split; [vm_compute; reflexivity|].
  apply (proj1 (run_state_follows_worker_events (initial None)
                  [Ready; DidFinishLoad (js "/opt/app") true RegFail]
                  (StdoutData (event_line (js "started") ++ [LF]))));
    vm_compute; reflexivity.
Defined.

(** ** The table of shortcuts between two bindings *)

Lemma set_running_same st : set_running (running st) st = st.
Proof. by destruct st. Qed.

(** One line of output sends one event and may set the flag. *)
Lemma stdout_line_shape line st :
  ∃ e b, stdout_line line st = send e (set_running b st).
Proof.
  unfold stdout_line, stdout_try.
  destruct (JSON_parse line) as [evt|]; cbn;
    [|exists (ev_log line), (running st); by rewrite set_running_same].
  destruct (get_prop evt (js "event")) as [e|]; cbn;
    [|exists (ev_log line), (running st); by rewrite set_running_same].
  destruct (is_string e (js "stopped")), (is_string e (js "started"));
    eexists evt, _; try reflexivity.
  by rewrite set_running_same.
Qed.

Lemma stdout_data_frame data st :
  let st' := on_stdout_data data st in
  shortcuts st' = shortcuts st ∧ store st' = store st ∧ py st' = py st
  ∧ registeredShortcut st' = registeredShortcut st
  ∧ os_calls st' = os_calls st ∧ win st' = win st.
Proof.
  unfold on_stdout_data. generalize (stdout_lines data) as lines.
  intros lines. revert st. induction lines as [|l lines IH]; intros st; [done|].
  cbn. destruct (stdout_line_shape l st) as (e & b & ->).
  destruct (IH (send e (set_running b st))) as (-> & -> & -> & -> & -> & ->).
  by rewrite send_shortcuts, send_store, send_py, send_registered,
    send_os_calls, send_win.
Qed.

Lemma store_set_shortcuts k v st : shortcuts (store_set k v st) = shortcuts st.
Proof. unfold store_set. by destruct (store st). Qed.

Lemma step_shortcuts st a :
  rebinds a = false → shortcuts (step st a) = shortcuts st.
Proof.
  intros Ha. destruct a; try done; cbn [step]; unfold if_spawned.
  - destruct (py st); [apply stdout_data_frame|done].
  - destruct (py st); [|done]. unfold on_stderr_data.
    destruct (rexec _ _ _); by rewrite send_shortcuts.
  - destruct (py st); [apply send_shortcuts|done].
  - destruct (py st); [|done]. cbn. apply send_shortcuts.
  - unfold cmd_load. rewrite sendCmd_shortcuts.
    destruct (opt_prop _ _); [|done].
    destruct (truthy _); [apply store_set_shortcuts|done].
  - unfold cmd_start. rewrite sendCmd_shortcuts.
    destruct (opt_prop _ _); [|done].
    destruct (truthy _); [apply store_set_shortcuts|done].
  - apply sendCmd_shortcuts.
  - apply sendCmd_shortcuts.
  - unfold keypress. destruct (_ !! _); [|done]. unfold run_handler.
    destruct (running st); [apply sendCmd_shortcuts|].
    destruct h; apply sendCmd_shortcuts.
Qed.

Lemma run_shortcuts st tr :
  Forall (λ a, rebinds a = false) tr → shortcuts (run st tr) = shortcuts st.
Proof.
  intros H. revert st. induction H as [|a tr Ha _ IH]; intros st; [done|].
  cbn. unfold run in IH. by rewrite IH, step_shortcuts.
Qed.

Lemma hotkey_set_binds a l st :
  shortcuts (snd (hotkey_set a l RegOk st)) !! a = Some (HSet l).
Proof.
  unfold hotkey_set. cbn. rewrite store_set_shortcuts. cbn.
  apply lookup_insert_eq.
Qed.

(** ** The toggle *)

(** C6: the closure bound by [hotkey:set] looks at the running flag when
    the key is pressed.  Whatever happened since the binding (short of
    another binding), a key press sends [stop] when the flag is set at
    that moment and [start] with the language otherwise; so once a
    [started] event has set the flag, the key press writes a [stop]
    command to the worker. *)
Theorem hotkey_reads_run_state_at_keypress st accel lang tr w :
  Forall (λ a, rebinds a = false) tr →
  let now := run (snd (hotkey_set accel lang RegOk st)) tr in
  keypress accel w now =
    (if running now then sendCmd (js "stop") (Some (JObj [])) w now
     else sendCmd (js "start") (Some (object [(js "language", lang)])) w now)
  ∧ (running now = true → py now ≠ None →
       stdin_writes (keypress accel WriteReturns now)
       = stdin_writes now ++ [encode_command (js "stop") (JObj [])]).
Proof.
  intros Htr now.
  assert (Hb : shortcuts now !! accel = Some (HSet lang)).
  { unfold now. rewrite run_shortcuts by done. apply hotkey_set_binds. }
  unfold keypress. rewrite Hb. unfold run_handler. split; [done|].
  intros -> Hpy. unfold sendCmd. by destruct (py now).
Qed.

Lemma hotkey_reads_run_state_at_keypress_witness :
  let tr := [StdoutData (event_line (js "started") ++ [LF])] in
  let bound := run (initial None) [Ready; DidFinishLoad (js "/opt/app") true RegFail] in
  let now := run (snd (hotkey_set (js "F9") (Some (JStr (js "en"))) RegOk bound)) tr in
  running bound = false ∧ running now = true
  ∧ stdin_writes (keypress (js "F9") WriteReturns now)
    = stdin_writes now ++ [encode_command (js "stop") (JObj [])].
Proof.
  split; [reflexivity|]. split; [vm_compute; reflexivity|].
  apply (hotkey_reads_run_state_at_keypress
           (run (initial None) [Ready; DidFinishLoad (js "/opt/app") true RegFail])
           (js "F9") (Some (JStr (js "en")))
           [StdoutData (event_line (js "started") ++ [LF])] WriteReturns).
  - repeat constructor.
  - vm_compute; reflexivity.
  - vm_compute. discriminate.
Defined.

(** ** The language a binding sends *)

Lemma send_pref_store kind v st : store (send_pref kind v st) = store st.
Proof.
  unfold send_pref. destruct v; [|done].
  destruct (truthy _); [apply send_store|done].
Qed.

Lemma startPython_store root present st :
  store (startPython root present st) = store st.
Proof. unfold startPython. destruct present; cbn; apply send_store. Qed.

Lemma store_get_ext k st st' : store st' = store st → store_get k st' = store_get k st.
Proof. unfold store_get. by intros ->. Qed.

Lemma did_finish_load_binds root present st accel :
  store_get (js "hotkey") st = Some (JStr accel) →
  accel ≠ [] →
  truthy (store_get (js "language") st) = true →
  shortcuts (did_finish_load root present RegOk st) !! accel = Some HRestore.
Proof.
  intros Hk Hne Hl. unfold did_finish_load. cbv zeta.
  set (st4 := send_pref _ _ _).
  assert (Hs : store st4 = store st).
  { unfold st4. by rewrite !send_pref_store, startPython_store. }
  unfold restore_hotkey.
  rewrite !(store_get_ext _ st st4) by done. rewrite Hk, Hl.
  cbn. unfold str_eqb. rewrite bool_decide_eq_false_2 by done. cbn.
  apply lookup_insert_eq.
Qed.

Lemma sendCmd_store_set_stdin cmd args w k v st :
  stdin_writes (sendCmd cmd args w (store_set k v st))
  = stdin_writes (sendCmd cmd args w st).
Proof.
  unfold store_set. destruct (store st); [|done].
  unfold sendCmd. cbn [py set_store].
  destruct (py st), w; cbn [try_catch stdin_write]; by rewrite ?send_stdin.
Qed.

Lemma set_store_same st : set_store (store st) st = st.
Proof. by destruct st. Qed.

(** C10: a binding made by [hotkey:set] sends, at every later key press
    that finds the worker idle, [start] with the language given when it
    was bound, whatever the store holds by then; the binding restored at
    start-up sends the language the store holds at the key press, and
    ['en'] when the store holds none (or a falsy one).  The settings live
    in a file outside the process, so the store found at the key press is
    any store [prefs], not only the one the main process left. *)
Theorem binding_language_source st accel lang root present tr w :
  Forall (λ a, rebinds a = false) tr →
  (let now := run (snd (hotkey_set accel lang RegOk st)) tr in
   running now = false →
   keypress accel w now
     = sendCmd (js "start") (Some (object [(js "language", lang)])) w now
   ∧ (∀ v, stdin_writes (keypress accel w (store_set (js "language") v now))
           = stdin_writes (keypress accel w now))
   ∧ (∀ p prefs, py now = Some p →
        stdin_writes (keypress accel WriteReturns (set_store prefs now))
        = stdin_writes now
          ++ [encode_command (js "start") (object [(js "language", lang)])]))
  ∧ (store_get (js "hotkey") st = Some (JStr accel) → accel ≠ [] →
     truthy (store_get (js "language") st) = true →
     ∀ prefs,
     let now := set_store prefs (run (did_finish_load root present RegOk st) tr) in
     running now = false →
     (∀ v, store_get (js "language") now = Some v → truthy (Some v) = true →
           keypress accel w now
           = sendCmd (js "start") (Some (JObj [(js "language", v)])) w now
           ∧ (∀ p, py now = Some p →
                stdin_writes (keypress accel WriteReturns now)
                = stdin_writes now
                  ++ [encode_command (js "start") (JObj [(js "language", v)])]))
     ∧ (truthy (store_get (js "language") now) = false →
          keypress accel w now
          = sendCmd (js "start")
              (Some (JObj [(js "language", JStr (js "en"))])) w now
          ∧ (∀ p, py now = Some p →
               stdin_writes (keypress accel WriteReturns now)
               = stdin_writes now
                 ++ [encode_command (js "start")
                       (JObj [(js "language", JStr (js "en"))])]))).
Proof.
  intros Htr. split.
  - intros now Hrun.
    assert (Hb : shortcuts now !! accel = Some (HSet lang)).
    { unfold now. rewrite run_shortcuts by done. apply hotkey_set_binds. }
    unfold keypress. split; [|split].
    + rewrite Hb. unfold run_handler. by rewrite Hrun.
    + intros v. rewrite store_set_shortcuts, Hb. unfold run_handler.
      rewrite store_set_running, Hrun. apply sendCmd_store_set_stdin.
    + intros p prefs Hp. cbn [shortcuts set_store]. rewrite Hb.
      unfold run_handler. cbn [running set_store]. rewrite Hrun.
      unfold sendCmd. cbn [py set_store]. by rewrite Hp.
  - intros Hk Hne Hl prefs now Hrun.
    assert (Hb : shortcuts now !! accel = Some HRestore).
    { unfold now. cbn [shortcuts set_store]. rewrite run_shortcuts by done.
      by apply did_finish_load_binds. }
    unfold keypress. rewrite Hb. unfold run_handler. rewrite Hrun. split.
    + intros v Hv Ht. rewrite Hv, Ht. split; [done|].
      intros p Hp. unfold sendCmd. by rewrite Hp.
    + intros Hf. rewrite Hf. split; [done|].
      intros p Hp. unfold sendCmd. by rewrite Hp.
Qed.

(** Both kinds of binding are made for [F9] while Spanish is asked for and
    German is saved; the window then starts a session in French.  The
    binding of [hotkey:set] still sends Spanish and the restored binding
    sends French; once the settings have lost the language, the restored
    binding sends ['en']. *)
Lemma binding_language_source_witness :
  let french := Some (JObj [(js "language", JStr (js "fr"))]) in
  let tr := [CmdStart french WriteReturns;
             StdoutData (event_line (js "stopped") ++ [LF])] in
  let prefs : gmap jsstring value :=
    {[ js "hotkey" := JStr (js "F9"); js "language" := JStr (js "de") ]} in
  let st := run (initial (Some prefs)) [Ready] in
  let after_set := run (snd (hotkey_set (js "F9") (Some (JStr (js "es"))) RegOk st)) tr in
  let after_restore := run (did_finish_load (js "/opt/app") true RegOk st) tr in
  let emptied := set_store (Some ∅) after_restore in
  keypress (js "F9") WriteReturns after_set
  = sendCmd (js "start") (Some (JObj [(js "language", JStr (js "es"))]))
      WriteReturns after_set
  ∧ keypress (js "F9") WriteReturns after_restore
    = sendCmd (js "start") (Some (JObj [(js "language", JStr (js "fr"))]))
        WriteReturns after_restore
  ∧ store_get (js "language") emptied = None
  ∧ stdin_writes (keypress (js "F9") WriteReturns emptied)
    = stdin_writes emptied
      ++ [encode_command (js "start") (JObj [(js "language", JStr (js "en"))])].
Proof.
  intros french tr prefs st after_set after_restore emptied.
  assert (Htr : Forall (λ a, rebinds a = false) tr) by repeat constructor.
  pose proof (binding_language_source st (js "F9") (Some (JStr (js "es")))
                (js "/opt/app") true tr WriteReturns Htr) as [H1 H2].
  assert (Hk : store_get (js "hotkey") st = Some (JStr (js "F9")))
    by (vm_compute; reflexivity).
  assert (Hne : js "F9" ≠ []) by (vm_compute; discriminate).
  assert (Hl : truthy (store_get (js "language") st) = true)
    by (vm_compute; reflexivity).
  split; [|split; [|split]].
  - refine (proj1 (H1 _)). vm_compute. reflexivity.
  - pose proof (H2 Hk Hne Hl (store after_restore)) as H.
    cbv zeta in H. fold after_restore in H.
    rewrite set_store_same in H.
    assert (Hrun : running after_restore = false) by (vm_compute; reflexivity).
    destruct (H Hrun) as [Ha _].
    refine (proj1 (Ha (JStr (js "fr")) _ _)); vm_compute; reflexivity.
  - reflexivity.
  - pose proof (H2 Hk Hne Hl (Some ∅)) as H.
    cbv zeta in H. fold after_restore in H. fold emptied in H.
    assert (Hrun : running emptied = false) by (vm_compute; reflexivity).
    destruct (H Hrun) as [_ Hd].
    assert (Hf : truthy (store_get (js "language") emptied) = false)
      by reflexivity.
    assert (Hp : py emptied = Some Live) by (vm_compute; reflexivity).
    exact (proj2 (Hd Hf) Live Hp).
Defined.

(** ** One registration at a time *)

Lemma drop_registered_clears st :
  bindings_consistent st →
  shortcuts (drop_registered st) = ∅
  ∧ registeredShortcut (drop_registered st) = None
  ∧ store (drop_registered st) = store st
  ∧ os_calls (drop_registered st)
    = os_calls st ++ match registeredShortcut st with
                     | Some b => [OsUnregister b]
                     | None => []
                     end.
Proof.
  intros (H1 & H2 & _). unfold drop_registered.
  destruct (registeredShortcut st) as [old|] eqn:Hr.
  - unfold str_eqb. rewrite bool_decide_eq_false_2 by by apply H2.
    cbn. repeat split; try done.
    apply map_empty. intros a.
    destruct (decide (old = a)) as [->|Hne]; [apply lookup_delete_eq|].
    rewrite lookup_delete_ne by done.
    destruct (shortcuts st !! a) eqn:Ha; [|done].
    apply H1 in Ha. congruence.
  - repeat split; try done; [|by rewrite app_nil_r].
    apply map_empty. intros a.
    destruct (shortcuts st !! a) eqn:Ha; [|done].
    apply H1 in Ha. congruence.
Qed.

Lemma bindings_consistent_frame st st' :
  shortcuts st' = shortcuts st →
  registeredShortcut st' = registeredShortcut st →
  (store st' = store st
   ∨ ∃ k v m, k ≠ js "hotkey" ∧ store st = Some m ∧ store st' = Some (<[k := v]> m)) →
  bindings_consistent st → bindings_consistent st'.
Proof.
  intros Hs Hr Hst (H1 & H2 & H3). unfold bindings_consistent.
  rewrite Hs, Hr. repeat split; try done.
  intros b m Hb Hm. destruct Hst as [Hst|(k & v & m0 & Hk & Hm0 & Hst)].
  - rewrite Hst in Hm. by apply H3.
  - rewrite Hst in Hm. injection Hm as <-.
    rewrite lookup_insert_ne by done. by apply H3.
Qed.

Lemma hotkey_set_effect accel lang o st :
  bindings_consistent st →
  (o = RegOk → accel ≠ []) →
  let r := hotkey_set accel lang o st in
  bindings_consistent (snd r)
  ∧ os_calls (snd r) = os_calls st ++ rebind_calls (registeredShortcut st) accel o
  ∧ (o ≠ RegOk →
       fst r = false ∧ registeredShortcut (snd r) = None ∧ shortcuts (snd r) = ∅)
  ∧ (o = RegOk →
       fst r = true ∧ registeredShortcut (snd r) = Some accel
       ∧ shortcuts (snd r) = {[ accel := HSet lang ]}).
Proof.
  intros Hinv Hne. destruct (drop_registered_clears st Hinv) as (Hs & Hr & Hst & Hc).
  unfold hotkey_set, rebind_calls. cbv zeta.
  set (st1 := drop_registered st) in *.
  destruct o; cbn.
  - unfold store_set. cbn. destruct (store st1) eqn:Hst1; cbn;
      rewrite Hs, Hc, <-app_assoc; (split; [|split; [done|split; [done|done]]]).
    + repeat split; cbn.
      * intros a h. rewrite insert_empty. intros Ha.
        apply lookup_singleton_Some in Ha as [<- _]. done.
      * intros b [= <-]. by apply Hne.
      * intros b m [= <-] [= <-]. apply lookup_insert_eq.
    + repeat split; cbn.
      * intros a h. rewrite insert_empty. intros Ha.
        apply lookup_singleton_Some in Ha as [<- _]. done.
      * intros b [= <-]. by apply Hne.
      * intros b m _. by rewrite Hst1.
  - rewrite Hs, Hr, Hc, <-app_assoc. repeat split; try done.
    + intros a h. cbn. by rewrite Hs.
    + cbn. by rewrite Hr.
    + cbn. by rewrite Hr.
  - rewrite Hs, Hr, Hc. repeat split; try done.
    + intros a h. by rewrite Hs.
    + by rewrite Hr.
    + by rewrite Hr.
    + by rewrite app_nil_r.
Qed.

Lemma sendCmd_consistent cmd args w st :
  bindings_consistent st → bindings_consistent (sendCmd cmd args w st).
Proof.
  apply bindings_consistent_frame;
    [apply sendCmd_shortcuts|apply sendCmd_registered|left; apply sendCmd_store].
Qed.

Lemma send_consistent e st :
  bindings_consistent st → bindings_consistent (send e st).
Proof.
  apply bindings_consistent_frame;
    [apply send_shortcuts|apply send_registered|left; apply send_store].
Qed.

Lemma store_set_consistent k v st :
  k ≠ js "hotkey" →
  bindings_consistent st → bindings_consistent (store_set k v st).
Proof.
  intros Hk. unfold store_set. destruct (store st) as [m|] eqn:Hm; [|done].
  apply bindings_consistent_frame; [done|done|].
  right. by exists k, v, m.
Qed.

Lemma send_pref_consistent kind v st :
  bindings_consistent st → bindings_consistent (send_pref kind v st).
Proof.
  unfold send_pref. destruct v; [|done].
  destruct (truthy _); [apply send_consistent|done].
Qed.

Lemma restore_hotkey_consistent o st :
  bindings_consistent st → bindings_consistent (restore_hotkey o st).
Proof.
  intros Hinv. unfold restore_hotkey.
  destruct (truthy (store_get (js "hotkey") st)) eqn:Ht; [|done].
  destruct (truthy (store_get (js "language") st)); [|done]. cbn [andb].
  destruct (store_get (js "hotkey") st) as [[| | |a| |]|] eqn:Hk; try done.
  destruct o; cbn; [| |done].
  - destruct Hinv as (H1 & H2 & H3). repeat split; cbn.
    + intros a' h Ha'.
      destruct (decide (a = a')) as [->|Hne]; [done|].
      rewrite lookup_insert_ne in Ha' by done.
      apply H1 in Ha'. unfold store_get in Hk.
      destruct (store st) as [m|] eqn:Hm; [|done].
      rewrite (H3 _ _ Ha' eq_refl) in Hk. congruence.
    + intros b [= <-]. cbn in Ht. unfold str_eqb in Ht.
      apply negb_true_iff, bool_decide_eq_false in Ht. done.
    + intros b m [= <-] Hm. unfold store_get in Hk. by rewrite Hm in Hk.
  - revert Hinv. by apply bindings_consistent_frame; [..|left].
Qed.

Lemma step_consistent st a :
  env_ok a → bindings_consistent st → bindings_consistent (step st a).
Proof.
  intros Ha Hinv. destruct a; cbn [step]; unfold if_spawned.
  - revert Hinv. by apply bindings_consistent_frame; [..|left].
  - unfold did_finish_load. cbv zeta.
    apply restore_hotkey_consistent. do 3 apply send_pref_consistent.
    unfold startPython. destruct present; cbn.
    + revert Hinv. apply bindings_consistent_frame; cbn;
        [apply send_shortcuts|apply send_registered|left; apply send_store].
    + by apply send_consistent.
  - destruct (py st); [|done].
    revert Hinv. apply bindings_consistent_frame;
      [apply stdout_data_frame|apply stdout_data_frame|left; apply stdout_data_frame].
  - destruct (py st); [|done]. unfold on_stderr_data.
    destruct (rexec _ _ _); [|by apply send_consistent].
    apply send_consistent. revert Hinv.
    by apply bindings_consistent_frame; [..|left].
  - destruct (py st); [by apply send_consistent|done].
  - destruct (py st); [|done].
    generalize (send_consistent (ev_exit code signal) st Hinv).
    by apply bindings_consistent_frame; [..|left].
  - unfold cmd_load. apply sendCmd_consistent.
    destruct (opt_prop _ _); [|done].
    destruct (truthy _); [by apply store_set_consistent|done].
  - unfold cmd_start. apply sendCmd_consistent.
    destruct (opt_prop _ _); [|done].
    destruct (truthy _); [by apply store_set_consistent|done].
  - by apply sendCmd_consistent.
  - by apply sendCmd_consistent.
  - apply hotkey_set_effect; [done|]. intros ->. exact Ha.
  - cbn. destruct (drop_registered_clears st Hinv) as (Hs & Hr & _).
    unfold store_delete. destruct (store _); repeat split; cbn;
      rewrite ?Hs, ?Hr; done.
  - unfold keypress. destruct (_ !! _); [|done]. unfold run_handler.
    destruct (running st); [by apply sendCmd_consistent|].
    destruct h; by apply sendCmd_consistent.
Qed.

Lemma run_consistent st tr :
  Forall env_ok tr → bindings_consistent st → bindings_consistent (run st tr).
Proof.
  intros H. revert st. induction H as [|a tr Ha _ IH]; intros st Hinv; [done|].
  cbn. apply IH. by apply step_consistent.
Qed.

Lemma initial_consistent st0 : bindings_consistent (initial st0).
Proof. repeat split; done. Qed.

Lemma consistent_at_most_one st a1 h1 a2 h2 :
  bindings_consistent st →
  shortcuts st !! a1 = Some h1 → shortcuts st !! a2 = Some h2 → a1 = a2.
Proof.
  intros (H1 & _) Ha1 Ha2. apply H1 in Ha1, Ha2. congruence.
Qed.

(** C5: in every state the main process reaches, as long as the OS never
    accepts an empty accelerator, it holds at most one accelerator for the
    application.  [hotkey:set] from such a state first unregisters the
    recorded accelerator and only then registers the new one; when the
    registration returns false or throws, the handler answers false and
    nothing is recorded or held; when it succeeds, the new accelerator
    alone is recorded and held. *)
Theorem single_active_registration st0 tr accel lang o :
  Forall env_ok tr →
  env_ok (HotkeySet accel lang o) →
  let st := run (initial st0) tr in
  let r := hotkey_set accel lang o st in
  (∀ a1 h1 a2 h2,
     shortcuts st !! a1 = Some h1 → shortcuts st !! a2 = Some h2 → a1 = a2)
  ∧ (∀ a1 h1 a2 h2,
       shortcuts (snd r) !! a1 = Some h1 → shortcuts (snd r) !! a2 = Some h2 →
       a1 = a2)
  ∧ os_calls (snd r) = os_calls st ++ rebind_calls (registeredShortcut st) accel o
  ∧ (o ≠ RegOk →
       fst r = false ∧ registeredShortcut (snd r) = None ∧ shortcuts (snd r) = ∅)
  ∧ (o = RegOk →
       fst r = true ∧ registeredShortcut (snd r) = Some accel
       ∧ shortcuts (snd r) = {[ accel := HSet lang ]}).
Proof.
  intros Htr Ho st r.
  assert (Hinv : bindings_consistent st)
    by (apply run_consistent; [done|apply initial_consistent]).
  assert (Hne : o = RegOk → accel ≠ []) by (intros ->; exact Ho).
  destruct (hotkey_set_effect accel lang o st Hinv Hne) as (Hinv' & Hc & Hf & Hk).
  split; [intros ????; by apply consistent_at_most_one|].
  split; [intros ????; by apply consistent_at_most_one|].
  done.
Qed.

(** A second binding that fails after a first that succeeded. *)
Lemma single_active_registration_witness :
  let tr := [Ready; DidFinishLoad (js "/opt/app") true RegFail;
             HotkeySet (js "F9") (Some (JStr (js "en"))) RegOk] in
  let st := run (initial None) tr in
  let r := hotkey_set (js "F10") (Some (JStr (js "en"))) RegFail st in
  shortcuts st = {[ js "F9" := HSet (Some (JStr (js "en"))) ]}
  ∧ os_calls (snd r) = os_calls st ++ [OsUnregister (js "F9"); OsRegister (js "F10")]
  ∧ fst r = false ∧ registeredShortcut (snd r) = None ∧ shortcuts (snd r) = ∅.
Proof.
  intros tr st r.
  destruct (single_active_registration None tr (js "F10")
              (Some (JStr (js "en"))) RegFail) as (_ & _ & Hc & Hf & _).
  { repeat constructor. vm_compute. discriminate. }
  { exact I. }
  split; [vm_compute; reflexivity|].
  split; [exact Hc|]. apply Hf. discriminate.
Defined.
(** ** The progress scraper *)

Lemma take_sub1 {A} (l : list A) a n : take (S n - n) (a :: l) = [a].
Proof. replace (S n - n)%nat with 1%nat by lia. done. Qed.

Lemma take_sub2 {A} (l : list A) a b n :
  take (S (S n) - n) (a :: b :: l) = [a; b].
Proof. replace (S (S n) - n)%nat with 2%nat by lia. done. Qed.

Lemma take_sub3 {A} (l : list A) a b c n :
  take (S (S (S n)) - n) (a :: b :: c :: l) = [a; b; c].
Proof. replace (S (S (S n)) - n)%nat with 3%nat by lia. done. Qed.

(** The matcher on [([0-9]{1,2}|100)%] agrees with [percent_prefix]: its
    alternatives exclude each other, so the continuation runs once. *)
Lemma percent_digits_spec k p s cs :
  rmatch percent_digits k (MState p s cs)
  = match percent_prefix s with
    | Some (ds, t) => k (MState (Some PERCENT) t ((2%nat, ds) :: cs))
    | None => None
    end.
Proof.
  unfold percent_prefix, is_digit.
  destruct s as [|d1 [|d2 [|d3 [|d4 t]]]]; cbn -[N.leb N.eqb]; unfold eat;
    cbn -[N.leb N.eqb];
    rewrite ?(N.eqb_sym 37), ?(N.eqb_sym 48), ?(N.eqb_sym 49);
    rewrite ?take_sub1, ?take_sub2, ?take_sub3;
    repeat (case_match; simplify_eq/=; try done);
    repeat match goal with
           | H : (_ =? _) = true |- _ => apply N.eqb_eq in H; subst
           end; try done.
Qed.

Lemma percent_re_spec p s :
  match rmatch percent_re Some (MState p s []) with
  | Some y => get_cap 2 (caps y) = percent_here p s ∧ is_Some (percent_here p s)
  | None => percent_here p s = None
  end.
Proof.
  unfold percent_re, percent_here. cbn [rmatch].
  destruct (at_word_boundary (MState p s [])) eqn:Hb.
  - unfold set_cap. cbn [rest prev caps]. rewrite percent_digits_spec.
    destruct (percent_prefix s) as [[ds t]|] eqn:Hp;
      [cbn; split; [done|by eexists]|].
    destruct s as [|c s']; [done|]. unfold eat. cbn [rest].
    rewrite (N.eqb_sym 40). destruct (c =? 40); [|done].
    cbn [prev rest caps]. rewrite percent_digits_spec.
    destruct (percent_prefix s') as [[ds t]|]; cbn; [|done].
    split; [done|by eexists].
  - destruct s as [|c s']; [done|]. unfold eat. cbn [rest].
    rewrite (N.eqb_sym 40). destruct (c =? 40); [|done].
    unfold set_cap. cbn [prev rest caps]. rewrite percent_digits_spec.
    destruct (percent_prefix s') as [[ds t]|]; cbn; [|done].
    split; [done|by eexists].
Qed.

Lemma last_or_cons p c s : last_or p (c :: s) = last_or (Some c) s.
Proof.
  unfold last_or. destruct s as [|d s]; [done|].
  change (last (c :: d :: s)) with (last (d :: s)).
  destruct (last (d :: s)) eqn:E; [done|]. by apply last_None in E.
Qed.

(** [exec] stops at the first position, from the left, that
    [percent_here] accepts. *)
Lemma rexec_percent_spec s p :
  match rexec percent_re p s with
  | Some y =>
      ∃ s1 s2 ds, s = s1 ++ s2 ∧ get_cap 2 (caps y) = Some ds
        ∧ percent_here (last_or p s1) s2 = Some ds
        ∧ ∀ s1' s2', s = s1' ++ s2' → (length s1' < length s1)%nat →
                     percent_here (last_or p s1') s2' = None
  | None => ∀ s1 s2, s = s1 ++ s2 → percent_here (last_or p s1) s2 = None
  end.
Proof.
  revert p. induction s as [|c s IH]; intros p; cbn [rexec];
    pose proof (percent_re_spec p) as Hhere.
  - specialize (Hhere []).
    destruct (rmatch percent_re Some (MState p [] [])) as [y|].
    + destruct Hhere as [Hc [ds Hds]]. exists [], [], ds.
      repeat split; [congruence|done|]. intros ?? _ Hl. cbn in Hl. lia.
    + intros s1 s2 Hs. symmetry in Hs. apply app_eq_nil in Hs as [-> ->]. done.
  - specialize (Hhere (c :: s)).
    destruct (rmatch percent_re Some (MState p (c :: s) [])) as [y|].
    + destruct Hhere as [Hc [ds Hds]]. exists [], (c :: s), ds.
      repeat split; [congruence|done|]. intros ?? _ Hl. cbn in Hl. lia.
    + specialize (IH (Some c)). destruct (rexec percent_re (Some c) s) as [y|].
      * destruct IH as (s1 & s2 & ds & -> & Hc & Hds & Hleft).
        exists (c :: s1), s2, ds. rewrite last_or_cons.
        repeat split; try done. intros s1' s2' Hs Hl.
        destruct s1' as [|c' s1']; [cbn in Hs; by subst|].
        injection Hs as <- Hs. rewrite last_or_cons.
        apply Hleft; [done|]. cbn in Hl. lia.
      * intros s1 s2 Hs. destruct s1 as [|c' s1]; [cbn in Hs; by subst|].
        injection Hs as <- Hs. rewrite last_or_cons. by apply IH.
Qed.

Lemma percent_prefix_iff s ds t :
  percent_prefix s = Some (ds, t) ↔ short_percent ds ∧ s = ds ++ PERCENT :: t.
Proof.
  unfold percent_prefix, short_percent. split.
  - intros H. repeat (case_match; simplify_eq/=; try done);
      repeat match goal with
             | H : _ && _ = true |- _ => apply andb_true_iff in H as [? ?]
             | H : (_ =? _) = true |- _ => apply N.eqb_eq in H; subst
             end;
      (split; [|done]);
      first [by right|left; split; [by repeat constructor|cbn; by auto]].
  - intros [[[Hd Hl]| ->] ->].
    + destruct ds as [|d1 [|d2 [|d3 ds]]]; cbn in Hl; try lia.
      * apply Forall_cons in Hd as [Hd _]. cbn. rewrite Hd. by destruct t.
      * apply Forall_cons in Hd as [Hd1 Hd]. apply Forall_cons in Hd as [Hd2 _].
        cbn. by rewrite Hd1, Hd2.
    + done.
Qed.

Lemma short_percent_head ds :
  short_percent ds → ∃ d r, ds = d :: r ∧ is_digit d = true.
Proof.
  intros [[Hd Hl]| ->]; [|by eexists _, _].
  destruct ds as [|d r]; [cbn in Hl; lia|].
  apply Forall_cons in Hd as [Hd _]. by exists d, r.
Qed.

Lemma digit_is_word_char d : is_digit d = true → is_word_char d = true.
Proof. unfold is_word_char. intros ->. by rewrite orb_true_r. Qed.

Lemma percent_here_iff p s ds :
  percent_here p s = Some ds ↔
  short_percent ds
  ∧ ((at_word_boundary (MState p s []) = true ∧ ∃ t, s = ds ++ PERCENT :: t)
     ∨ ∃ t, s = LPAREN :: ds ++ PERCENT :: t).
Proof.
  unfold percent_here. split.
  - intros H. destruct (at_word_boundary _) eqn:Hb.
    + destruct (percent_prefix s) as [[ds' t]|] eqn:Hp.
      * injection H as ->. apply percent_prefix_iff in Hp as [Hs ->].
        split; [done|]. left. eauto.
      * destruct s as [|c s']; [done|]. destruct (c =? 40) eqn:Hc; [|done].
        apply N.eqb_eq in Hc as ->.
        destruct (percent_prefix s') as [[ds' t]|] eqn:Hp'; [|done].
        injection H as ->. apply percent_prefix_iff in Hp' as [Hs ->].
        split; [done|]. right. eauto.
    + destruct s as [|c s']; [done|]. destruct (c =? 40) eqn:Hc; [|done].
      apply N.eqb_eq in Hc as ->.
      destruct (percent_prefix s') as [[ds' t]|] eqn:Hp'; [|done].
      injection H as ->. apply percent_prefix_iff in Hp' as [Hs ->].
      split; [done|]. right. eauto.
  - intros [Hs [[Hb [t ->]]|[t ->]]].
    + rewrite Hb. by rewrite (proj2 (percent_prefix_iff _ ds t)).
    + assert (Hnone : percent_prefix (40 :: ds ++ 37 :: t) = None).
      { unfold percent_prefix. by destruct (ds ++ 37 :: t). }
      rewrite Hnone. cbn [N.eqb Pos.eqb].
      rewrite (proj2 (percent_prefix_iff _ ds t)) by done.
      by destruct (at_word_boundary _).
Qed.

Lemma last_or_None s : last_or None s = last s.
Proof. unfold last_or. by destruct (last s). Qed.

(** An occurrence is a position that [percent_here] accepts. *)
Lemma occurrence_here text pre ds post :
  percent_occurrence short_percent text pre ds post →
  percent_here (last pre) (ds ++ PERCENT :: post) = Some ds.
Proof.
  intros (_ & Hs & Hb). apply percent_here_iff. split; [done|]. left.
  split; [|by eexists]. destruct Hb as [Hb|Hb]; [done|].
  destruct (short_percent_head _ Hs) as (d & r & -> & Hd).
  rewrite Hb. unfold at_word_boundary, word_before, word_after. cbn.
  by rewrite (digit_is_word_char _ Hd).
Qed.

Lemma occurrence_same_place text pre ds post pre' ds' post' :
  percent_occurrence short_percent text pre ds post →
  percent_occurrence short_percent text pre' ds' post' →
  length pre = length pre' → pre = pre' ∧ ds = ds'.
Proof.
  intros (-> & Hs & _) (Ht & Hs' & _) Hl.
  apply app_inj_1 in Ht as [-> Ht]; [|done]. split; [done|].
  assert (H1 := proj2 (percent_prefix_iff _ ds post) (conj Hs eq_refl)).
  assert (H2 := proj2 (percent_prefix_iff _ ds' post') (conj Hs' eq_refl)).
  rewrite Ht in H1. congruence.
Qed.

(** [exec] finds the leftmost occurrence, if there is one. *)
Lemma rexec_percent_leftmost text :
  match rexec percent_re None text with
  | Some y =>
      ∃ pre ds post, get_cap 2 (caps y) = Some ds
        ∧ percent_occurrence short_percent text pre ds post
        ∧ ∀ pre' ds' post', percent_occurrence short_percent text pre' ds' post' →
                            (length pre ≤ length pre')%nat
  | None => ∀ pre ds post, ¬ percent_occurrence short_percent text pre ds post
  end.
Proof.
  pose proof (rexec_percent_spec text None) as H.
  destruct (rexec percent_re None text) as [y|].
  - destruct H as (s1 & s2 & ds & -> & Hc & Hh & Hleft).
    rewrite last_or_None in Hh.
    assert (Hge : ∀ pre' ds' post',
               percent_occurrence short_percent (s1 ++ s2) pre' ds' post' →
               (length s1 ≤ length pre')%nat).
    { intros pre' ds' post' Hocc. apply Nat.nlt_ge. intros Hlt.
      pose proof (occurrence_here _ _ _ _ Hocc) as Hh'.
      destruct Hocc as (Ht & _).
      pose proof (Hleft _ _ Ht Hlt) as Hn. rewrite last_or_None in Hn.
      congruence. }
    apply percent_here_iff in Hh as [Hs [[Hb [t ->]]|[t ->]]].
    + exists s1, ds, t. repeat split; try done. by left.
    + exists (s1 ++ [40]), ds, t. split; [done|]. split.
      * split; [by rewrite <-app_assoc|]. split; [done|].
        right. apply last_snoc.
      * intros pre' ds' post' Hocc. rewrite length_app. cbn.
        pose proof (Hge _ _ _ Hocc) as Hle.
        destruct (decide (length s1 = length pre')) as [Heq|]; [|lia].
        exfalso. destruct Hocc as (Ht & Hs' & _).
        apply app_inj_1 in Ht as [_ Ht]; [|done].
        destruct (short_percent_head _ Hs') as (d & r & -> & Hd).
        injection Ht as <- _. done.
  - intros pre ds post Hocc. pose proof (occurrence_here _ _ _ _ Hocc) as Hh.
    destruct Hocc as (Ht & _). specialize (H _ _ Ht).
    rewrite last_or_None in H. congruence.
Qed.

(** ** The value of a digit run *)

Lemma dval_app acc a b : dval acc (a ++ b) = dval (dval acc a) b.
Proof. revert acc. induction a as [|d a IH]; intros acc; [done|]. apply IH. Qed.

Lemma strip_zeros_value l k r :
  strip_zeros l = (k, r) → dval 0 (rev l) = dval 0 (rev r) * 10 ^ N.of_nat k.
Proof.
  revert k r. induction l as [|c l IH]; intros k r H; cbn in H.
  - injection H as <- <-. done.
  - destruct (c =? 48) eqn:Hc.
    + apply N.eqb_eq in Hc as ->.
      destruct (strip_zeros l) as [k' r'] eqn:Hl. injection H as <- <-.
      cbn [rev]. rewrite dval_app. cbn [dval]. rewrite (IH k' r' eq_refl).
      rewrite Nat2N.inj_succ, N.pow_succ_r'. lia.
    + injection H as <- <-. cbn [N.of_nat]. lia.
Qed.

Lemma mk_number_value ds :
  number_value (mk_number false ds 0) = Z.of_N (dval 0 ds).
Proof.
  unfold mk_number, number_value.
  destruct (strip_zeros (rev ds)) as [k r] eqn:Hs.
  apply strip_zeros_value in Hs. rewrite rev_involutive in Hs. rewrite Hs.
  case_decide as Hm; cbn [mant exp10].
  - apply (f_equal Z.to_N) in Hm. rewrite N2Z.id in Hm. rewrite Hm. done.
  - rewrite N2Z.inj_mul, N2Z.inj_pow, nat_N_Z. done.
Qed.

Lemma is_digit_range d : is_digit d = true → 48 ≤ d ≤ 57.
Proof.
  unfold is_digit. intros [H1 H2]%andb_true_iff.
  apply N.leb_le in H1, H2. done.
Qed.

Lemma short_percent_bound ds : short_percent ds → dval 0 ds ≤ 100.
Proof.
  intros [[Hd Hl]| ->]; [|done].
  destruct ds as [|d1 [|d2 [|d3 ds]]]; cbn in Hl; try lia.
  - apply Forall_cons in Hd as [Hd _]. apply is_digit_range in Hd. cbn. lia.
  - apply Forall_cons in Hd as [Hd1 Hd]. apply Forall_cons in Hd as [Hd2 _].
    apply is_digit_range in Hd1, Hd2. cbn. lia.
Qed.

Lemma send_lastProgress e st : lastProgress (send e st) = lastProgress st.
Proof. unfold send. by destruct (win st). Qed.

(** C2, as stated, fails: in [050%] three digits of value 50 stand at a
    word boundary before a percent sign, and the scraper forwards the chunk
    as a [stderr] event and leaves the last progress alone. *)
Lemma scraper_misses_three_digit_percent :
  let text := js "050%" in
  let st := run (initial None) [Ready; DidFinishLoad (js "/opt/app") true RegFail] in
  let st' := step st (StderrData text) in
  percent_occurrence spec_percent text [] (js "050") []
  ∧ dval 0 (js "050") = 50
  ∧ sent st' = sent st ++ [ev_stderr text]
  ∧ lastProgress st' = None.
Proof.
  split; [|vm_compute; done].
  split; [reflexivity|]. split; [|left; reflexivity].
  split; [by repeat constructor|].
  split; [vm_compute; lia|vm_compute; discriminate].
Qed.

(** C2 (amended): when a chunk of the error stream holds one or two digits,
    or 100, followed by a percent sign, at a word boundary or after an
    opening parenthesis, the scraper sends a [progress] event whose percent
    is the value of the leftmost such digits and whose message is the
    trimmed chunk, and records that percent as the last progress; when the
    chunk holds no such digits, it sends a [stderr] event with the whole
    chunk and records nothing. *)
Theorem scraper_reports_leftmost_percent text st :
  win st = true →
  let st' := on_stderr_data text st in
  let occurs := percent_occurrence short_percent text in
  (∀ pre ds post, occurs pre ds post →
     ∃ pre0 ds0 post0,
       occurs pre0 ds0 post0
       ∧ (∀ pre' ds' post', occurs pre' ds' post' →
            (length pre0 ≤ length pre')%nat ∧ (length pre' = length pre0 → ds' = ds0))
       ∧ sent st' = sent st ++ [ev_progress (js_Number ds0) (trim text)]
       ∧ lastProgress st' = Some (js_Number ds0)
       ∧ number_value (js_Number ds0) = Z.of_N (dval 0 ds0)
       ∧ (0 ≤ number_value (js_Number ds0) ≤ 100)%Z)
  ∧ ((∀ pre ds post, ¬ occurs pre ds post) →
       sent st' = sent st ++ [ev_stderr text]
       ∧ lastProgress st' = lastProgress st).
Proof.
  intros Hwin st' occurs. unfold st', on_stderr_data.
  pose proof (rexec_percent_leftmost text) as H.
  destruct (rexec percent_re None text) as [y|]; split.
  - intros _ _ _ _. destruct H as (pre0 & ds0 & post0 & Hc & Hocc & Hleft).
    exists pre0, ds0, post0. rewrite Hc. cbn [default].
    split; [done|]. split.
    { intros pre' ds' post' Hocc'. split; [by eapply Hleft|].
      intros Hl. by destruct (occurrence_same_place _ _ _ _ _ _ _ Hocc' Hocc Hl). }
    rewrite send_sent, send_lastProgress by done. cbn.
    split; [done|]. split; [done|].
    unfold js_Number. rewrite mk_number_value.
    destruct Hocc as (_ & Hs & _). apply short_percent_bound in Hs.
    split; [done|lia].
  - intros Hnone. destruct H as (pre0 & ds0 & post0 & _ & Hocc & _).
    by destruct (Hnone _ _ _ Hocc).
  - intros pre ds post Hocc. by destruct (H _ _ _ Hocc).
  - intros _. by rewrite send_sent, send_lastProgress.
Qed.

(** The chunk [Downloading model… (45%)] gives a progress of 45. *)
Lemma scraper_reports_leftmost_percent_witness :
  let text := js "Downloading model" ++ [8230] ++ js " (45%)" in
  let st := run (initial None) [Ready; DidFinishLoad (js "/opt/app") true RegFail] in
  ∃ pre0 ds0 post0,
    percent_occurrence short_percent text pre0 ds0 post0
    ∧ (∀ pre' ds' post', percent_occurrence short_percent text pre' ds' post' →
         (length pre0 ≤ length pre')%nat ∧ (length pre' = length pre0 → ds' = ds0))
    ∧ sent (on_stderr_data text st)
      = sent st ++ [ev_progress (js_Number ds0) (trim text)]
    ∧ lastProgress (on_stderr_data text st) = Some (js_Number ds0)
    ∧ number_value (js_Number ds0) = Z.of_N (dval 0 ds0)
    ∧ (0 ≤ number_value (js_Number ds0) ≤ 100)%Z.
Proof.
  intros text st.
  refine (proj1 (scraper_reports_leftmost_percent text st _)
            (js "Downloading model" ++ [8230] ++ js " (") (js "45") (js ")") _).
  - reflexivity.
  - split; [reflexivity|]. split; [|right; reflexivity].
    left. split; [by repeat constructor|by right].
Defined.
(** ** Decimal digits of a number *)

Lemma pos_lt_pow2_size p : (N.pos p < 2 ^ N.of_nat (Pos.size_nat p)).
Proof.
  induction p as [p IH|p IH|]; cbn [Pos.size_nat];
    rewrite ?Nat2N.inj_succ, ?N.pow_succ_r'; lia.
Qed.

Lemma N_lt_pow2_size n : n < 2 ^ N.of_nat (N.size_nat n).
Proof. destruct n as [|p]; [done|apply pos_lt_pow2_size]. Qed.

Lemma to_digits_aux_fuel f1 f2 n acc :
  n < 2 ^ N.of_nat f1 → n < 2 ^ N.of_nat f2 →
  to_digits_aux (S f1) n acc = to_digits_aux (S f2) n acc.
Proof.
  revert f2 n acc. induction f1 as [|f1 IH]; intros f2 n acc H1 H2.
  - cbn in H1. assert (n = 0) as -> by lia. done.
  - cbn [to_digits_aux]. destruct (n <? 10) eqn:Hn; [done|].
    apply N.ltb_ge in Hn. destruct f2 as [|f2].
    + cbn in H2. lia.
    + rewrite Nat2N.inj_succ, N.pow_succ_r' in H1, H2.
      assert (n / 10 < 2 ^ N.of_nat f1).
      { apply N.Div0.div_lt_upper_bound. lia. }
      assert (n / 10 < 2 ^ N.of_nat f2).
      { apply N.Div0.div_lt_upper_bound. lia. }
      change (to_digits_aux (S f1) (n / 10) ((48 + n mod 10) :: acc)
              = to_digits_aux (S f2) (n / 10) ((48 + n mod 10) :: acc)).
      by apply IH.
Qed.

Lemma to_digits_aux_acc f n acc :
  to_digits_aux f n acc = to_digits_aux f n [] ++ acc.
Proof.
  revert n acc. induction f as [|f IH]; intros n acc; [done|].
  cbn [to_digits_aux]. destruct (n <? 10); [done|].
  rewrite (IH _ (_ :: acc)), (IH _ [_]). by rewrite <-app_assoc.
Qed.

Lemma to_digits_small n : n < 10 → to_digits n = [48 + n].
Proof.
  intros Hn. unfold to_digits. cbn [to_digits_aux].
  apply N.ltb_lt in Hn. by rewrite Hn.
Qed.

Lemma to_digits_big n :
  10 ≤ n → to_digits n = to_digits (n / 10) ++ [48 + n mod 10].
Proof.
  intros Hn. unfold to_digits at 1. cbn [to_digits_aux].
  apply N.ltb_ge in Hn as Hn'. rewrite Hn'.
  rewrite to_digits_aux_acc. f_equal. unfold to_digits.
  pose proof (N_lt_pow2_size n) as Hs.
  destruct (N.size_nat n) as [|f] eqn:Hf; [cbn in Hs; lia|].
  apply to_digits_aux_fuel; [|apply N_lt_pow2_size].
  rewrite Nat2N.inj_succ, N.pow_succ_r' in Hs.
  apply N.Div0.div_lt_upper_bound. lia.
Qed.

(** Induction over the digits of a number. *)
Lemma digits_ind (P : N → Prop) :
  (∀ n, n < 10 → P n) → (∀ n, 10 ≤ n → P (n / 10) → P n) → ∀ n, P n.
Proof.
  intros Hs Hb n. induction n as [n IH] using (well_founded_induction N.lt_wf_0).
  destruct (decide (n < 10)) as [Hn|Hn]; [by apply Hs|].
  apply Hb; [lia|]. apply IH. apply N.div_lt; lia.
Qed.

Lemma dval_to_digits n : dval 0 (to_digits n) = n.
Proof.
  induction n as [n Hn|n Hn IH] using digits_ind.
  - rewrite to_digits_small by done. cbn. lia.
  - rewrite to_digits_big, dval_app, IH by done. cbn [dval].
    rewrite (N.add_comm 48), N.add_sub.
    pose proof (N.Div0.div_mod n 10). lia.
Qed.

Lemma to_digits_digits n : Forall (λ c, is_digit c = true) (to_digits n).
Proof.
  induction n as [n Hn|n Hn IH] using digits_ind.
  - rewrite to_digits_small by done. repeat constructor.
    unfold is_digit. apply andb_true_iff. split; apply N.leb_le; lia.
  - rewrite to_digits_big by done. apply Forall_app. split; [done|].
    repeat constructor. assert (n mod 10 < 10) by (by apply N.mod_lt).
    generalize dependent (n mod 10). intros x Hx.
    unfold is_digit. apply andb_true_iff. split; apply N.leb_le; lia.
Qed.

Lemma to_digits_head n :
  ∃ c r, to_digits n = c :: r ∧ is_digit c = true ∧ (n ≠ 0 → c ≠ 48).
Proof.
  induction n as [n Hn|n Hn IH] using digits_ind.
  - rewrite to_digits_small by done. exists (48 + n), [].
    split; [done|]. split; [|lia].
    unfold is_digit. apply andb_true_iff. split; apply N.leb_le; lia.
  - destruct IH as (c & r & Hc & Hd & Hz). rewrite to_digits_big, Hc by done.
    exists c, (r ++ [48 + n mod 10]). split; [done|]. split; [done|].
    intros _. apply Hz. intros H0. apply N.div_small_iff in H0; lia.
Qed.

Lemma to_digits_last n : last (to_digits n) = Some (48 + n mod 10).
Proof.
  destruct (decide (n < 10)) as [Hn|Hn].
  - rewrite to_digits_small by done. cbn. by rewrite N.mod_small.
  - rewrite to_digits_big by lia. apply last_snoc.
Qed.

(** ** Reading back a printed number *)

Lemma rev_reverse {A} (l : list A) : rev l = reverse l.
Proof. unfold reverse. apply rev_alt. Qed.

Lemma num_end_digits_end rest : num_end rest → digits_end rest.
Proof. destruct rest; [done|]. by intros [? _]. Qed.

Lemma read_digits_app ds rest :
  Forall (λ c, is_digit c = true) ds → digits_end rest →
  read_digits (ds ++ rest) = (ds, rest).
Proof.
  intros Hd Hr. induction Hd as [|c ds Hc _ IH]; cbn.
  - destruct rest as [|c r]; [done|]. cbn in *. by rewrite Hr.
  - by rewrite Hc, IH.
Qed.

Lemma read_digits_stop c rest :
  is_digit c = false → read_digits (c :: rest) = ([], c :: rest).
Proof. intros H. cbn. by rewrite H. Qed.

Lemma dval_zeros acc j : dval acc (replicate j 48) = acc * 10 ^ N.of_nat j.
Proof.
  revert acc. induction j as [|j IH]; intros acc; cbn [replicate dval].
  - cbn. lia.
  - rewrite IH, Nat2N.inj_succ, N.pow_succ_r'. lia.
Qed.

Lemma strip_zeros_replicate j c l :
  c ≠ 48 → strip_zeros (replicate j 48 ++ c :: l) = (j, c :: l).
Proof.
  intros Hc. induction j as [|j IH]; cbn.
  - apply N.eqb_neq in Hc. by rewrite Hc.
  - by rewrite IH.
Qed.

(** A digit run made of leading zeros, the digits of [a] and trailing
    zeros denotes [a] with the trailing zeros in the exponent. *)
Lemma mk_number_digits neg i a j e :
  a mod 10 ≠ 0 →
  mk_number neg (replicate i 48 ++ to_digits a ++ replicate j 48) e
  = Num (if neg then - Z.of_N a else Z.of_N a) (e + Z.of_nat j).
Proof.
  intros Ha. unfold mk_number.
  pose proof (to_digits_last a) as Hl. apply last_Some in Hl as [s' Hs'].
  rewrite !rev_reverse, !reverse_app, !reverse_replicate, Hs', reverse_snoc.
  rewrite <-!app_assoc. cbn [app].
  rewrite strip_zeros_replicate by (generalize dependent (a mod 10); intros; lia).
  rewrite rev_reverse.
  change (?x :: reverse s' ++ ?z) with (reverse [x] ++ reverse s' ++ z).
  assert (reverse (reverse [48 + a mod 10] ++ reverse s' ++ replicate i 48)
          = replicate i 48 ++ to_digits a) as ->.
  { by rewrite !reverse_app, !reverse_involutive, reverse_replicate, Hs',
      <-app_assoc. }
  rewrite dval_app, dval_zeros, N.mul_0_l, dval_to_digits.
  case_decide as Hz; [|done].
  exfalso. apply Ha. assert (a = 0) as -> by lia. done.
Qed.

Lemma read_int_digits c r rest :
  Forall (λ c, is_digit c = true) (c :: r) → c ≠ 48 → digits_end rest →
  read_int ((c :: r) ++ rest) = Some (c :: r, rest).
Proof.
  intros Hd Hc Hr. apply Forall_cons in Hd as [Hd Hds]. cbn.
  apply N.eqb_neq in Hc. rewrite Hc, Hd. by rewrite read_digits_app.
Qed.

Lemma read_frac_none rest :
  match rest with c :: _ => c ≠ DOT | [] => True end →
  read_frac rest = Some ([], rest).
Proof.
  destruct rest as [|c r]; [done|]. intros Hc. cbn.
  apply N.eqb_neq in Hc. by rewrite Hc.
Qed.

Lemma read_frac_digits ds rest :
  ds ≠ [] → Forall (λ c, is_digit c = true) ds → digits_end rest →
  read_frac (DOT :: ds ++ rest) = Some (ds, rest).
Proof.
  intros Hne Hd Hr. cbn. rewrite read_digits_app by done.
  by destruct ds.
Qed.

Lemma read_exp_none rest :
  match rest with c :: _ => c ≠ 101 ∧ c ≠ 69 | [] => True end →
  read_exp rest = Some (0%Z, rest).
Proof.
  destruct rest as [|c r]; [done|]. intros [H1 H2]. cbn.
  apply N.eqb_neq in H1, H2. by rewrite H1, H2.
Qed.

(** The exponent part as [number_to_string] writes it. *)
Lemma read_exp_printed (e : Z) rest :
  num_end rest →
  read_exp (js "e" ++ (if (e <? 0)%Z then js "-" else js "+")
            ++ to_digits (Z.abs_N e) ++ rest) = Some (e, rest).
Proof.
  intros Hr. pose proof (to_digits_digits (Z.abs_N e)) as Hd.
  destruct (to_digits_head (Z.abs_N e)) as (c & r & Hc & _).
  change (js "e") with [101]. change (js "-") with [45].
  change (js "+") with [43].
  apply num_end_digits_end in Hr.
  destruct (e <? 0)%Z eqn:He; cbn -[to_digits read_digits];
    rewrite read_digits_app by done; rewrite Hc, <-Hc, dval_to_digits;
    do 2 f_equal; lia.
Qed.

Lemma canonical_abs m :
  (m mod 10 ≠ 0)%Z → Z.abs_N m mod 10 ≠ 0.
Proof.
  intros Hm Ha. apply Hm. apply Z.mod_divide; [done|].
  apply Z.divide_abs_r. rewrite <-N2Z.inj_abs_N.
  apply (f_equal Z.of_N) in Ha. rewrite N2Z.inj_mod in Ha.
  apply Z.mod_divide in Ha; done.
Qed.

Ltac norm_js :=
  change (js ".") with [46] in *; change (js "e") with [101] in *;
  change (js "0.") with [48; 46] in *; change (js "0") with [48] in *;
  change (js "-") with [45] in *; change (js "+") with [43] in *.

(** What stands after the optional sign of a printed number reads back as
    its parts, and the parts denote the number. *)
Lemma read_printed_body neg a e rest :
  a mod 10 ≠ 0 → num_end rest →
  let s := to_digits a in
  let body := digits_to_string s e in
  ∃ ip fp ex s2 s3,
    read_int (body ++ rest) = Some (ip, s2)
    ∧ read_frac s2 = Some (fp, s3)
    ∧ read_exp s3 = Some (ex, rest)
    ∧ mk_number neg (ip ++ fp) (ex - Z.of_nat (length fp))
      = Num (if neg then - Z.of_N a else Z.of_N a) e
    ∧ ∃ c r, body = c :: r ∧ is_digit c = true.
Proof.
  intros Ha Hrest s body.
  set (k := Z.of_nat (length s)). set (n := (k + e)%Z).
  pose proof (to_digits_digits a) as Hd. fold s in Hd.
  destruct (to_digits_head a) as (c & r & Hc & Hcd & Hcz). fold s in Hc.
  assert (Hc0 : c ≠ 48) by (apply Hcz; intros ->; done).
  assert (Hdot : ∀ l, digits_end (js "." ++ l)) by done.
  assert (He : ∀ l, digits_end (js "e" ++ l)) by done.
  assert (Hrd := num_end_digits_end _ Hrest).
  assert (Hr1 : match rest with c :: _ => c ≠ DOT | [] => True end)
    by (destruct rest; [done|]; by destruct Hrest as (_ & ? & _)).
  assert (Hr2 : match rest with c :: _ => c ≠ 101 ∧ c ≠ 69 | [] => True end)
    by (destruct rest; [done|]; by destruct Hrest as (_ & _ & ? & ?)).
  assert (Hint : ∀ ds rest', Forall (λ c, is_digit c = true) ds →
            (∃ r', ds = c :: r') → digits_end rest' →
            read_int (ds ++ rest') = Some (ds, rest')).
  { intros ds rest' Hds [r' ->] Hr'. by apply read_int_digits. }
  assert (Hmk : ∀ i j e', (e' + Z.of_nat j = e)%Z →
            mk_number neg (replicate i 48 ++ s ++ replicate j 48) e'
            = Num (if neg then - Z.of_N a else Z.of_N a) e).
  { intros i j e' <-. by apply mk_number_digits. }
  assert (Hmk0 : ∀ i e', e' = e →
            mk_number neg (replicate i 48 ++ s) e'
            = Num (if neg then - Z.of_N a else Z.of_N a) e).
  { intros i e' ->. rewrite <-(Hmk i 0%nat e) by (cbn; lia).
    cbn [replicate]. by rewrite app_nil_r. }
  assert (Hk : (0 < k)%Z) by (unfold k; rewrite Hc; cbn; lia).
  assert (Hkd : k = Z.of_nat (length s)) by done.
  assert (Hnd : n = (k + e)%Z) by done.
  unfold body, digits_to_string. fold k. fold n. cbv zeta.
  clear body. clearbody n k s. repeat case_decide.
  - (* the digits, then zeros *)
    exists (s ++ replicate (Z.to_nat (n - k)) 48), [], 0%Z, rest, rest.
    split; [|split; [by apply read_frac_none|split; [by apply read_exp_none|split]]].
    + apply Hint; [|rewrite Hc; by eexists|done].
      apply Forall_app. split; [done|]. by apply Forall_replicate.
    + rewrite app_nil_r. apply (Hmk 0%nat). cbn. lia.
    + rewrite Hc. by eexists _, _.
  - (* a decimal point inside the digits *)
    assert (Hn : (Z.to_nat n < length s)%nat) by lia.
    exists (take (Z.to_nat n) s), (drop (Z.to_nat n) s), 0%Z,
      (js "." ++ drop (Z.to_nat n) s ++ rest), rest.
    norm_js. split; [|split; [|split; [by apply read_exp_none|split]]].
    + rewrite <-app_assoc. apply Hint; [by apply Forall_take| |done].
      rewrite Hc. destruct (Z.to_nat n) eqn:E; [lia|]. by eexists.
    + cbn [app]. apply read_frac_digits; [|by apply Forall_drop|done].
      intros Hnil. apply (f_equal length) in Hnil.
      rewrite length_drop in Hnil. cbn in Hnil. lia.
    + rewrite take_drop. apply (Hmk0 0%nat). rewrite length_drop. lia.
    + rewrite Hc. destruct (Z.to_nat n) eqn:E; [lia|]. by eexists _, _.
  - (* zero, a decimal point, zeros, the digits *)
    exists [48], (replicate (Z.to_nat (- n)) 48 ++ s), 0%Z,
      (js "." ++ (replicate (Z.to_nat (- n)) 48 ++ s) ++ rest), rest.
    norm_js. split; [|split; [|split; [by apply read_exp_none|split]]].
    + by rewrite <-!app_assoc.
    + cbn [app]. apply read_frac_digits; [|apply Forall_app; split;
                                  [by apply Forall_replicate|done]|done].
      rewrite Hc. by destruct (replicate _ _).
    + apply (Hmk0 (S (Z.to_nat (- n)))).
      rewrite length_app, length_replicate. lia.
    + by eexists _, _.
  - (* exponent notation *)
    destruct r as [|d2 r]; rewrite Hc.
    + exists [c], [], (n - 1)%Z,
        (js "e" ++ (if (n - 1 <? 0)%Z then js "-" else js "+")
           ++ to_digits (Z.abs_N (n - 1)) ++ rest),
        (js "e" ++ (if (n - 1 <? 0)%Z then js "-" else js "+")
           ++ to_digits (Z.abs_N (n - 1)) ++ rest).
      split; [|split; [by apply read_frac_none|split; [|split]]].
      * rewrite <-!app_assoc.
        apply (Hint [c]); [by repeat constructor|by eexists|done].
      * by apply read_exp_printed.
      * rewrite app_nil_r, <-Hc. apply (Hmk0 0%nat).
        rewrite Hc in Hkd. cbn [length] in *. lia.
      * by eexists _, _.
    + exists [c], (d2 :: r), (n - 1)%Z,
        (js "." ++ (d2 :: r) ++ js "e"
           ++ (if (n - 1 <? 0)%Z then js "-" else js "+")
           ++ to_digits (Z.abs_N (n - 1)) ++ rest),
        (js "e" ++ (if (n - 1 <? 0)%Z then js "-" else js "+")
           ++ to_digits (Z.abs_N (n - 1)) ++ rest).
      split; [|split; [|split; [|split]]].
      * rewrite <-!app_assoc.
        apply (Hint [c]); [by repeat constructor|by eexists|done].
      * apply (read_frac_digits (d2 :: r)); [done| |done].
        rewrite Hc in Hd. by apply Forall_cons in Hd as [_ ?].
      * by apply read_exp_printed.
      * change ([c] ++ d2 :: r) with (c :: d2 :: r).
        rewrite <-Hc. apply (Hmk0 0%nat).
        rewrite Hc in Hkd. cbn [length] in *. lia.
      * by eexists _, _.
Qed.

Lemma read_number_printed x rest :
  canonical x → num_end rest →
  read_number (number_to_string x ++ rest) = Some (x, rest).
Proof.
  destruct x as [m e]. unfold canonical, number_to_string. cbn [mant exp10].
  intros Hx Hrest.
  assert (Hr1 : match rest with c :: _ => c ≠ DOT | [] => True end)
    by (destruct rest; [done|]; by destruct Hrest as (_ & ? & _)).
  assert (Hr2 : match rest with c :: _ => c ≠ 101 ∧ c ≠ 69 | [] => True end)
    by (destruct rest; [done|]; by destruct Hrest as (_ & _ & ? & ?)).
  case_decide as Hm.
  - subst. norm_js. unfold read_number. cbn [app N.eqb Pos.eqb read_int].
    rewrite read_frac_none, read_exp_none by done. done.
  - apply canonical_abs in Hx.
    destruct (read_printed_body (m <? 0)%Z (Z.abs_N m) e rest Hx Hrest)
      as (ip & fp & ex & s2 & s3 & Hi & Hf & He & Hn & c & r & Hb & Hc).
    cbv zeta in Hi, Hb. unfold read_number.
    destruct (m <? 0)%Z eqn:Hs.
    + norm_js. cbn [app N.eqb Pos.eqb]. rewrite Hi, Hf, He, Hn.
      do 3 f_equal. lia.
    + rewrite app_nil_l in *. rewrite Hb in *. cbn [app].
      assert ((c =? 45) = false) as ->.
      { apply N.eqb_neq. intros ->. done. }
      cbn [app] in Hi. rewrite Hi, Hf, He, Hn. do 3 f_equal. lia.
Qed.

Lemma number_to_string_head x :
  canonical x →
  ∃ c r, number_to_string x = c :: r ∧ (c = MINUS ∨ is_digit c = true).
Proof.
  unfold canonical, number_to_string. case_decide as Hm; intros Hx.
  - exists 48, []. by split; [|right].
  - destruct (mant x <? 0)%Z; [eexists _, _; split; [done|by left]|].
    apply canonical_abs in Hx.
    destruct (read_printed_body false (Z.abs_N (mant x)) (exp10 x) [] Hx I)
      as (_ & _ & _ & _ & _ & _ & _ & _ & _ & c & r & Hb & Hc).
    exists c, r. split; [done|by right].
Qed.

(** ** Reading back a quoted string *)

Lemma hex_val_digit d : d < 16 → hex_val (hex_digit d) = Some d.
Proof.
  intros Hd. assert (Hin : d ∈ N.of_nat <$> seq 0 16).
  { apply list_elem_of_fmap. exists (N.to_nat d).
    split; [lia|]. apply elem_of_seq. lia. }
  revert Hin. generalize d. clear d Hd. apply Forall_forall.
  by vm_compute; repeat constructor.
Qed.

Lemma hex4_escape c :
  c < 65536 →
  hex4 (hex_digit (c / 4096 mod 16)) (hex_digit (c / 256 mod 16))
       (hex_digit (c / 16 mod 16)) (hex_digit (c mod 16)) = Some c.
Proof.
  intros Hc. unfold hex4.
  rewrite !hex_val_digit by (by apply N.mod_lt). f_equal.
  change 4096 with (16 * (16 * 16)). change 256 with (16 * 16).
  rewrite <-!N.Div0.div_div.
  pose proof (N.Div0.div_mod c 16) as H1.
  pose proof (N.Div0.div_mod (c / 16) 16) as H2.
  pose proof (N.Div0.div_mod (c / 16 / 16) 16) as H3.
  assert (H4 : c / 16 / 16 / 16 < 16).
  { rewrite !N.Div0.div_div. apply N.Div0.div_lt_upper_bound. lia. }
  rewrite (N.mod_small (c / 16 / 16 / 16)) by done.
  generalize dependent (c mod 16). generalize dependent (c / 16 mod 16).
  generalize dependent (c / 16 / 16 mod 16).
  generalize dependent (c / 16 / 16 / 16).
  generalize dependent (c / 16 / 16). generalize dependent (c / 16).
  intros. lia.
Qed.

Lemma surrogate_range c :
  (c <? 32) || is_high_surrogate c || is_low_surrogate c = true → c < 65536.
Proof.
  unfold is_high_surrogate, is_low_surrogate. intros H.
  repeat match goal with
         | H : _ || _ = true |- _ => apply orb_true_iff in H as [H|H]
         | H : _ && _ = true |- _ => apply andb_true_iff in H as [? ?]
         | H : (_ <=? _) = true |- _ => apply N.leb_le in H
         | H : (_ <? _) = true |- _ => apply N.ltb_lt in H
         end; lia.
Qed.

Lemma read_string_unit c rest :
  read_string (quote_unit c ++ rest) = cons_fst c (read_string rest).
Proof.
  unfold quote_unit.
  repeat (case_match; [
    repeat match goal with
           | H : (_ =? _) = true |- _ => apply N.eqb_eq in H; subst
           end; try done|]).
  - unfold unicode_escape. cbn [app read_string N.eqb Pos.eqb].
    by rewrite hex4_escape by by apply surrogate_range.
  - cbn [app read_string]. apply orb_false_iff in H6 as [[H6 _]%orb_false_iff _].
    by rewrite H4, H5, H6.
Qed.

Lemma surrogate_plain c :
  is_high_surrogate c || is_low_surrogate c = true →
  (c =? QUOTE) = false ∧ (c =? BACKSLASH) = false ∧ (c <? 32) = false.
Proof.
  unfold is_high_surrogate, is_low_surrogate.
  intros H. repeat split; [apply N.eqb_neq|apply N.eqb_neq|apply N.ltb_ge];
    repeat match goal with
           | H : _ || _ = true |- _ => apply orb_true_iff in H as [H|H]
           | H : _ && _ = true |- _ => apply andb_true_iff in H as [? ?]
           | H : (_ <=? _) = true |- _ => apply N.leb_le in H
           end; lia.
Qed.

Lemma quote_units_cons c d s :
  quote_units (c :: d :: s)
  = if is_high_surrogate c && is_low_surrogate d
    then c :: d :: quote_units s
    else quote_unit c ++ quote_units (d :: s).
Proof. done. Qed.

Lemma read_string_quoted s rest :
  read_string (quote_units s ++ QUOTE :: rest) = Some (s, rest).
Proof.
  enough (H : read_string (quote_units s ++ QUOTE :: rest) = Some (s, rest)
              ∧ ∀ c, read_string (quote_units (c :: s) ++ QUOTE :: rest)
                     = Some (c :: s, rest)) by apply H.
  induction s as [|d s [IH1 IH2]].
  - split; [done|]. intros c. cbn [quote_units].
    by rewrite read_string_unit.
  - split; [apply IH2|]. intros c. rewrite quote_units_cons.
    destruct (is_high_surrogate c && is_low_surrogate d) eqn:Hp.
    + apply andb_true_iff in Hp as [Hh Hl].
      destruct (surrogate_plain c) as (Hc1 & Hc2 & Hc3); [by rewrite Hh|].
      destruct (surrogate_plain d) as (Hd1 & Hd2 & Hd3);
        [by rewrite Hl, orb_true_r|].
      cbn [app read_string]. by rewrite Hc1, Hc2, Hc3, Hd1, Hd2, Hd3, IH1.
    + by rewrite <-app_assoc, read_string_unit, IH2.
Qed.

(** ** Reading back a printed value *)

Lemma value_ind' (P : value → Prop) :
  P JNull → (∀ b, P (JBool b)) → (∀ n, P (JNum n)) → (∀ s, P (JStr s)) →
  (∀ items, Forall P items → P (JArr items)) →
  (∀ props, Forall (λ kv, P (snd kv)) props → P (JObj props)) →
  ∀ v, P v.
Proof.
  intros Hnull Hbool Hnum Hstr Harr Hobj. fix IH 1.
  intros [| b | n | s | items | props].
  - exact Hnull.
  - apply Hbool.
  - apply Hnum.
  - apply Hstr.
  - apply Harr. induction items as [|x items IHl]; constructor;
      [apply IH|exact IHl].
  - apply Hobj. induction props as [|[k x] props IHl]; constructor;
      [apply IH|exact IHl].
Qed.

Lemma join_comma_cons p q r :
  join_comma (p :: q :: r) = p ++ [COMMA] ++ join_comma (q :: r).
Proof. done. Qed.

Lemma obj_set_fresh k v acc :
  k ∉ map fst acc → obj_set k v acc = acc ++ [(k, v)].
Proof.
  induction acc as [|[k' v'] acc IH]; intros Hk; [done|]. cbn.
  apply not_elem_of_cons in Hk as [Hne Hk]. unfold str_eqb.
  rewrite bool_decide_eq_false_2 by done. by rewrite IH.
Qed.

Lemma num_end_comma rest : num_end (COMMA :: rest).
Proof. done. Qed.
Lemma num_end_rbracket rest : num_end (RBRACKET :: rest).
Proof. done. Qed.
Lemma num_end_rbrace rest : num_end (RBRACE :: rest).
Proof. done. Qed.

Lemma read_elements_printed pv items rest n :
  items ≠ [] → (length items ≤ n)%nat →
  Forall (λ v, ∀ rest', num_end rest' →
               pv (stringify v ++ rest') = Some (v, rest')) items →
  read_elements pv n (join_comma (map stringify items) ++ RBRACKET :: rest)
  = Some (items, rest).
Proof.
  intros Hne Hn Hpv. revert n Hn.
  induction Hpv as [|v items Hv Hpv IH]; [done|]. intros n Hn.
  destruct n as [|n]; [cbn in Hn; lia|]. cbn in Hn.
  destruct items as [|v2 items].
  - cbn [map join_comma read_elements].
    rewrite Hv by apply num_end_rbracket. done.
  - cbn [map]. rewrite join_comma_cons, <-!app_assoc. cbn [read_elements].
    rewrite Hv by apply num_end_comma. cbn [app skip_ws is_ws N.eqb Pos.eqb orb].
    cbn [map] in IH. rewrite IH by (done || lia). done.
Qed.

Lemma read_members_printed pv props acc rest n :
  props ≠ [] → (length props ≤ n)%nat →
  NoDup (map fst (acc ++ props)) →
  Forall (λ kv, ∀ rest', num_end rest' →
                pv (stringify (snd kv) ++ rest') = Some (snd kv, rest')) props →
  read_members pv n acc (join_comma (map member props) ++ RBRACE :: rest)
  = Some (acc ++ props, rest).
Proof.
  intros Hne Hn Hnd Hpv. revert n acc Hn Hnd.
  induction Hpv as [|[k v] props Hv Hpv IH]; [done|]. intros n acc Hn Hnd.
  destruct n as [|n]; [cbn in Hn; lia|]. cbn in Hn.
  assert (Hk : k ∉ map fst acc).
  { rewrite map_app in Hnd. apply NoDup_app in Hnd as (_ & Hd & _).
    intros Hin. apply (Hd _ Hin). by left. }
  assert (Hset : obj_set k v acc = acc ++ [(k, v)]) by by apply obj_set_fresh.
  cbn [snd] in Hv.
  destruct props as [|kv2 props].
  - cbn [map join_comma]. unfold member, quote_string. cbn [fst snd].
    rewrite <-!app_assoc. cbn [app read_members skip_ws is_ws N.eqb Pos.eqb orb].
    rewrite read_string_quoted. cbn [skip_ws is_ws N.eqb Pos.eqb orb].
    rewrite Hv by apply num_end_rbrace.
    cbn [skip_ws is_ws N.eqb Pos.eqb orb]. by rewrite Hset.
  - cbn [map]. rewrite join_comma_cons. unfold member at 1, quote_string.
    cbn [fst snd].
    rewrite <-!app_assoc. cbn [app read_members skip_ws is_ws N.eqb Pos.eqb orb].
    rewrite read_string_quoted. cbn [skip_ws is_ws N.eqb Pos.eqb orb].
    rewrite Hv by apply num_end_comma.
    cbn [skip_ws is_ws N.eqb Pos.eqb orb]. rewrite Hset.
    cbn [map] in IH. rewrite IH; [|done|lia|by rewrite <-app_assoc].
    by rewrite <-app_assoc.
Qed.

Lemma wf_value_items items :
  foldr (λ x P, wf_value x ∧ P) True items ↔ Forall wf_value items.
Proof.
  induction items as [|x items IH]; cbn; [by split|].
  rewrite Forall_cons. by rewrite IH.
Qed.

Lemma wf_value_props (props : list (jsstring * value)) :
  foldr (λ kv P, wf_value (snd kv) ∧ P) True props
  ↔ Forall (λ kv, wf_value (snd kv)) props.
Proof.
  induction props as [|x props IH]; cbn; [by split|].
  rewrite Forall_cons. by rewrite IH.
Qed.

Lemma num_start c :
  c = MINUS ∨ is_digit c = true →
  is_ws c = false ∧ (c =? LBRACE) = false ∧ (c =? LBRACKET) = false
  ∧ (c =? QUOTE) = false ∧ (c =? MINUS) || is_digit c = true
  ∧ c ≠ RBRACKET ∧ c ≠ RBRACE.
Proof.
  intros [->|Hd]; [done|]. rewrite Hd, orb_true_r.
  apply is_digit_range in Hd. unfold is_ws.
  repeat split; try (apply N.eqb_neq; lia); try lia.
  repeat (apply orb_false_iff; split); apply N.eqb_neq; lia.
Qed.

(** A printed value starts with a character that is neither white space
    nor a closing bracket. *)
Lemma stringify_head v :
  wf_value v →
  ∃ c r, stringify v = c :: r ∧ is_ws c = false ∧ c ≠ RBRACKET ∧ c ≠ RBRACE.
Proof.
  destruct v as [| [] | n | s | items | props]; intros Hwf;
    try (by eexists _, _).
  destruct (number_to_string_head n Hwf) as (c & r & Hc & Hs).
  apply num_start in Hs as (? & _ & _ & _ & _ & ? & ?). by exists c, r.
Qed.

Lemma skip_ws_head c r : is_ws c = false → skip_ws (c :: r) = c :: r.
Proof. intros H. cbn. by rewrite H. Qed.

Lemma vsize_pos v : (1 ≤ vsize v)%nat.
Proof. destruct v; cbn; lia. Qed.

Lemma vsize_items_bound (items : list value) f :
  (foldr (λ x n, vsize x + n) 0 items ≤ f)%nat →
  (length items ≤ f)%nat ∧ Forall (λ v, (vsize v ≤ f)%nat) items.
Proof.
  revert f. induction items as [|x items IH]; intros f Hf; cbn in *.
  - split; [lia|done].
  - pose proof (vsize_pos x).
    destruct (IH (f - vsize x)%nat) as [Hl Hall]; [lia|].
    split; [lia|]. constructor; [lia|].
    eapply Forall_impl; [exact Hall|]. cbn. lia.
Qed.

Lemma vsize_props_bound (props : list (jsstring * value)) f :
  (foldr (λ kv n, vsize (snd kv) + n) 0 props ≤ f)%nat →
  (length props ≤ f)%nat ∧ Forall (λ kv, (vsize (snd kv) ≤ f)%nat) props.
Proof.
  revert f. induction props as [|x props IH]; intros f Hf; cbn in *.
  - split; [lia|done].
  - pose proof (vsize_pos (snd x)).
    destruct (IH (f - vsize (snd x))%nat) as [Hl Hall]; [lia|].
    split; [lia|]. constructor; [lia|].
    eapply Forall_impl; [exact Hall|]. cbn. lia.
Qed.

(** With fuel for every value inside, [parse_value] reads a printed value
    back and stops right after it. *)
Lemma parse_value_printed v :
  wf_value v → ∀ fuel rest, (vsize v ≤ fuel)%nat → num_end rest →
  parse_value fuel (stringify v ++ rest) = Some (v, rest).
Proof.
  induction v as [| b | n | s | items IH | props IH] using value_ind';
    intros Hwf fuel rest Hfuel Hrest;
    (destruct fuel as [|f]; [cbn in Hfuel; lia|]).
  - done.
  - by destruct b.
  - destruct (number_to_string_head n Hwf) as (c & r & Hc & Hs).
    apply num_start in Hs as (H1 & H2 & H3 & H4 & H5 & _).
    cbn [stringify parse_value]. rewrite Hc. cbn [app].
    rewrite skip_ws_head, H2, H3, H4, H5 by done.
    change (c :: r ++ rest) with ((c :: r) ++ rest).
    by rewrite <-Hc, read_number_printed.
  - cbn [stringify parse_value]. unfold quote_string. rewrite <-!app_assoc.
    cbn [app skip_ws is_ws N.eqb Pos.eqb orb].
    by rewrite read_string_quoted.
  - cbn [stringify parse_value]. rewrite <-!app_assoc.
    cbn [app skip_ws is_ws N.eqb Pos.eqb orb].
    destruct items as [|v items]; [done|].
    cbn [wf_value] in Hwf. apply wf_value_items in Hwf.
    cbn [vsize] in Hfuel. apply le_S_n, vsize_items_bound in Hfuel as [Hl Hsz].
    assert (Hrd : read_elements (parse_value f) f
                    (join_comma (map stringify (v :: items)) ++ RBRACKET :: rest)
                  = Some (v :: items, rest)).
    { apply read_elements_printed; [done|done|].
      apply Forall_forall. intros x Hx rest' Hrest'.
      rewrite Forall_forall in IH, Hwf, Hsz. by apply IH; auto. }
    destruct (stringify_head v) as (c & r & Hc & Hws & Hb & _).
    { by apply Forall_cons in Hwf as [? _]. }
    assert (Hj : ∃ r', join_comma (map stringify (v :: items)) = c :: r').
    { destruct items; cbn [map join_comma]; rewrite ?join_comma_cons, Hc;
        by eexists. }
    destruct Hj as [r' Hj]. rewrite Hj in *. cbn [app] in *.
    rewrite skip_ws_head by done. apply N.eqb_neq in Hb. rewrite Hb.
    by rewrite Hrd.
  - cbn [stringify].
    change (map (λ kv0, quote_string (fst kv0) ++ [COLON] ++ stringify (snd kv0)))
      with (map member).
    cbn [parse_value]. rewrite <-!app_assoc.
    cbn [app skip_ws is_ws N.eqb Pos.eqb orb].
    destruct props as [|kv props]; [done|].
    cbn [wf_value] in Hwf. destruct Hwf as [Hnd Hwf].
    apply wf_value_props in Hwf.
    cbn [vsize] in Hfuel. apply le_S_n, vsize_props_bound in Hfuel as [Hl Hsz].
    assert (Hrd : read_members (parse_value f) f []
                    (join_comma (map member (kv :: props)) ++ RBRACE :: rest)
                  = Some ([] ++ kv :: props, rest)).
    { apply read_members_printed; [done|done|done|].
      apply Forall_forall. intros x Hx rest' Hrest'.
      rewrite Forall_forall in IH, Hwf, Hsz. by apply IH; auto. }
    assert (Hj : ∃ r', join_comma (map member (kv :: props)) = QUOTE :: r').
    { destruct props; cbn [map join_comma]; rewrite ?join_comma_cons;
        by eexists. }
    destruct Hj as [r' Hj]. rewrite Hj in *. cbn [app] in *.
    cbn [skip_ws is_ws N.eqb Pos.eqb orb]. by rewrite Hrd.
Qed.

Lemma length_join_comma (f : value → nat) (g : value → jsstring) items :
  Forall (λ v, (f v ≤ length (g v))%nat) items →
  (foldr (λ x n, f x + n) 0 items ≤ length (join_comma (map g items)))%nat.
Proof.
  induction 1 as [|x items Hx _ IH]; [done|]. cbn beta in Hx.
  destruct items as [|y items].
  - cbn. lia.
  - cbn [map]. rewrite join_comma_cons, !length_app. cbn [foldr map] in *. lia.
Qed.

Lemma length_join_members (props : list (jsstring * value)) :
  Forall (λ kv, (vsize (snd kv) ≤ length (stringify (snd kv)))%nat) props →
  (foldr (λ kv n, vsize (snd kv) + n) 0 props
   ≤ length (join_comma (map member props)))%nat.
Proof.
  induction 1 as [|x props Hx _ IH]; [done|].
  assert (vsize (snd x) ≤ length (member x))%nat.
  { unfold member. rewrite !length_app. cbn beta in Hx. lia. }
  destruct props as [|y props].
  - cbn [map join_comma foldr]. lia.
  - cbn [map]. rewrite join_comma_cons, !length_app. cbn [foldr map] in *. lia.
Qed.

Lemma vsize_le_length v :
  wf_value v → (vsize v ≤ length (stringify v))%nat.
Proof.
  induction v as [| b | n | s | items IH | props IH] using value_ind';
    intros Hwf.
  - vm_compute. lia.
  - destruct b; vm_compute; lia.
  - destruct (number_to_string_head n Hwf) as (c & r & Hc & _).
    cbn [stringify vsize]. rewrite Hc. cbn. lia.
  - cbn [stringify vsize]. unfold quote_string. rewrite !length_app. cbn. lia.
  - cbn [stringify vsize]. rewrite !length_app. cbn [length].
    cbn [wf_value] in Hwf. apply wf_value_items in Hwf.
    pose proof (length_join_comma vsize stringify items) as H.
    cbn in H. enough (Hle : (foldr (λ x n, vsize x + n) 0 items
                       ≤ length (join_comma (map stringify items)))%nat) by lia.
    apply H. apply Forall_forall. intros x Hx.
    rewrite Forall_forall in IH, Hwf. by apply IH; auto.
  - cbn [stringify vsize].
    change (map (λ kv0, quote_string (fst kv0) ++ [COLON] ++ stringify (snd kv0)))
      with (map member).
    rewrite !length_app. cbn [length].
    cbn [wf_value] in Hwf. destruct Hwf as [_ Hwf].
    apply wf_value_props in Hwf.
    enough (Hle : (foldr (λ kv n, vsize (snd kv) + n) 0 props
                   ≤ length (join_comma (map member props)))%nat) by lia.
    apply length_join_members. apply Forall_forall. intros x Hx.
    rewrite Forall_forall in IH, Hwf. by apply IH; auto.
Qed.

(** [JSON.parse (JSON.stringify v)] is [v], with or without white space
    after the text. *)
Lemma JSON_parse_stringify v ws :
  wf_value v → Forall (λ c, is_ws c = true) ws →
  JSON_parse (stringify v ++ ws) = Some v.
Proof.
  intros Hwf Hws. unfold JSON_parse.
  rewrite parse_value_printed; [|done| |].
  - induction Hws as [|c ws Hc _ IH]; [done|]. cbn. by rewrite Hc.
  - pose proof (vsize_le_length v Hwf). rewrite length_app. lia.
  - destruct Hws as [|c ws Hc _]; [done|]. unfold is_ws in Hc.
    repeat split;
      [unfold is_digit; apply andb_false_iff|..];
      repeat match goal with
             | H : _ || _ = true |- _ => apply orb_true_iff in H as [H|H]
             | H : (_ =? _) = true |- _ => apply N.eqb_eq in H; subst
             end; try done; by left.
Qed.

(** ** Lines on the wire *)

Lemma plain_app a b : plain a → plain b → plain (a ++ b).
Proof. intros. by apply Forall_app. Qed.

Lemma plain_digits s : Forall (λ c, is_digit c = true) s → plain s.
Proof.
  intros H. eapply Forall_impl; [exact H|].
  intros c Hc%is_digit_range. lia.
Qed.

Lemma plain_hex d : 32 ≤ hex_digit d.
Proof. unfold hex_digit. destruct (d <? 10); lia. Qed.

Lemma plain_quote_unit c : plain (quote_unit c).
Proof.
  unfold quote_unit, plain.
  repeat (case_match; [by repeat constructor|]).
  case_match.
  - unfold unicode_escape. repeat constructor; try done; apply plain_hex.
  - repeat constructor. apply orb_false_iff in H6 as [[H6 _]%orb_false_iff _].
    by apply N.ltb_ge in H6.
Qed.

Lemma plain_quote_units s : plain (quote_units s).
Proof.
  enough (H : plain (quote_units s) ∧ ∀ c, plain (quote_units (c :: s)))
    by apply H.
  induction s as [|d s [IH1 IH2]].
  - split; [constructor|]. intros c. apply plain_quote_unit.
  - split; [apply IH2|]. intros c. rewrite quote_units_cons.
    destruct (is_high_surrogate c && is_low_surrogate d) eqn:Hp.
    + apply andb_true_iff in Hp as [Hh Hl].
      destruct (surrogate_plain c) as (_ & _ & Hc); [by rewrite Hh|].
      destruct (surrogate_plain d) as (_ & _ & Hd); [by rewrite Hl, orb_true_r|].
      apply N.ltb_ge in Hc, Hd. by repeat constructor.
    + apply plain_app; [apply plain_quote_unit|apply IH2].
Qed.

Lemma plain_digits_to_string s e :
  Forall (λ c, is_digit c = true) s → plain (digits_to_string s e).
Proof.
  intros Hs. apply plain_digits in Hs as Hp. unfold digits_to_string.
  assert (He : plain ((if (Z.of_nat (length s) + e - 1 <? 0)%Z
                       then js "-" else js "+")
                      ++ to_digits (Z.abs_N (Z.of_nat (length s) + e - 1)))).
  { apply plain_app; [by destruct (_ <? _)%Z; repeat constructor|].
    apply plain_digits, to_digits_digits. }
  cbv zeta. repeat case_decide.
  - apply plain_app; [done|]. by apply Forall_replicate.
  - apply plain_app; [by apply Forall_take|].
    apply plain_app; [by repeat constructor|by apply Forall_drop].
  - apply plain_app; [by repeat constructor|].
    apply plain_app; [by apply Forall_replicate|done].
  - destruct s as [|d [|d2 s]]; [constructor| |].
    + apply plain_app; [done|]. apply plain_app; [by repeat constructor|done].
    + apply Forall_cons in Hp as [Hd Hp].
      apply plain_app; [by repeat constructor|].
      apply plain_app; [by repeat constructor|].
      apply plain_app; [done|]. apply plain_app; [by repeat constructor|done].
Qed.

Lemma plain_join_comma parts :
  Forall plain parts → plain (join_comma parts).
Proof.
  induction 1 as [|p parts Hp _ IH]; [constructor|].
  destruct parts as [|q parts]; [done|]. rewrite join_comma_cons.
  apply plain_app; [done|]. apply plain_app; [by repeat constructor|done].
Qed.

(** [JSON.stringify] prints no control character, so no line break. *)
Lemma plain_stringify v : plain (stringify v).
Proof.
  induction v as [| b | n | s | items IH | props IH] using value_ind'.
  - by repeat constructor.
  - destruct b; by repeat constructor.
  - cbn [stringify]. unfold number_to_string. case_decide; [by repeat constructor|].
    apply plain_app; [destruct (_ <? _)%Z; by repeat constructor|].
    apply plain_digits_to_string, to_digits_digits.
  - cbn [stringify]. unfold quote_string.
    apply plain_app; [by repeat constructor|].
    apply plain_app; [apply plain_quote_units|by repeat constructor].
  - cbn [stringify]. apply plain_app; [by repeat constructor|].
    apply plain_app; [|by repeat constructor].
    apply plain_join_comma. by apply Forall_fmap.
  - cbn [stringify]. apply plain_app; [by repeat constructor|].
    apply plain_app; [|by repeat constructor].
    apply plain_join_comma. apply Forall_fmap.
    eapply Forall_impl; [exact IH|]. intros [k x] Hx. cbn [fst snd] in *.
    unfold quote_string.
    apply plain_app; [apply plain_app; [by repeat constructor|]|].
    + apply plain_app; [apply plain_quote_units|by repeat constructor].
    + apply plain_app; [by repeat constructor|done].
Qed.

Lemma newline_re_other p c t :
  c ≠ LF → c ≠ CR → rmatch newline_re Some (MState p (c :: t) []) = None.
Proof.
  intros H1 H2. cbn -[N.eqb]. unfold eat. cbn -[N.eqb].
  apply N.eqb_neq in H1, H2. rewrite (N.eqb_sym 13), (N.eqb_sym 10).
  by rewrite H1, H2.
Qed.

Lemma rsplit_from_line p piece line :
  plain line →
  rsplit_from newline_re p 0 piece (line ++ [LF]) = [piece ++ line; []].
Proof.
  intros Hl. revert p piece. induction Hl as [|c line Hc _ IH]; intros p piece.
  - cbn. by rewrite app_nil_r.
  - cbn [app rsplit_from]. rewrite newline_re_other by lia.
    by rewrite IH, <-app_assoc.
Qed.

(** A plain line followed by a line feed is that one line. *)
Lemma stdout_lines_line line :
  plain line → line ≠ [] → stdout_lines (line ++ [LF]) = [line].
Proof.
  intros Hl Hne. unfold stdout_lines, rsplit.
  destruct line as [|c line]; [done|]. cbn [app].
  change (c :: line ++ [LF]) with ((c :: line) ++ [LF]).
  rewrite rsplit_from_line by done. cbn [app].
  rewrite filter_cons_True by done. by rewrite filter_cons_False by (by intros ?).
Qed.

(** ** The command codec *)

(** C9: for every command name and every argument value that JSON can
    represent, the record [sendCmd] writes is one line, and decoding that
    line as the output reader does gives back an object whose [cmd] and
    [args] fields are the name and the arguments. *)
Theorem command_round_trip cmd args :
  wf_value args →
  let record := JObj [(js "cmd", JStr cmd); (js "args", args)] in
  (∀ st p, py st = Some p →
     stdin_writes (sendCmd cmd (Some args) WriteReturns st)
     = stdin_writes st ++ [encode_command cmd args])
  ∧ ∃ line evt,
      stdout_lines (encode_command cmd args) = [line]
      ∧ JSON_parse line = Some evt
      ∧ JSON_parse (encode_command cmd args) = Some evt
      ∧ evt = record
      ∧ get_prop evt (js "cmd") = Ok (Some (JStr cmd))
      ∧ get_prop evt (js "args") = Ok (Some args).
Proof.
  intros Hargs record.
  assert (Hwf : wf_value record).
  { cbn. repeat split; [|done].
    apply NoDup_cons. split; [|apply NoDup_singleton].
    intros H%list_elem_of_singleton. done. }
  split.
  { intros st p Hpy. unfold sendCmd. by rewrite Hpy. }
  exists (stringify record), record. repeat split.
  - apply stdout_lines_line; [apply plain_stringify|done].
  - rewrite <-(app_nil_r (stringify record)).
    by apply JSON_parse_stringify.
  - apply JSON_parse_stringify; [done|by repeat constructor].
Qed.

Lemma command_round_trip_witness :
  let args := JObj [(js "language", JStr (js "en")); (js "beam", JNum (num_of_Z 5))] in
  ∃ line evt,
    stdout_lines (encode_command (js "start") args) = [line]
    ∧ JSON_parse line = Some evt
    ∧ JSON_parse (encode_command (js "start") args) = Some evt
    ∧ evt = JObj [(js "cmd", JStr (js "start")); (js "args", args)]
    ∧ get_prop evt (js "cmd") = Ok (Some (JStr (js "start")))
    ∧ get_prop evt (js "args") = Ok (Some args).
Proof.
  intros args.
  refine (proj2 (command_round_trip (js "start") args _)).
  cbn. repeat split; try done.
  apply (bool_decide_unpack _). vm_compute. exact I.
Defined.

(** ** The output reader *)

(** One line of output sends one event; a line that does not parse sends
    the [log] event of the line and leaves the flag alone. *)
Lemma stdout_line_event line st :
  ∃ e b, stdout_line line st = send e (set_running b st)
         ∧ (JSON_parse line = None → e = ev_log line ∧ b = running st).
Proof.
  unfold stdout_line, stdout_try.
  destruct (JSON_parse line) as [evt|]; cbn;
    [|exists (ev_log line), (running st); by rewrite set_running_same].
  destruct (get_prop evt (js "event")) as [e|]; cbn;
    [|exists (ev_log line), (running st); by rewrite set_running_same].
  destruct (is_string e (js "stopped")), (is_string e (js "started"));
    eexists evt, _; (split; [|done]); try reflexivity.
  by rewrite set_running_same.
Qed.

Lemma stdout_lines_events lines st :
  win st = true →
  ∃ events,
    sent (foldl (λ s line, stdout_line line s) st lines) = sent st ++ events
    ∧ Forall2 (λ line e, JSON_parse line = None → e = ev_log line) lines events.
Proof.
  revert st. induction lines as [|l lines IH]; intros st Hwin.
  - exists []. by rewrite app_nil_r.
  - cbn [foldl]. destruct (stdout_line_event l st) as (e & b & -> & He).
    destruct (IH (send e (set_running b st))) as (events & Hs & Hall).
    { by rewrite send_win. }
    exists (e :: events). split.
    + rewrite Hs, send_sent by done. cbn. by rewrite <-app_assoc.
    + constructor; [|done]. intros Hn. by apply He.
Qed.

(** C3: the output reader sends one event for each non-empty line of a
    chunk, in order, and none for an empty line; the event of a line that
    is not valid JSON is the [log] event whose data is the line itself.
    The handler is a total function of the chunk: the [SyntaxError] of
    [JSON.parse] ends in the [catch] branch. *)
Theorem non_json_line_becomes_log data st :
  win st = true →
  stdout_lines data = filter (λ l, l ≠ []) (rsplit newline_re data)
  ∧ (∃ events,
       sent (on_stdout_data data st) = sent st ++ events
       ∧ Forall2 (λ line e, line ≠ [] ∧ (JSON_parse line = None → e = ev_log line))
           (stdout_lines data) events)
  ∧ (∀ line, JSON_parse line = None →
       stdout_line line st = send (ev_log line) st)
  ∧ (∀ line, plain line → line ≠ [] → JSON_parse line = None →
       sent (on_stdout_data (line ++ [LF]) st) = sent st ++ [ev_log line])
  ∧ on_stdout_data [LF; CR; LF; LF] st = st.
Proof.
  intros Hwin. split; [done|]. split; [|split; [|split]].
  - unfold on_stdout_data.
    destruct (stdout_lines_events (stdout_lines data) st Hwin) as (events & Hs & Hall).
    exists events. split; [done|].
    assert (Hne : Forall (λ l, l ≠ []) (stdout_lines data)).
    { unfold stdout_lines. apply Forall_forall. intros l Hl.
      by apply list_elem_of_filter in Hl as [? _]. }
    revert Hne. clear Hs. induction Hall as [|l e ls es Hle _ IH]; [constructor|].
    intros [Hl Hls]%Forall_cons. constructor; [done|by apply IH].
  - intros line Hn. unfold stdout_line, stdout_try. by rewrite Hn.
  - intros line Hp Hne Hn. unfold on_stdout_data.
    rewrite stdout_lines_line by done. cbn [foldl].
    unfold stdout_line, stdout_try. rewrite Hn. cbn. by apply send_sent.
  - done.
Qed.

Lemma non_json_line_becomes_log_witness :
  let st := run (initial None) [Ready; DidFinishLoad (js "/opt/app") true RegFail] in
  sent (on_stdout_data (js "Loaded model tiny" ++ [LF]) st)
  = sent st ++ [ev_log (js "Loaded model tiny")].
Proof.
  intros st.
  refine (proj1 (proj2 (proj2 (proj2 (non_json_line_becomes_log [] st _))))
            (js "Loaded model tiny") _ _ _).
  - reflexivity.
  - by vm_compute; repeat constructor.
  - vm_compute. discriminate.
  - vm_compute. reflexivity.
Defined.

(** ** The fuel of [parse_value]

    Every reader consumes input, so the fuel [S (length text)] that
    [JSON_parse] gives is never what makes it fail. *)

Lemma skip_ws_length s : (length (skip_ws s) ≤ length s)%nat.
Proof.
  induction s as [|c s IH]; [done|]. cbn. destruct (is_ws c); cbn; lia.
Qed.

Lemma cons_fst_Some {A B} (a : A) (r : option (list A * B)) l b :
  cons_fst a r = Some (l, b) → ∃ l', r = Some (l', b) ∧ l = a :: l'.
Proof.
  destruct r as [[l' b']|]; [|done]. cbn. intros [= <- <-]. by exists l'.
Qed.

Lemma read_string_length s x r :
  read_string s = Some (x, r) → (length r < length s)%nat.
Proof.
  remember (length s) as n eqn:Hn. revert s x r Hn.
  induction n as [n IH] using lt_wf_ind. intros s x r -> H.
  assert (Hrec : ∀ s0 x0 r0, (length s0 < length s)%nat →
                 read_string s0 = Some (x0, r0) → (length r0 < length s0)%nat).
  { intros s0 x0 r0 Hlt Hs0. by apply (IH _ Hlt s0 x0 r0). }
  clear IH. destruct s as [|c s]; [done|]. cbn in H.
  destruct (c =? 34); [injection H as <- <-; cbn; lia|].
  destruct (c =? 92).
  - destruct s as [|e s]; [done|]. destruct (e =? 117).
    + destruct s as [|h1 [|h2 [|h3 [|h4 s]]]]; try done.
      destruct (hex4 h1 h2 h3 h4); [|done].
      apply cons_fst_Some in H as (l' & H & _).
      apply Hrec in H; cbn in *; lia.
    + destruct (unescape e); [|done].
      apply cons_fst_Some in H as (l' & H & _).
      apply Hrec in H; cbn in *; lia.
  - destruct (c <? 32); [done|].
    apply cons_fst_Some in H as (l' & H & _).
    apply Hrec in H; cbn in *; lia.
Qed.

Lemma read_digits_length s ds r :
  read_digits s = (ds, r) → (length r ≤ length s)%nat.
Proof.
  revert ds r. induction s as [|c s IH]; intros ds r H; cbn in H.
  - injection H as <- <-. done.
  - destruct (is_digit c).
    + destruct (read_digits s) as [ds' r'] eqn:E. injection H as <- <-.
      specialize (IH _ _ eq_refl). cbn. lia.
    + injection H as <- <-. done.
Qed.

Lemma read_number_length s n r :
  read_number s = Some (n, r) → (length r < length s)%nat.
Proof.
  unfold read_number, read_int, read_frac, read_exp. intros H.
  repeat match type of H with
         | context [read_digits ?x] =>
             let E := fresh "E" in
             destruct (read_digits x) as [? ?] eqn:E;
             apply read_digits_length in E
         | context [match ?x with _ => _ end] =>
             match x with
             | context [match _ with _ => _ end] => fail 1
             | _ => destruct x eqn:?
             end
         | context [if ?x then _ else _] => destruct x eqn:?
         end; simplify_eq/=; try done; cbn in *; try lia.
Qed.

Lemma strip_prefix_length p s r :
  strip_prefix p s = Some r → (length r + length p = length s)%nat.
Proof.
  revert s. induction p as [|a p IH]; intros s H; cbn in H.
  - injection H as <-. cbn. lia.
  - destruct s as [|b s]; [done|]. destruct (a =? b); [|done].
    apply IH in H. cbn. lia.
Qed.

Lemma read_elements_length pv n s x r :
  consumes pv → read_elements pv n s = Some (x, r) → (length r < length s)%nat.
Proof.
  intros Hpv. revert s x. induction n as [|n IH]; intros s x H; [done|].
  cbn in H. destruct (pv s) as [[v r1]|] eqn:Hv; [|done].
  apply Hpv in Hv. pose proof (skip_ws_length r1) as Hw.
  destruct (skip_ws r1) as [|c r2]; [done|]. cbn in Hw.
  destruct (c =? 44).
  - apply cons_fst_Some in H as (l' & H & _). apply IH in H. lia.
  - destruct (c =? 93); [|done]. injection H as <- <-. lia.
Qed.

Lemma read_members_length pv n acc s x r :
  consumes pv →
  read_members pv n acc s = Some (x, r) → (length r < length s)%nat.
Proof.
  intros Hpv. revert acc s x. induction n as [|n IH]; intros acc s x H; [done|].
  cbn in H. pose proof (skip_ws_length s) as Hw0.
  destruct (skip_ws s) as [|q r0]; [done|]. cbn in Hw0.
  destruct (q =? 34); [|done].
  destruct (read_string r0) as [[k r1]|] eqn:Hk; [|done].
  apply read_string_length in Hk. pose proof (skip_ws_length r1) as Hw1.
  destruct (skip_ws r1) as [|c r2]; [done|]. cbn in Hw1.
  destruct (c =? 58); [|done].
  destruct (pv r2) as [[v r3]|] eqn:Hv; [|done].
  apply Hpv in Hv. pose proof (skip_ws_length r3) as Hw3.
  destruct (skip_ws r3) as [|d r4]; [done|]. cbn in Hw3.
  destruct (d =? 44).
  - apply IH in H. lia.
  - destruct (d =? 125); [|done]. injection H as <- <-. lia.
Qed.

Lemma parse_value_length f : consumes (parse_value f).
Proof.
  induction f as [|f IH]; intros s v r H; [done|]. cbn [parse_value] in H.
  pose proof (skip_ws_length s) as Hw.
  destruct (skip_ws s) as [|c r0]; [done|]. cbn in Hw.
  repeat match type of H with
         | context [if ?x then _ else _] => destruct x eqn:?
         end.
  - pose proof (skip_ws_length r0) as Hw0.
    destruct (skip_ws r0) as [|d r1]; [done|]. cbn in Hw0.
    destruct (d =? 125); [injection H as <- <-; lia|].
    destruct (read_members _ _ _ _) as [[props r2]|] eqn:Hm; [|done].
    apply read_members_length in Hm; [|done]. injection H as <- <-. lia.
  - pose proof (skip_ws_length r0) as Hw0.
    destruct (skip_ws r0) as [|d r1]; [done|]. cbn in Hw0.
    destruct (d =? 93); [injection H as <- <-; lia|].
    destruct (read_elements _ _ _) as [[items r2]|] eqn:Hm; [|done].
    apply read_elements_length in Hm; [|done]. injection H as <- <-. lia.
  - destruct (read_string r0) as [[str r1]|] eqn:Hs; [|done].
    apply read_string_length in Hs. injection H as <- <-. lia.
  - destruct (read_number (c :: r0)) as [[n r1]|] eqn:Hn; [|done].
    apply read_number_length in Hn. injection H as <- <-. cbn in Hn. lia.
  - repeat match type of H with
           | context [strip_prefix ?p ?x] =>
               let E := fresh "E" in
               destruct (strip_prefix p x) eqn:E;
               [apply strip_prefix_length in E|]
           end; simplify_eq/=; try done; cbn in *; lia.
Qed.

(** More fuel, more iterations and a reader that does at least as much
    change nothing to a success. *)
Lemma read_elements_more pv1 pv2 n1 n2 s x :
  consumes pv1 →
  (∀ s' y, (length s' ≤ length s)%nat → pv1 s' = Some y → pv2 s' = Some y) →
  (length s ≤ n2)%nat →
  read_elements pv1 n1 s = Some x → read_elements pv2 n2 s = Some x.
Proof.
  intros Hc. revert n2 s x.
  induction n1 as [|n1 IH]; intros n2 s x Hpv Hn H; [done|].
  cbn in H. destruct (pv1 s) as [[v r1]|] eqn:Hv; [|done].
  pose proof (Hc _ _ _ Hv) as Hl. destruct n2 as [|n2]; [lia|].
  cbn. rewrite (Hpv s (v, r1)) by done.
  pose proof (skip_ws_length r1) as Hw.
  destruct (skip_ws r1) as [|c r2]; [done|]. cbn in Hw.
  destruct (c =? 44); [|done].
  destruct x as [l r]. apply cons_fst_Some in H as (l' & H & ->).
  rewrite (IH n2 r2 (l', r)); [done| |lia|done].
  intros s' y Hs'. apply Hpv. lia.
Qed.

Lemma read_members_more pv1 pv2 n1 n2 acc s x :
  consumes pv1 →
  (∀ s' y, (length s' ≤ length s)%nat → pv1 s' = Some y → pv2 s' = Some y) →
  (length s ≤ n2)%nat →
  read_members pv1 n1 acc s = Some x → read_members pv2 n2 acc s = Some x.
Proof.
  intros Hc. revert n2 acc s x.
  induction n1 as [|n1 IH]; intros n2 acc s x Hpv Hn H; [done|].
  cbn in H. pose proof (skip_ws_length s) as Hw0.
  destruct (skip_ws s) as [|q r0] eqn:Hs; [done|]. cbn in Hw0.
  destruct n2 as [|n2]; [lia|]. cbn. rewrite Hs.
  destruct (q =? 34); [|done].
  destruct (read_string r0) as [[k r1]|] eqn:Hk; [|done].
  apply read_string_length in Hk. pose proof (skip_ws_length r1) as Hw1.
  destruct (skip_ws r1) as [|c r2]; [done|]. cbn in Hw1.
  destruct (c =? 58); [|done].
  destruct (pv1 r2) as [[v r3]|] eqn:Hv; [|done].
  pose proof (Hc _ _ _ Hv) as Hl.
  rewrite (Hpv r2 (v, r3)) by (done || lia).
  pose proof (skip_ws_length r3) as Hw3.
  destruct (skip_ws r3) as [|d r4]; [done|]. cbn in Hw3.
  destruct (d =? 44); [|done].
  apply IH; [|lia|done]. intros s' y Hs'. apply Hpv. lia.
Qed.

(** If [parse_value] succeeds with some fuel, it succeeds, with the same
    result, with any fuel above the length of the input. *)
Lemma parse_value_fuel f1 f2 s x :
  parse_value f1 s = Some x → (length s < f2)%nat → parse_value f2 s = Some x.
Proof.
  revert f2 s x. induction f1 as [|f1 IH]; intros f2 s x H Hf; [done|].
  destruct f2 as [|f2]; [lia|]. cbn [parse_value] in *.
  pose proof (skip_ws_length s) as Hw.
  destruct (skip_ws s) as [|c r0]; [done|]. cbn in Hw.
  destruct (c =? 123).
  - pose proof (skip_ws_length r0) as Hw0.
    destruct (skip_ws r0) as [|d r1]; [done|].
    destruct (d =? 125); [done|].
    destruct (read_members (parse_value f1) f1 [] r0) as [[props r2]|] eqn:Hm;
      [|done].
    cbn in Hw0.
    rewrite (read_members_more (parse_value f1) (parse_value f2) f1 f2 []
               r0 (props, r2)); [done|apply parse_value_length| |lia|done].
    intros s' y Hs' Hy. eapply IH; [exact Hy|lia].
  - destruct (c =? 91); [|done].
    pose proof (skip_ws_length r0) as Hw0.
    destruct (skip_ws r0) as [|d r1]; [done|].
    destruct (d =? 93); [done|].
    destruct (read_elements (parse_value f1) f1 r0) as [[items r2]|] eqn:Hm;
      [|done].
    cbn in Hw0.
    rewrite (read_elements_more (parse_value f1) (parse_value f2) f1 f2
               r0 (items, r2)); [done|apply parse_value_length| |lia|done].
    intros s' y Hs' Hy. eapply IH; [exact Hy|lia].
Qed.

(** [JSON_parse] fails only when no amount of fuel would parse the text
    up to its end. *)
Lemma JSON_parse_None_fuel text f v r :
  JSON_parse text = None → parse_value f text = Some (v, r) → skip_ws r ≠ [].
Proof.
  unfold JSON_parse. intros Hn Hf.
  rewrite (parse_value_fuel f (S (length text)) text (v, r)) in Hn by (done || lia).
  by destruct (skip_ws r).
Qed.

(** ** Splitting a chunk into lines *)

Lemma newline_re_match p s :
  rmatch newline_re Some (MState p s [])
  = match s with
    | c :: t =>
        if c =? LF then Some (MState (Some c) t [])
        else match t with
             | d :: t' =>
                 if (c =? CR) && (d =? LF) then Some (MState (Some d) t' [])
                 else None
             | [] => None
             end
    | [] => None
    end.
Proof.
  destruct s as [|c [|d t]]; cbn -[N.eqb]; unfold eat; cbn -[N.eqb];
    rewrite ?(N.eqb_sym 13), ?(N.eqb_sym 10);
    repeat (case_match; simplify_eq/=; try done);
    repeat match goal with
           | H : (_ =? _) = true |- _ => apply N.eqb_eq in H; subst
           end; done.
Qed.

Lemma lines_of_cons2 piece c d t :
  lines_of piece (c :: d :: t)
  = if c =? LF then piece :: lines_of [] (d :: t)
    else if (c =? CR) && (d =? LF) then piece :: lines_of [] t
    else lines_of (piece ++ [c]) (d :: t).
Proof. done. Qed.

Lemma rsplit_from_cons r p piece c t :
  rsplit_from r p 0 piece (c :: t)
  = match rmatch r Some (MState p (c :: t) []) with
    | None => rsplit_from r (Some c) 0 (piece ++ [c]) t
    | Some y =>
        match (length (c :: t) - length (rest y))%nat with
        | O =>
            match piece with
            | [] => rsplit_from r (Some c) 0 [c] t
            | _ => piece :: rsplit_from r (Some c) 0 [c] t
            end
        | S n => piece :: rsplit_from r (Some c) n [] t
        end
    end.
Proof. done. Qed.

Lemma rsplit_from_skip r p n piece c t :
  rsplit_from r p (S n) piece (c :: t) = rsplit_from r (Some c) n piece t.
Proof. done. Qed.

(** [split(/\r?\n/)] cuts a chunk at every line feed and drops a carriage
    return in front of it. *)
Lemma rsplit_from_lines_of s p piece :
  rsplit_from newline_re p 0 piece s = lines_of piece s.
Proof.
  enough (H : (∀ p piece, rsplit_from newline_re p 0 piece s = lines_of piece s)
              ∧ ∀ c p piece, rsplit_from newline_re p 0 piece (c :: s)
                             = lines_of piece (c :: s)) by apply H.
  clear p piece. induction s as [|d s [IH1 IH2]].
  - split; [done|]. intros c p piece.
    rewrite rsplit_from_cons, newline_re_match. cbn [lines_of].
    destruct (c =? LF); done.
  - split; [apply IH2|]. intros c p piece.
    rewrite rsplit_from_cons, newline_re_match, lines_of_cons2.
    destruct (c =? LF).
    + cbn [rest].
      replace (length (c :: d :: s) - length (d :: s))%nat with 1%nat
        by (cbn [length]; lia).
      by rewrite IH2.
    + destruct ((c =? CR) && (d =? LF)).
      * cbn [rest].
        replace (length (c :: d :: s) - length s)%nat with 2%nat
          by (cbn [length]; lia).
        by rewrite rsplit_from_skip, IH1.
      * by rewrite IH2.
Qed.

Lemma rsplit_lines_of s : rsplit newline_re s = lines_of [] s.
Proof.
  unfold rsplit. destruct s as [|c s]; [done|]. apply rsplit_from_lines_of.
Qed.

Lemma lines_of_ended x d2 piece :
  filter (λ l, l ≠ []) (lines_of piece (x ++ LF :: d2))
  = filter (λ l, l ≠ []) (lines_of piece (x ++ [LF]))
    ++ filter (λ l, l ≠ []) (lines_of [] d2).
Proof.
  enough (H : (∀ piece,
                 filter (λ l, l ≠ []) (lines_of piece (x ++ LF :: d2))
                 = filter (λ l, l ≠ []) (lines_of piece (x ++ [LF]))
                   ++ filter (λ l, l ≠ []) (lines_of [] d2))
              ∧ ∀ c piece,
                  filter (λ l, l ≠ []) (lines_of piece (c :: x ++ LF :: d2))
                  = filter (λ l, l ≠ []) (lines_of piece (c :: x ++ [LF]))
                    ++ filter (λ l, l ≠ []) (lines_of [] d2)) by apply H.
  clear piece. induction x as [|d x [IH1 IH2]].
  - assert (H0 : ∀ piece,
               filter (λ l, l ≠ []) (lines_of piece (LF :: d2))
               = filter (λ l, l ≠ []) (lines_of piece [LF])
                 ++ filter (λ l, l ≠ []) (lines_of [] d2)).
    { intros piece. cbn [lines_of N.eqb Pos.eqb].
      rewrite !filter_cons. rewrite (decide_False (P := [] ≠ [])) by (by intros ?).
      rewrite filter_nil. destruct (decide (piece ≠ [])); by rewrite ?app_nil_r. }
    split; [exact H0|]. intros c piece. cbn [app].
    rewrite !lines_of_cons2. destruct (c =? LF); [|destruct (c =? CR)].
    + rewrite !filter_cons. destruct (decide (piece ≠ [])); cbn [app];
        by rewrite H0.
    + cbn [andb N.eqb Pos.eqb lines_of].
      rewrite !filter_cons. rewrite (decide_False (P := [] ≠ [])) by (by intros ?).
      rewrite filter_nil. destruct (decide (piece ≠ [])); by rewrite ?app_nil_r.
    + cbn [andb]. apply H0.
  - split; [apply IH2|]. intros c piece. cbn [app].
    rewrite !lines_of_cons2. destruct (c =? LF); [|destruct ((c =? CR) && (d =? LF))].
    + rewrite !filter_cons. destruct (decide (piece ≠ [])); cbn [app];
        by rewrite (IH2 d []).
    + rewrite !filter_cons. destruct (decide (piece ≠ [])); cbn [app];
        by rewrite (IH1 []).
    + apply (IH2 d).
Qed.

(** The lines of a chunk that ends with a line feed, followed by the lines
    of the next chunk, are the lines of the two chunks read as one. *)
Lemma stdout_lines_ended x d2 :
  stdout_lines ((x ++ [LF]) ++ d2)
  = stdout_lines (x ++ [LF]) ++ stdout_lines d2.
Proof.
  unfold stdout_lines. rewrite !rsplit_lines_of, <-app_assoc. cbn [app].
  apply lines_of_ended.
Qed.

Lemma lines_of_plain line tail piece :
  plain line → tail = [LF] ∨ tail = [CR; LF] →
  lines_of piece (line ++ tail) = [piece ++ line; []].
Proof.
  intros Hp Ht. revert piece. induction Hp as [|c line Hc Hp IH]; intros piece.
  - rewrite app_nil_r. by destruct Ht as [-> | ->].
  - cbn [app]. assert (Hne : ∃ d t, line ++ tail = d :: t ∧ (c =? CR) && (d =? LF) = false).
    { assert ((c =? CR) = false) as -> by (apply N.eqb_neq; lia).
      destruct line; [destruct Ht as [-> | ->]|]; by eexists _, _. }
    destruct Hne as (d & t & Hdt & Hcd). rewrite Hdt, lines_of_cons2, Hcd, <-Hdt.
    assert ((c =? LF) = false) as -> by (apply N.eqb_neq; lia).
    by rewrite IH, <-app_assoc.
Qed.

Lemma stdout_lines_terminated line tail :
  plain line → line ≠ [] → tail = [LF] ∨ tail = [CR; LF] →
  stdout_lines (line ++ tail) = [line].
Proof.
  intros Hp Hne Ht. unfold stdout_lines.
  rewrite rsplit_lines_of, lines_of_plain by done. cbn [app].
  rewrite filter_cons_True by done. by rewrite filter_cons_False by (by intros ?).
Qed.

(** ** More on the output reader *)

(** X1: a line that is valid JSON is forwarded to the window as the value
    it parses to, whatever its fields, except [null], whose [event] cannot
    be read: that line is sent as a [log] event like a line that does not
    parse.  The running flag follows the [event] field of an object and is
    left alone by every other value. *)
Theorem valid_json_line_forwarded line evt st :
  win st = true →
  JSON_parse line = Some evt →
  let st' := stdout_line line st in
  sent st' = sent st ++ [match evt with JNull => ev_log line | _ => evt end]
  ∧ (∀ props, evt = JObj props →
       running st'
       = if is_string (obj_get (js "event") props) (js "stopped") then false
         else if is_string (obj_get (js "event") props) (js "started") then true
         else running st)
  ∧ ((∀ props, evt ≠ JObj props) → running st' = running st)
  ∧ py st' = py st ∧ store st' = store st ∧ shortcuts st' = shortcuts st
  ∧ stdin_writes st' = stdin_writes st.
Proof.
  intros Hwin Hp. cbv zeta. unfold stdout_line, stdout_try. rewrite Hp.
  destruct evt as [| b | n | s | items | props]; cbn.
  1-5: rewrite ?send_running, ?send_py, ?send_store, ?send_shortcuts,
         ?send_stdin, ?send_sent by done; by repeat split.
  set (e := obj_get (js "event") props).
  destruct (is_string e (js "stopped")) eqn:H1,
           (is_string e (js "started")) eqn:H2;
    rewrite ?send_running, ?send_py, ?send_store, ?send_shortcuts,
      ?send_stdin, ?send_sent by done; cbn;
    repeat split; try done;
    try (intros props' [= <-]; fold e; by rewrite H1, ?H2);
    try (intros H; by destruct (H props)).
Qed.

Lemma valid_json_line_forwarded_witness :
  let st := run (initial None) started_run in
  let line := js " null " in
  sent (stdout_line line st) = sent st ++ [ev_log line]
  ∧ sent (stdout_line (event_line (js "stopped")) st)
    = sent st ++ [JObj [(js "event", JStr (js "stopped"))]].
Proof.
  intros st line. split.
  - refine (proj1 (valid_json_line_forwarded line JNull st _ _));
      vm_compute; reflexivity.
  - refine (proj1 (valid_json_line_forwarded (event_line (js "stopped"))
                     (JObj [(js "event", JStr (js "stopped"))]) st _ _));
      vm_compute; reflexivity.
Defined.





(** X3: a chunk that ends with a line feed and the chunk after it may be
    delivered as one chunk or as two: the reader ends in the same state. *)
Theorem stdout_chunks_compose x d2 st :
  on_stdout_data ((x ++ [LF]) ++ d2) st
  = on_stdout_data d2 (on_stdout_data (x ++ [LF]) st).
Proof.
  unfold on_stdout_data. by rewrite stdout_lines_ended, foldl_app.
Qed.

Lemma lines_of_no_break line piece :
  plain line → lines_of piece line = [piece ++ line].
Proof.
  intros Hp. revert piece. induction Hp as [|c line Hc Hp IH]; intros piece.
  - by rewrite app_nil_r.
  - destruct line as [|d line].
    + cbn. assert ((c =? LF) = false) as -> by (apply N.eqb_neq; lia). done.
    + rewrite lines_of_cons2.
      assert ((c =? LF) = false) as -> by (apply N.eqb_neq; lia).
      assert ((c =? CR) = false) as -> by (apply N.eqb_neq; lia).
      cbn [andb]. by rewrite IH, <-app_assoc.
Qed.

(** X4: the reader keeps nothing between chunks.  When a line arrives cut
    in two, the first part is decoded on its own as soon as it arrives and
    the second part on its own with the line feed; the line as a whole is
    never decoded. *)
Theorem stdout_line_cut_in_two a b st :
  plain a → plain b → a ≠ [] → b ≠ [] →
  on_stdout_data (b ++ [LF]) (on_stdout_data a st)
  = stdout_line b (stdout_line a st)
  ∧ on_stdout_data (a ++ b ++ [LF]) st = stdout_line (a ++ b) st.
Proof.
  intros Ha Hb Hna Hnb. unfold on_stdout_data.
  assert (H1 : stdout_lines a = [a]).
  { unfold stdout_lines. rewrite rsplit_lines_of, lines_of_no_break by done.
    by rewrite filter_cons_True, filter_nil. }
  rewrite H1, (stdout_lines_terminated b [LF]) by auto.
  rewrite app_assoc, (stdout_lines_terminated (a ++ b) [LF]); [done| | |auto].
  - by apply plain_app.
  - by destruct a.
Qed.

(** A [started] event cut after its tenth character: two [log] events,
    and the flag stays off. *)
Lemma stdout_line_cut_in_two_witness :
  let st := run (initial None) [Ready; DidFinishLoad (js "/opt/app") true RegFail] in
  let a := take 10 (event_line (js "started")) in
  let b := drop 10 (event_line (js "started")) in
  let st' := on_stdout_data (b ++ [LF]) (on_stdout_data a st) in
  st' = stdout_line b (stdout_line a st)
  ∧ sent st' = sent st ++ [ev_log a; ev_log b]
  ∧ running st' = false
  ∧ running (on_stdout_data (a ++ b ++ [LF]) st) = true.
Proof.
  intros st a b st'. split.
  - refine (proj1 (stdout_line_cut_in_two a b st _ _ _ _));
      try (by vm_compute; repeat constructor); vm_compute; discriminate.
  - vm_compute. done.
Defined.

(** ** The worker handle and its input stream over a run *)

Lemma run_cons st a tr : run st (a :: tr) = run (step st a) tr.
Proof. done. Qed.

Lemma run_app st tr1 tr2 : run st (tr1 ++ tr2) = run (run st tr1) tr2.
Proof. apply foldl_app. Qed.

Lemma sendCmd_py cmd args w st : py (sendCmd cmd args w st) = py st.
Proof.
  unfold sendCmd. destruct (py st) eqn:E; [|by rewrite send_py].
  destruct w; cbn; [done|by rewrite send_py].
Qed.

Lemma store_set_py k v st : py (store_set k v st) = py st.
Proof. unfold store_set. by destruct (store st). Qed.

Lemma store_delete_py k st : py (store_delete k st) = py st.
Proof. unfold store_delete. by destruct (store st). Qed.

Lemma drop_registered_py st : py (drop_registered st) = py st.
Proof.
  unfold drop_registered. destruct (registeredShortcut st); [|done].
  by destruct (negb _).
Qed.

Lemma hotkey_set_py a l o st : py (snd (hotkey_set a l o st)) = py st.
Proof.
  unfold hotkey_set. destruct o; cbn;
    rewrite ?store_set_py; cbn; apply drop_registered_py.
Qed.

Lemma store_set_stdin k v st : stdin_writes (store_set k v st) = stdin_writes st.
Proof. unfold store_set. by destruct (store st). Qed.

Lemma store_delete_stdin k st :
  stdin_writes (store_delete k st) = stdin_writes st.
Proof. unfold store_delete. by destruct (store st). Qed.

Lemma drop_registered_stdin st :
  stdin_writes (drop_registered st) = stdin_writes st.
Proof.
  unfold drop_registered. destruct (registeredShortcut st); [|done].
  by destruct (negb _).
Qed.

Lemma hotkey_set_stdin a l o st :
  stdin_writes (snd (hotkey_set a l o st)) = stdin_writes st.
Proof.
  unfold hotkey_set. destruct o; cbn;
    rewrite ?store_set_stdin; cbn; apply drop_registered_stdin.
Qed.

Lemma send_pref_stdin kind v st :
  stdin_writes (send_pref kind v st) = stdin_writes st.
Proof.
  unfold send_pref. destruct v; [|done].
  destruct (truthy _); [apply send_stdin|done].
Qed.

Lemma restore_hotkey_stdin o st :
  stdin_writes (restore_hotkey o st) = stdin_writes st.
Proof.
  unfold restore_hotkey.
  destruct (truthy _ && truthy _); [|done].
  destruct (store_get (js "hotkey") st) as [[]|]; try done.
  by destruct o.
Qed.

Lemma did_finish_load_stdin root present o st :
  stdin_writes (did_finish_load root present o st) = stdin_writes st.
Proof.
  unfold did_finish_load. cbv zeta.
  rewrite restore_hotkey_stdin, !send_pref_stdin.
  unfold startPython. destruct present; cbn; by rewrite send_stdin.
Qed.

Lemma stdout_data_stdin data st :
  stdin_writes (on_stdout_data data st) = stdin_writes st.
Proof.
  unfold on_stdout_data. generalize (stdout_lines data) as lines.
  intros lines. revert st. induction lines as [|l lines IH]; intros st; [done|].
  cbn. destruct (stdout_line_shape l st) as (e & b & ->).
  by rewrite IH, send_stdin.
Qed.

Lemma on_stderr_stdin text st :
  stdin_writes (on_stderr_data text st) = stdin_writes st.
Proof.
  unfold on_stderr_data. destruct (rexec _ _ _); by rewrite send_stdin.
Qed.

(** A call of [sendCmd] writes nothing or the one encoded command. *)
Lemma sendCmd_stdin cmd args w st :
  stdin_writes (sendCmd cmd args w st) = stdin_writes st
  ∨ (is_Some (py st)
     ∧ stdin_writes (sendCmd cmd args w st)
       = stdin_writes st ++ [encode_command cmd (default (JObj []) args)]).
Proof.
  unfold sendCmd. destruct (py st) eqn:E; [|left; apply send_stdin].
  destruct w; cbn; [right; by split|left; apply send_stdin].
Qed.

(** What a step does to the handle. *)
Lemma step_py st a :
  py (step st a)
  = match a with
    | DidFinishLoad _ true _ => Some Live
    | Close _ _ => match py st with Some _ => Some Closed | None => None end
    | _ => py st
    end.
Proof.
  destruct a; cbn [step]; unfold if_spawned; try done.
  - rewrite did_finish_load_py. unfold startPython.
    destruct present; cbn; [done|apply send_py].
  - destruct (py st) eqn:E; [|done]. by rewrite (proj1 (proj2 (proj2 (stdout_data_frame data st)))).
  - destruct (py st) eqn:E; [|done]. unfold on_stderr_data.
    destruct (rexec _ _ _); by rewrite send_py.
  - destruct (py st) eqn:E; [|done]. unfold on_error. by rewrite send_py.
  - destruct (py st) eqn:E; [by cbn|done].
  - unfold cmd_load. rewrite sendCmd_py.
    destruct (opt_prop _ _); [|done]. destruct (truthy _); [apply store_set_py|done].
  - unfold cmd_start. rewrite sendCmd_py.
    destruct (opt_prop _ _); [|done]. destruct (truthy _); [apply store_set_py|done].
  - apply sendCmd_py.
  - apply sendCmd_py.
  - apply hotkey_set_py.
  - cbn. by rewrite store_delete_py, drop_registered_py.
  - unfold keypress. destruct (_ !! _); [|done]. unfold run_handler.
    destruct (running st); [apply sendCmd_py|]. destruct h; apply sendCmd_py.
Qed.

Lemma sendCmd_lastProgress cmd args w st :
  lastProgress (sendCmd cmd args w st) = lastProgress st.
Proof.
  unfold sendCmd. destruct (py st) eqn:E; [|by rewrite send_lastProgress].
  destruct w; cbn; [done|by rewrite send_lastProgress].
Qed.

Lemma store_set_lastProgress k v st :
  lastProgress (store_set k v st) = lastProgress st.
Proof. unfold store_set. by destruct (store st). Qed.

Lemma store_delete_lastProgress k st :
  lastProgress (store_delete k st) = lastProgress st.
Proof. unfold store_delete. by destruct (store st). Qed.

Lemma drop_registered_lastProgress st :
  lastProgress (drop_registered st) = lastProgress st.
Proof.
  unfold drop_registered. destruct (registeredShortcut st); [|done].
  by destruct (negb _).
Qed.

Lemma hotkey_set_lastProgress a l o st :
  lastProgress (snd (hotkey_set a l o st)) = lastProgress st.
Proof.
  unfold hotkey_set. destruct o; cbn;
    rewrite ?store_set_lastProgress; cbn; apply drop_registered_lastProgress.
Qed.

Lemma send_pref_lastProgress kind v st :
  lastProgress (send_pref kind v st) = lastProgress st.
Proof.
  unfold send_pref. destruct v; [|done].
  destruct (truthy _); [apply send_lastProgress|done].
Qed.

Lemma restore_hotkey_lastProgress o st :
  lastProgress (restore_hotkey o st) = lastProgress st.
Proof.
  unfold restore_hotkey.
  destruct (truthy _ && truthy _); [|done].
  destruct (store_get (js "hotkey") st) as [[]|]; try done.
  by destruct o.
Qed.

Lemma stdout_data_lastProgress data st :
  lastProgress (on_stdout_data data st) = lastProgress st.
Proof.
  unfold on_stdout_data. generalize (stdout_lines data) as lines.
  intros lines. revert st. induction lines as [|l lines IH]; intros st; [done|].
  cbn. destruct (stdout_line_shape l st) as (e & b & ->).
  by rewrite IH, send_lastProgress.
Qed.

(** Only the error stream of the worker touches the last progress. *)
Lemma step_lastProgress st a :
  (∀ text, a ≠ StderrData text) → lastProgress (step st a) = lastProgress st.
Proof.
  intros Ha. destruct a; cbn [step]; unfold if_spawned.
  - done.
  - unfold did_finish_load. cbv zeta.
    rewrite restore_hotkey_lastProgress, !send_pref_lastProgress.
    unfold startPython. destruct present; cbn; by rewrite send_lastProgress.
  - destruct (py st); [apply stdout_data_lastProgress|done].
  - by destruct (Ha text).
  - destruct (py st); [apply send_lastProgress|done].
  - destruct (py st); [|done]. cbn. apply send_lastProgress.
  - unfold cmd_load. rewrite sendCmd_lastProgress.
    destruct (opt_prop _ _); [|done].
    destruct (truthy _); [apply store_set_lastProgress|done].
  - unfold cmd_start. rewrite sendCmd_lastProgress.
    destruct (opt_prop _ _); [|done].
    destruct (truthy _); [apply store_set_lastProgress|done].
  - apply sendCmd_lastProgress.
  - apply sendCmd_lastProgress.
  - apply hotkey_set_lastProgress.
  - cbn. by rewrite store_delete_lastProgress, drop_registered_lastProgress.
  - unfold keypress. destruct (_ !! _); [|done]. unfold run_handler.
    destruct (running st); [apply sendCmd_lastProgress|].
    destruct h; apply sendCmd_lastProgress.
Qed.

Lemma step_stdin st a :
  stdin_writes (step st a) = stdin_writes st
  ∨ (is_Some (py st)
     ∧ ∃ w, command_chunk w ∧ stdin_writes (step st a) = stdin_writes st ++ [w]).
Proof.
  assert (Hcmd : ∀ cmd args w st0,
            cmd ∈ command_names →
            stdin_writes st0 = stdin_writes st → py st0 = py st →
            stdin_writes (sendCmd cmd args w st0) = stdin_writes st
            ∨ (is_Some (py st)
               ∧ ∃ c, command_chunk c
                      ∧ stdin_writes (sendCmd cmd args w st0) = stdin_writes st ++ [c])).
  { intros cmd args w st0 Hin Hs Hp.
    destruct (sendCmd_stdin cmd args w st0) as [->|[Hpy ->]]; [by left|right].
    rewrite <-Hp, Hs. split; [done|]. eexists. split; [|done].
    by eexists _, _. }
  destruct a; cbn [step]; unfold if_spawned.
  - by left.
  - left. apply did_finish_load_stdin.
  - left. destruct (py st); [apply stdout_data_stdin|done].
  - left. destruct (py st); [apply on_stderr_stdin|done].
  - left. destruct (py st); [apply send_stdin|done].
  - left. destruct (py st); [|done]. cbn. apply send_stdin.
  - unfold cmd_load. apply Hcmd; [set_solver| |];
      (destruct (opt_prop _ _); [|done]); (destruct (truthy _); [|done]).
    + apply store_set_stdin.
    + apply store_set_py.
  - unfold cmd_start. apply Hcmd; [set_solver| |];
      (destruct (opt_prop _ _); [|done]); (destruct (truthy _); [|done]).
    + apply store_set_stdin.
    + apply store_set_py.
  - apply Hcmd; [set_solver|done|done].
  - apply Hcmd; [set_solver|done|done].
  - left. apply hotkey_set_stdin.
  - left. cbn. by rewrite store_delete_stdin, drop_registered_stdin.
  - unfold keypress. destruct (_ !! _); [|by left]. unfold run_handler.
    destruct (running st); [apply Hcmd; [set_solver|done|done]|].
    destruct h; apply Hcmd; try done; set_solver.
Qed.

Lemma command_chunk_line w :
  command_chunk w → ∃ line, w = line ++ [LF] ∧ plain line.
Proof.
  intros (cmd & args & _ & ->). eexists. split; [reflexivity|].
  apply plain_stringify.
Qed.

(** X5: once [startPython] has spawned the worker, the handle is never
    cleared again: not when the worker closes, not when it fails, not by
    any command.  So from then on a command whose write returns is always
    handed to the input stream, and none is answered with an error event. *)
Theorem worker_handle_never_cleared st tr cmd args :
  is_Some (py st) →
  let st' := run st tr in
  is_Some (py st')
  ∧ stdin_writes (sendCmd cmd args WriteReturns st')
    = stdin_writes st' ++ [encode_command cmd (default (JObj []) args)]
  ∧ sent (sendCmd cmd args WriteReturns st') = sent st'.
Proof.
  intros Hpy. cbv zeta.
  assert (H : is_Some (py (run st tr))).
  { revert st Hpy. induction tr as [|a tr IH]; intros st Hpy; [done|].
    rewrite run_cons. apply IH. rewrite step_py.
    destruct a as [|? [] ?| | | | | | | | | | |]; try done.
    by destruct Hpy as [p ->]. }
  split; [done|]. destruct H as [p Hp]. unfold sendCmd. by rewrite Hp.
Qed.

Lemma worker_handle_never_cleared_witness :
  let st' := run (run (initial None) closed_run)
               [CmdStop (WriteThrows (js "EPIPE")); HotkeyClear;
                ProcError (js "gone")] in
  is_Some (py st')
  ∧ stdin_writes (sendCmd (js "status") None WriteReturns st')
    = stdin_writes st' ++ [encode_command (js "status") (JObj [])]
  ∧ sent (sendCmd (js "status") None WriteReturns st') = sent st'.
Proof.
  apply (worker_handle_never_cleared (run (initial None) closed_run)).
  vm_compute. by eexists.
Defined.

(** X6: as long as the start-up callback has not found the interpreter,
    there is no worker: whatever the window asks for and whatever key is
    pressed, nothing is written to any input stream, the running flag and
    the last progress stay as they were. *)
Theorem nothing_written_before_spawn st tr :
  py st = None →
  Forall (λ a, ∀ root o, a ≠ DidFinishLoad root true o) tr →
  let st' := run st tr in
  py st' = None ∧ stdin_writes st' = stdin_writes st
  ∧ running st' = running st ∧ lastProgress st' = lastProgress st.
Proof.
  intros Hpy Htr. cbv zeta. revert st Hpy.
  induction Htr as [|a tr Ha _ IH]; intros st Hpy; [done|].
  rewrite run_cons. assert (Hpy' : py (step st a) = None).
  { rewrite step_py. destruct a as [|? [] ?| | | | | | | | | | |]; try done.
    - by destruct (Ha projectRoot o).
    - by rewrite Hpy. }
  destruct (IH _ Hpy') as (-> & -> & -> & ->). split; [done|].
  split.
  { destruct (step_stdin st a) as [H|[[p Hp] _]]; [done|congruence]. }
  split; [|destruct a; try (by apply step_lastProgress);
             cbn [step]; unfold if_spawned; by rewrite Hpy].
  destruct a; cbn [step]; unfold if_spawned; rewrite ?Hpy; try done.
  - unfold did_finish_load. cbv zeta.
    by rewrite restore_hotkey_running, !send_pref_running, startPython_running.
  - unfold cmd_load. rewrite sendCmd_running.
    destruct (opt_prop _ _); [|done].
    destruct (truthy _); [apply store_set_running|done].
  - unfold cmd_start. rewrite sendCmd_running.
    destruct (opt_prop _ _); [|done].
    destruct (truthy _); [apply store_set_running|done].
  - apply sendCmd_running.
  - apply sendCmd_running.
  - apply hotkey_set_running.
  - cbn. by rewrite store_delete_running, drop_registered_running.
  - unfold keypress. destruct (_ !! _); [|done]. apply run_handler_running.
Qed.

Lemma nothing_written_before_spawn_witness :
  let st := run (initial None) [Ready] in
  let st' := run st [DidFinishLoad (js "/opt/app") false RegOk;
                     CmdStart (Some (JObj [(js "language", JStr (js "en"))])) WriteReturns;
                     HotkeySet (js "F9") None RegOk;
                     Keypress (js "F9") WriteReturns;
                     StdoutData (event_line (js "started") ++ [LF])] in
  py st' = None ∧ stdin_writes st' = stdin_writes st
  ∧ running st' = running st ∧ lastProgress st' = lastProgress st.
Proof.
  intros st. apply nothing_written_before_spawn; [reflexivity|].
  repeat constructor; intros root o; discriminate.
Defined.

(** X7: along every run the worker's input stream only grows, and every
    chunk added to it is one [load], [start], [stop] or [status] command,
    encoded on a single line that ends with a line feed. *)
Theorem stdin_receives_command_lines st tr :
  ∃ ws, stdin_writes (run st tr) = stdin_writes st ++ ws
        ∧ Forall (λ w, command_chunk w
                       ∧ ∃ line, w = line ++ [LF] ∧ plain line) ws.
Proof.
  revert st. induction tr as [|a tr IH]; intros st.
  - exists []. by rewrite app_nil_r.
  - rewrite run_cons. destruct (IH (step st a)) as (ws & Hws & Hall).
    rewrite Hws.
    destruct (step_stdin st a) as [->|[_ (w & Hw & ->)]].
    + by exists ws.
    + exists (w :: ws). rewrite <-app_assoc. split; [done|].
      constructor; [|done]. split; [done|by apply command_chunk_line].
Qed.

(** ** Preferences *)

Lemma stdout_data_store data st : store (on_stdout_data data st) = store st.
Proof. apply stdout_data_frame. Qed.

Lemma drop_registered_store st : store (drop_registered st) = store st.
Proof.
  unfold drop_registered. destruct (registeredShortcut st); [|done].
  by destruct (negb _).
Qed.

Lemma restore_hotkey_store o st : store (restore_hotkey o st) = store st.
Proof.
  unfold restore_hotkey.
  destruct (truthy _ && truthy _); [|done].
  destruct (store_get (js "hotkey") st) as [[]|]; try done.
  by destruct o.
Qed.

(** The store after a step: worker events, key presses and the outcome of
    a write leave it alone. *)
Lemma step_store st a : store (step st a) = store_effect a <$> store st.
Proof.
  enough (store (step st a)
          = match store st with
            | Some m => Some (store_effect a m)
            | None => None
            end) as -> by by destruct (store st).
  assert (Hid : ∀ s : option (gmap jsstring value),
            s = match s with Some m => Some m | None => None end)
    by by intros [].
  destruct a; cbn [step store_effect]; unfold if_spawned.
  - apply Hid.
  - unfold did_finish_load. cbv zeta.
    rewrite restore_hotkey_store, !send_pref_store, startPython_store. apply Hid.
  - destruct (py st); [rewrite stdout_data_store|]; apply Hid.
  - destruct (py st); [|apply Hid]. unfold on_stderr_data.
    destruct (rexec _ _ _); rewrite send_store; apply Hid.
  - destruct (py st); [unfold on_error; rewrite send_store|]; apply Hid.
  - destruct (py st); [cbn [store set_py]; unfold on_close; rewrite send_store|];
      apply Hid.
  - unfold cmd_load. rewrite sendCmd_store.
    destruct (opt_prop _ _); [|apply Hid].
    destruct (truthy _); [|apply Hid]. unfold store_set.
    destruct (store st) eqn:E; by cbn.
  - unfold cmd_start. rewrite sendCmd_store.
    destruct (opt_prop _ _); [|apply Hid].
    destruct (truthy _); [|apply Hid]. unfold store_set.
    destruct (store st) eqn:E; by cbn.
  - unfold cmd_stop. rewrite sendCmd_store. apply Hid.
  - unfold cmd_status. rewrite sendCmd_store. apply Hid.
  - unfold hotkey_set. destruct o; cbn.
    + unfold store_set. cbn. rewrite drop_registered_store.
      destruct (store st) eqn:E; cbn; by rewrite ?drop_registered_store.
    + rewrite drop_registered_store. apply Hid.
    + rewrite drop_registered_store. apply Hid.
  - cbn. unfold store_delete. rewrite drop_registered_store.
    destruct (store st) eqn:E; cbn; by rewrite ?drop_registered_store.
  - unfold keypress. destruct (_ !! _); [|apply Hid]. unfold run_handler.
    destruct (running st); [rewrite sendCmd_store; apply Hid|].
    destruct h; rewrite sendCmd_store; apply Hid.
Qed.

(** X8: what is stored is decided by the requests alone.  Along a run the
    preferences are those found at the beginning, changed in turn by each
    [cmd:load] with a truthy [model_name], each [cmd:start] with a truthy
    [language], each [hotkey:set] the OS accepts and each [hotkey:clear];
    no worker event, no key press, no missing worker and no failing write
    changes them, and an absent store stays absent. *)
Theorem preferences_follow_requests st tr :
  store (run st tr) = (λ m, foldl (λ m a, store_effect a m) m tr) <$> store st.
Proof.
  revert st. induction tr as [|a tr IH]; intros st.
  - cbn. by destruct (store st).
  - rewrite run_cons, IH, step_store. by destruct (store st).
Qed.

(** ** Preferences across a restart *)

Lemma send_pref_win kind v st : win (send_pref kind v st) = win st.
Proof.
  unfold send_pref. destruct v; [|done].
  destruct (truthy _); [apply send_win|done].
Qed.

Lemma send_pref_shortcuts kind v st :
  shortcuts (send_pref kind v st) = shortcuts st.
Proof.
  unfold send_pref. destruct v; [|done].
  destruct (truthy _); [apply send_shortcuts|done].
Qed.

Lemma send_pref_registered kind v st :
  registeredShortcut (send_pref kind v st) = registeredShortcut st.
Proof.
  unfold send_pref. destruct v; [|done].
  destruct (truthy _); [apply send_registered|done].
Qed.

Lemma send_pref_sent kind v st :
  win st = true → sent (send_pref kind v st) = sent st ++ pref_event kind v.
Proof.
  intros Hwin. unfold send_pref, pref_event. destruct v; [|by rewrite app_nil_r].
  destruct (truthy _); [by apply send_sent|by rewrite app_nil_r].
Qed.

Lemma restore_hotkey_sent o st : sent (restore_hotkey o st) = sent st.
Proof.
  unfold restore_hotkey.
  destruct (truthy _ && truthy _); [|done].
  destruct (store_get (js "hotkey") st) as [[]|]; try done.
  by destruct o.
Qed.

Lemma startPython_win root present st :
  win (startPython root present st) = win st.
Proof. unfold startPython. destruct present; cbn; apply send_win. Qed.

Lemma startPython_shortcuts root present st :
  shortcuts (startPython root present st) = shortcuts st.
Proof. unfold startPython. destruct present; cbn; apply send_shortcuts. Qed.

Lemma startPython_registered root present st :
  registeredShortcut (startPython root present st) = registeredShortcut st.
Proof. unfold startPython. destruct present; cbn; apply send_registered. Qed.

(** What the start-up callback sends: the word from [startPython], then
    the saved model, language and hotkey, in this order. *)
Lemma did_finish_load_sent root present o st :
  win st = true →
  sent (did_finish_load root present o st)
  = sent (startPython root present st)
    ++ pref_event (js "pref:model") (store_get (js "model") st)
    ++ pref_event (js "pref:language") (store_get (js "language") st)
    ++ pref_event (js "pref:hotkey") (store_get (js "hotkey") st).
Proof.
  intros Hwin. unfold did_finish_load. cbv zeta.
  rewrite restore_hotkey_sent.
  set (st1 := startPython root present st).
  set (st2 := send_pref _ _ st1). set (st3 := send_pref _ _ st2).
  assert (H1 : store st1 = store st) by apply startPython_store.
  assert (H2 : store st2 = store st) by (unfold st2; by rewrite send_pref_store).
  assert (H3 : store st3 = store st) by (unfold st3; by rewrite send_pref_store).
  assert (W1 : win st1 = true) by (unfold st1; by rewrite startPython_win).
  assert (W2 : win st2 = true) by (unfold st2; by rewrite send_pref_win).
  assert (W3 : win st3 = true) by (unfold st3; by rewrite send_pref_win).
  rewrite send_pref_sent by done. unfold st3 at 1.
  rewrite send_pref_sent by done. unfold st2 at 1.
  rewrite send_pref_sent by done.
  rewrite (store_get_ext _ st st1 H1), (store_get_ext _ st st2 H2),
    (store_get_ext _ st st3 H3).
  by rewrite <-!app_assoc.
Qed.

(** The start-up callback, as far as the shortcuts go, is
    [restore_hotkey] on a state with the same store and bindings. *)
Lemma did_finish_load_restore root present o st :
  ∃ st4, did_finish_load root present o st = restore_hotkey o st4
         ∧ store st4 = store st ∧ shortcuts st4 = shortcuts st
         ∧ registeredShortcut st4 = registeredShortcut st.
Proof.
  eexists. split; [reflexivity|].
  by rewrite !send_pref_store, !send_pref_shortcuts, !send_pref_registered,
    startPython_store, startPython_shortcuts, startPython_registered.
Qed.

Lemma restore_hotkey_skip o st :
  truthy (store_get (js "hotkey") st) && truthy (store_get (js "language") st)
  = false →
  restore_hotkey o st = st.
Proof. unfold restore_hotkey. by intros ->. Qed.

Lemma restore_hotkey_ok a st :
  store_get (js "hotkey") st = Some (JStr a) → a ≠ [] →
  truthy (store_get (js "language") st) = true →
  shortcuts (restore_hotkey RegOk st) = <[a := HRestore]> (shortcuts st)
  ∧ registeredShortcut (restore_hotkey RegOk st) = Some a.
Proof.
  intros Hk Hne Hl. unfold restore_hotkey. rewrite Hk, Hl. cbn.
  unfold str_eqb. by rewrite bool_decide_eq_false_2 by done.
Qed.

(** The bindings after a restart. *)
Lemma restart_bindings prefs root present o :
  let st := restart prefs root present o in
  (∀ a, prefs ≫= (.!! js "hotkey") = Some (JStr a) → a ≠ [] →
        truthy (prefs ≫= (.!! js "language")) = true → o = RegOk →
        shortcuts st = {[ a := HRestore ]} ∧ registeredShortcut st = Some a)
  ∧ (truthy (prefs ≫= (.!! js "hotkey")) && truthy (prefs ≫= (.!! js "language"))
     = false →
     shortcuts st = ∅ ∧ registeredShortcut st = None).
Proof.
  cbv zeta. unfold restart. rewrite run_cons, run_cons. cbn [run foldl].
  cbn [step].
  destruct (did_finish_load_restore root present o (set_win true (initial prefs)))
    as (st4 & -> & Hs & Hsh & Hr).
  assert (Hg : ∀ k, store_get k st4 = prefs ≫= (.!! k)).
  { intros k. unfold store_get. rewrite Hs. by destruct prefs. }
  split.
  - intros a Hk Hne Hl ->.
    destruct (restore_hotkey_ok a st4) as [-> ->]; rewrite ?Hg; try done.
    by rewrite Hsh.
  - intros Hf. rewrite restore_hotkey_skip by by rewrite !Hg.
    by rewrite Hsh, Hr.
Qed.

Lemma restart_sent prefs root present o kind key v :
  (kind, key) ∈ [(js "pref:model", js "model");
                 (js "pref:language", js "language");
                 (js "pref:hotkey", js "hotkey")] →
  prefs ≫= (.!! key) = Some v → truthy (Some v) = true →
  ev_pref kind v ∈ sent (restart prefs root present o).
Proof.
  intros Hin Hv Ht. unfold restart. rewrite run_cons, run_cons. cbn [run foldl step].
  rewrite did_finish_load_sent by done.
  assert (Hg : ∀ k, store_get k (set_win true (initial prefs)) = prefs ≫= (.!! k)).
  { intros k. unfold store_get. by destruct prefs. }
  rewrite !Hg.
  assert (He : pref_event kind (prefs ≫= (.!! key)) = [ev_pref kind v]).
  { unfold pref_event. by rewrite Hv, Ht. }
  rewrite !elem_of_app.
  apply elem_of_cons in Hin as [[= -> ->]|Hin]; [rewrite He; set_solver|].
  apply elem_of_cons in Hin as [[= -> ->]|Hin]; [rewrite He; set_solver|].
  apply elem_of_cons in Hin as [[= -> ->]|Hin]; [rewrite He; set_solver|].
  by apply elem_of_nil in Hin.
Qed.

(** A key of the store that the steps of [tr] do not write. *)
Lemma run_store_get key st tr :
  Forall (λ a, ∀ m, store_effect a m !! key = m !! key) tr →
  store_get key (run st tr) = store_get key st.
Proof.
  intros H. revert st. induction H as [|a tr Ha _ IH]; intros st; [done|].
  rewrite run_cons, IH. unfold store_get. rewrite step_store.
  destruct (store st); [apply Ha|done].
Qed.

Lemma not_start_keeps_language a :
  (∀ args w, a ≠ CmdStart args w) →
  ∀ m, store_effect a m !! js "language" = m !! js "language".
Proof.
  intros Ha m. destruct a; cbn [store_effect]; try done.
  - destruct (opt_prop _ _); [|done]. destruct (truthy _); [|done].
    by rewrite lookup_insert_ne.
  - by destruct (Ha args w).
  - destruct o; try done. by rewrite lookup_insert_ne.
  - by rewrite lookup_delete_ne.
Qed.

Lemma not_load_keeps_model a :
  (∀ args w, a ≠ CmdLoad args w) →
  ∀ m, store_effect a m !! js "model" = m !! js "model".
Proof.
  intros Ha m. destruct a; cbn [store_effect]; try done.
  - by destruct (Ha args w).
  - destruct (opt_prop _ _); [|done]. destruct (truthy _); [|done].
    by rewrite lookup_insert_ne.
  - destruct o; try done. by rewrite lookup_insert_ne.
  - by rewrite lookup_delete_ne.
Qed.

(** Along a run of the main process a saved language that is truthy
    stays truthy: [cmd:start] saves truthy values only and nothing removes
    the key.  The closure of the start-up callback therefore finds no
    language only when the settings were changed from outside. *)
Lemma saved_language_stays_truthy st tr :
  truthy (store_get (js "language") st) = true →
  truthy (store_get (js "language") (run st tr)) = true.
Proof.
  revert st. induction tr as [|a tr IH]; intros st Hst; [done|].
  rewrite run_cons. apply IH. revert Hst. unfold store_get.
  rewrite step_store. destruct (store st) as [m|]; [|done].
  cbn [fmap option_fmap option_map]. intros Hst.
  destruct a; cbn [store_effect]; try done.
  - destruct (opt_prop _ _) as [v|]; [|done].
    destruct (truthy (Some v)); [|done]. by rewrite lookup_insert_ne.
  - destruct (opt_prop _ _) as [v|]; [|done].
    destruct (truthy (Some v)) eqn:Hv; [|done].
    by rewrite lookup_insert_eq.
  - destruct o; try done. by rewrite lookup_insert_ne.
  - by rewrite lookup_delete_ne.
Qed.

(** X9: a language given to [cmd:start] is saved, whether or not the
    command reaches the worker, stays saved until the next [cmd:start],
    and is echoed to the window as a [pref:language] event when the
    application is started again with the same store. *)
Theorem saved_language_echoed_after_restart st m args v w tr root present o :
  store st = Some m →
  opt_prop args (js "language") = Some v → truthy (Some v) = true →
  Forall (λ a, ∀ args' w', a ≠ CmdStart args' w') tr →
  let st1 := run (step st (CmdStart args w)) tr in
  store_get (js "language") st1 = Some v
  ∧ ev_pref (js "pref:language") v ∈ sent (restart (store st1) root present o).
Proof.
  intros Hm Ha Ht Htr. cbv zeta.
  assert (Hg : store_get (js "language") (run (step st (CmdStart args w)) tr)
               = Some v).
  { rewrite run_store_get
      by (eapply Forall_impl; [exact Htr|apply not_start_keeps_language]).
    unfold store_get. rewrite step_store, Hm.
      cbn [fmap option_fmap option_map store_effect]. rewrite Ha, Ht.
    apply lookup_insert_eq. }
  split; [done|].
  apply (restart_sent _ _ _ _ _ (js "language")); [set_solver| |done].
  unfold store_get in Hg. by destruct (store _).
Qed.

Lemma saved_language_echoed_after_restart_witness :
  let st := run (initial (Some ∅)) [Ready; DidFinishLoad (js "/opt/app") false RegFail] in
  let args := Some (JObj [(js "language", JStr (js "de"))]) in
  let tr := [CmdStop WriteReturns; HotkeySet (js "F9") (Some (JStr (js "fr"))) RegOk] in
  let st1 := run (step st (CmdStart args WriteReturns)) tr in
  stdin_writes st1 = []
  ∧ store_get (js "language") st1 = Some (JStr (js "de"))
  ∧ ev_pref (js "pref:language") (JStr (js "de"))
      ∈ sent (restart (store st1) (js "/opt/app") true RegOk).
Proof.
  intros st args tr st1. split; [vm_compute; reflexivity|].
  apply (saved_language_echoed_after_restart st ∅ args (JStr (js "de"))
           WriteReturns tr (js "/opt/app") true RegOk).
  - reflexivity.
  - reflexivity.
  - reflexivity.
  - repeat constructor; intros ??; discriminate.
Defined.

(** X10: the model named by [model_name] in [cmd:load] is saved under
    [model], stays saved until the next [cmd:load], and is echoed as a
    [pref:model] event at the next start; a [cmd:load] without a truthy
    [model_name] saves nothing. *)
Theorem saved_model_echoed_after_restart st m args w tr root present o :
  store st = Some m →
  Forall (λ a, ∀ args' w', a ≠ CmdLoad args' w') tr →
  let st1 := run (step st (CmdLoad args w)) tr in
  (∀ v, opt_prop args (js "model_name") = Some v → truthy (Some v) = true →
     store_get (js "model") st1 = Some v
     ∧ ev_pref (js "pref:model") v ∈ sent (restart (store st1) root present o))
  ∧ (truthy (opt_prop args (js "model_name")) = false →
     store st1 = store (run st tr)).
Proof.
  intros Hm Htr. cbv zeta. split.
  - intros v Ha Ht.
    assert (Hg : store_get (js "model") (run (step st (CmdLoad args w)) tr)
                 = Some v).
    { rewrite run_store_get
        by (eapply Forall_impl; [exact Htr|apply not_load_keeps_model]).
      unfold store_get. rewrite step_store, Hm.
      cbn [fmap option_fmap option_map store_effect]. rewrite Ha, Ht.
      apply lookup_insert_eq. }
    split; [done|].
    apply (restart_sent _ _ _ _ _ (js "model")); [set_solver| |done].
    unfold store_get in Hg. by destruct (store _).
  - intros Hf.
    assert (Hs : store (step st (CmdLoad args w)) = store st).
    { rewrite step_store, Hm. cbn [fmap option_fmap option_map store_effect].
      destruct (opt_prop _ _); [|done]. by rewrite Hf. }
    clear Htr Hm. revert Hs. generalize (step st (CmdLoad args w)) as s1.
    intros s1. revert st s1. induction tr as [|a tr IH]; intros st s1 Hs; [done|].
    rewrite !run_cons. apply IH. by rewrite !step_store, Hs.
Qed.

Lemma saved_model_echoed_after_restart_witness :
  let st := run (initial (Some ∅)) [Ready; DidFinishLoad (js "/opt/app") true RegFail] in
  let args := Some (JObj [(js "model_name", JStr (js "base"))]) in
  let st1 := run (step st (CmdLoad args (WriteThrows (js "EPIPE")))) [CmdStatus WriteReturns] in
  store_get (js "model") st1 = Some (JStr (js "base"))
  ∧ ev_pref (js "pref:model") (JStr (js "base"))
      ∈ sent (restart (store st1) (js "/opt/app") true RegOk).
Proof.
  intros st args st1.
  refine (proj1 (saved_model_echoed_after_restart st ∅ args
                   (WriteThrows (js "EPIPE")) [CmdStatus WriteReturns]
                   (js "/opt/app") true RegOk _ _) (JStr (js "base")) _ _).
  - reflexivity.
  - repeat constructor; intros ??; discriminate.
  - reflexivity.
  - reflexivity.
Defined.

(** ** The hotkey across failures, clearing and restarts *)

Lemma truthy_accelerator a : a ≠ [] → truthy (Some (JStr a)) = true.
Proof.
  intros Hne. cbn. unfold str_eqb. by rewrite bool_decide_eq_false_2.
Qed.

Lemma keypress_unbound st :
  shortcuts st = ∅ → ∀ a w, keypress a w st = st.
Proof. intros Hs a w. unfold keypress. by rewrite Hs, lookup_empty. Qed.

(** X11: [hotkey:set] saves the accelerator but not the language it was
    given.  After a restart the window is told the saved hotkey, but the
    key is bound again (to the closure of the start-up callback) only if
    a language was saved by [cmd:start]; with no saved language the key
    stays unbound. *)
Theorem hotkey_returns_only_with_saved_language st m accel lang root present :
  store st = Some m → accel ≠ [] →
  let st1 := snd (hotkey_set accel lang RegOk st) in
  let st2 := restart (store st1) root present RegOk in
  shortcuts st1 !! accel = Some (HSet lang)
  ∧ ev_pref (js "pref:hotkey") (JStr accel) ∈ sent st2
  ∧ (truthy (m !! js "language") = true →
       shortcuts st2 = {[ accel := HRestore ]} ∧ registeredShortcut st2 = Some accel)
  ∧ (truthy (m !! js "language") = false →
       shortcuts st2 = ∅ ∧ registeredShortcut st2 = None).
Proof.
  intros Hm Hne. cbv zeta.
  assert (Hs : store (snd (hotkey_set accel lang RegOk st))
               = Some (<[js "hotkey" := JStr accel]> m)).
  { change (snd (hotkey_set accel lang RegOk st))
      with (step st (HotkeySet accel lang RegOk)).
    by rewrite step_store, Hm. }
  rewrite Hs. split; [apply hotkey_set_binds|].
  split.
  { apply (restart_sent _ _ _ _ _ (js "hotkey")); [set_solver| |].
    - cbn. apply lookup_insert_eq.
    - by apply truthy_accelerator. }
  destruct (restart_bindings (Some (<[js "hotkey" := JStr accel]> m))
              root present RegOk) as [Hyes Hno].
  cbn [mbind option_bind] in Hyes, Hno.
  rewrite lookup_insert_eq in Hno. rewrite lookup_insert_ne in Hno by done.
  split.
  - intros Hl. apply Hyes; try done; [apply lookup_insert_eq|].
    by rewrite lookup_insert_ne.
  - intros Hl. apply Hno. rewrite Hl. apply andb_false_r.
Qed.

Lemma hotkey_returns_only_with_saved_language_witness :
  let st := run (initial (Some ∅)) [Ready; DidFinishLoad (js "/opt/app") true RegFail] in
  let st1 := snd (hotkey_set (js "F9") (Some (JStr (js "de"))) RegOk st) in
  let st2 := restart (store st1) (js "/opt/app") true RegOk in
  shortcuts st1 !! js "F9" = Some (HSet (Some (JStr (js "de"))))
  ∧ ev_pref (js "pref:hotkey") (JStr (js "F9")) ∈ sent st2
  ∧ shortcuts st2 = ∅ ∧ registeredShortcut st2 = None.
Proof.
  intros st st1 st2.
  destruct (hotkey_returns_only_with_saved_language st ∅ (js "F9")
              (Some (JStr (js "de"))) (js "/opt/app") true)
    as (H1 & H2 & _ & H4).
  - reflexivity.
  - vm_compute. discriminate.
  - split; [exact H1|]. split; [exact H2|]. apply H4. reflexivity.
Defined.

(** X12: a rebinding that the OS refuses, or that throws, leaves the
    application without any hotkey: the old one was unregistered first,
    and key presses do nothing.  The saved preference is not touched,
    though: it still names the old accelerator, which comes back at the
    next start if a language is saved. *)
Theorem failed_rebind_keeps_saved_hotkey st0 tr a1 a2 lang o m root present :
  Forall env_ok tr →
  let st := run (initial st0) tr in
  registeredShortcut st = Some a1 → store st = Some m → o ≠ RegOk →
  let st' := snd (hotkey_set a2 lang o st) in
  shortcuts st' = ∅
  ∧ (∀ a w, keypress a w st' = st')
  ∧ store_get (js "hotkey") st' = Some (JStr a1)
  ∧ (truthy (m !! js "language") = true →
       shortcuts (restart (store st') root present RegOk) = {[ a1 := HRestore ]}).
Proof.
  intros Htr st Hr Hm Ho st'.
  assert (Hinv : bindings_consistent st)
    by (apply run_consistent; [done|apply initial_consistent]).
  assert (Hne : o = RegOk → a2 ≠ []) by done.
  destruct (hotkey_set_effect a2 lang o st Hinv Hne) as (_ & _ & Hf & _).
  destruct (Hf Ho) as (_ & _ & Hs). fold st' in Hs.
  assert (Hst : store st' = Some m).
  { unfold st'. change (snd (hotkey_set a2 lang o st))
      with (step st (HotkeySet a2 lang o)).
    rewrite step_store, Hm. by destruct o. }
  destruct Hinv as (_ & H2 & H3).
  pose proof (H2 _ Hr) as Ha1. pose proof (H3 _ _ Hr Hm) as Hk.
  split; [done|]. split; [by apply keypress_unbound|].
  split; [unfold store_get; by rewrite Hst|].
  intros Hl. rewrite Hst.
  by apply (restart_bindings (Some m) root present RegOk).
Qed.

Lemma failed_rebind_keeps_saved_hotkey_witness :
  let tr := [Ready; DidFinishLoad (js "/opt/app") true RegFail;
             CmdStart (Some (JObj [(js "language", JStr (js "de"))])) WriteReturns;
             HotkeySet (js "F9") (Some (JStr (js "de"))) RegOk] in
  let st := run (initial (Some ∅)) tr in
  let st' := snd (hotkey_set (js "F10") (Some (JStr (js "de"))) RegThrow st) in
  shortcuts st' = ∅
  ∧ (∀ a w, keypress a w st' = st')
  ∧ store_get (js "hotkey") st' = Some (JStr (js "F9"))
  ∧ shortcuts (restart (store st') (js "/opt/app") true RegOk)
    = {[ js "F9" := HRestore ]}.
Proof.
  intros tr st st'.
  assert (Htr : Forall env_ok tr).
  { repeat constructor. vm_compute. discriminate. }
  assert (Hr : registeredShortcut (run (initial (Some ∅)) tr) = Some (js "F9"))
    by (vm_compute; reflexivity).
  assert (Hm : store (run (initial (Some ∅)) tr)
               = Some (<[js "hotkey" := JStr (js "F9")]>
                         (<[js "language" := JStr (js "de")]> ∅)))
    by reflexivity.
  assert (Ho : RegThrow ≠ RegOk) by discriminate.
  destruct (failed_rebind_keeps_saved_hotkey (Some ∅) tr (js "F9") (js "F10")
              (Some (JStr (js "de"))) RegThrow _ (js "/opt/app") true
              Htr Hr Hm Ho) as (H1 & H2 & H3 & H4).
  split; [exact H1|]. split; [exact H2|]. split; [exact H3|].
  apply H4. vm_compute. reflexivity.
Defined.

Lemma store_delete_shortcuts k st :
  shortcuts (store_delete k st) = shortcuts st.
Proof. unfold store_delete. by destruct (store st). Qed.

Lemma store_delete_registered k st :
  registeredShortcut (store_delete k st) = registeredShortcut st.
Proof. unfold store_delete. by destruct (store st). Qed.

Lemma store_delete_os_calls k st : os_calls (store_delete k st) = os_calls st.
Proof. unfold store_delete. by destruct (store st). Qed.

(** X13: [hotkey:clear] always answers true.  In every state the main
    process reaches it leaves no accelerator with the OS, so that key
    presses do nothing; it calls [unregister] only if an accelerator was
    recorded; and it forgets the saved hotkey, so that the next start
    binds nothing. *)
Theorem hotkey_clear_removes_binding st0 tr root present o :
  Forall env_ok tr →
  let st := run (initial st0) tr in
  let r := hotkey_clear st in
  fst r = true
  ∧ shortcuts (snd r) = ∅ ∧ registeredShortcut (snd r) = None
  ∧ os_calls (snd r)
    = os_calls st ++ match registeredShortcut st with
                     | Some b => [OsUnregister b]
                     | None => []
                     end
  ∧ (∀ a w, keypress a w (snd r) = snd r)
  ∧ store_get (js "hotkey") (snd r) = None
  ∧ shortcuts (restart (store (snd r)) root present o) = ∅.
Proof.
  intros Htr st r.
  assert (Hinv : bindings_consistent st)
    by (apply run_consistent; [done|apply initial_consistent]).
  destruct (drop_registered_clears st Hinv) as (Hs & Hr & Hst & Hc).
  unfold r, hotkey_clear. cbn [fst snd].
  rewrite store_delete_shortcuts, store_delete_registered, store_delete_os_calls.
  assert (Hk : store (store_delete (js "hotkey") (drop_registered st))
               ≫= (.!! js "hotkey") = None).
  { unfold store_delete. rewrite Hst.
    destruct (store st) eqn:E; [cbn; apply lookup_delete_eq|by rewrite Hst]. }
  repeat split; try done.
  - apply keypress_unbound. by rewrite store_delete_shortcuts.
  - apply restart_bindings. by rewrite Hk.
Qed.

Lemma hotkey_clear_removes_binding_witness :
  let tr := [Ready; DidFinishLoad (js "/opt/app") true RegFail;
             HotkeySet (js "F9") (Some (JStr (js "de"))) RegOk] in
  let st := run (initial (Some ∅)) tr in
  let r := hotkey_clear st in
  shortcuts st = {[ js "F9" := HSet (Some (JStr (js "de"))) ]}
  ∧ fst r = true ∧ shortcuts (snd r) = ∅
  ∧ os_calls (snd r) = os_calls st ++ [OsUnregister (js "F9")]
  ∧ store_get (js "hotkey") (snd r) = None.
Proof.
  intros tr st r.
  assert (Htr : Forall env_ok tr).
  { repeat constructor. vm_compute. discriminate. }
  destruct (hotkey_clear_removes_binding (Some ∅) tr (js "/opt/app") true RegOk
              Htr) as (H1 & H2 & _ & H4 & _ & H6 & _).
  split; [vm_compute; reflexivity|].
  split; [exact H1|]. split; [exact H2|]. split; [exact H4|exact H6].
Defined.

(** ** Key presses while the worker is silent *)

(** The command a key press writes depends on the flag and on the store
    alone. *)
Lemma run_handler_write h st st2 :
  is_Some (py st) → is_Some (py st2) →
  running st2 = running st → store st2 = store st →
  ∃ c, stdin_writes (run_handler h WriteReturns st) = stdin_writes st ++ [c]
       ∧ stdin_writes (run_handler h WriteReturns st2) = stdin_writes st2 ++ [c].
Proof.
  intros [p Hp] [p2 Hp2] Hr Hs. unfold run_handler, sendCmd, store_get.
  rewrite Hr, Hs, Hp, Hp2. cbn [try_catch stdin_write].
  destruct (running st); [by eexists|].
  destruct h; by eexists.
Qed.

Lemma run_handler_frame h w st :
  py (run_handler h w st) = py st ∧ store (run_handler h w st) = store st
  ∧ shortcuts (run_handler h w st) = shortcuts st.
Proof.
  unfold run_handler. destruct (running st); [|destruct h];
    by rewrite sendCmd_py, sendCmd_store, sendCmd_shortcuts.
Qed.

(** X14: the toggle waits for the worker.  As long as no event arrives
    from the worker, pressing the hotkey again writes the same command
    again: the running flag is not touched by the key presses, so [n]
    presses write [n] copies of what one press writes. *)
Theorem keypresses_repeat_the_command st accel h n :
  shortcuts st !! accel = Some h → is_Some (py st) →
  let st' := run st (replicate n (Keypress accel WriteReturns)) in
  running st' = running st
  ∧ ∃ c, stdin_writes (step st (Keypress accel WriteReturns))
         = stdin_writes st ++ [c]
         ∧ stdin_writes st' = stdin_writes st ++ replicate n c.
Proof.
  intros Hsh Hpy. cbv zeta.
  destruct (run_handler_write h st st Hpy Hpy eq_refl eq_refl) as (c & Hc & _).
  enough (Hall : ∀ st2,
             shortcuts st2 !! accel = Some h → is_Some (py st2) →
             running st2 = running st → store st2 = store st →
             running (run st2 (replicate n (Keypress accel WriteReturns)))
             = running st
             ∧ stdin_writes (run st2 (replicate n (Keypress accel WriteReturns)))
               = stdin_writes st2 ++ replicate n c).
  { destruct (Hall st Hsh Hpy eq_refl eq_refl) as [Hr Hw].
    split; [done|]. exists c. split; [|done].
    cbn [step]. unfold keypress. by rewrite Hsh. }
  induction n as [|n IH]; intros st2 Hsh2 Hpy2 Hr2 Hs2.
  - cbn. by rewrite app_nil_r.
  - cbn [replicate]. rewrite run_cons. cbn [step]. unfold keypress. rewrite Hsh2.
    destruct (run_handler_frame h WriteReturns st2) as (Hp & Hst & Hk).
    destruct (run_handler_write h st st2 Hpy Hpy2 Hr2 Hs2) as (c' & Hc' & Hw2).
    assert (c' = c) as -> by (rewrite Hc in Hc'; by simplify_list_eq).
    destruct (IH (run_handler h WriteReturns st2)) as [Hr Hw].
    + by rewrite Hk.
    + by rewrite Hp.
    + by rewrite run_handler_running.
    + by rewrite Hst.
    + split; [done|]. by rewrite Hw, Hw2, <-app_assoc.
Qed.

Lemma keypresses_repeat_the_command_witness :
  let st := run (initial None) [Ready; DidFinishLoad (js "/opt/app") true RegFail;
                                HotkeySet (js "F9") (Some (JStr (js "de"))) RegOk] in
  let st' := run st (replicate 3 (Keypress (js "F9") WriteReturns)) in
  running st' = false
  ∧ ∃ c, stdin_writes (step st (Keypress (js "F9") WriteReturns))
         = stdin_writes st ++ [c]
         ∧ stdin_writes st' = stdin_writes st ++ replicate 3 c.
Proof.
  intros st.
  apply (keypresses_repeat_the_command st (js "F9")
           (HSet (Some (JStr (js "de")))) 3).
  - vm_compute. reflexivity.
  - vm_compute. by eexists.
Defined.

(** X15: without a store nothing is kept from one session to the next:
    whatever happened before, the next start only starts the worker; it
    echoes no preference and binds no key. *)
Theorem without_store_nothing_returns tr root present o :
  restart (store (run (initial None) tr)) root present o
  = startPython root present (step (initial None) Ready).
Proof.
  assert (store (run (initial None) tr) = None) as ->.
  { generalize (initial None), (eq_refl : store (initial None) = None).
    induction tr as [|a tr IH]; intros st Hs; [done|].
    rewrite run_cons. apply IH. by rewrite step_store, Hs. }
  unfold restart. rewrite !run_cons. cbn [run foldl step].
  unfold did_finish_load. cbv zeta.
  set (st1 := startPython _ _ _).
  assert (Hg : ∀ k, store_get k st1 = None).
  { intros k. unfold store_get, st1. by rewrite startPython_store. }
  rewrite Hg. cbn [send_pref]. rewrite Hg. cbn [send_pref]. rewrite Hg.
  cbn [send_pref]. by apply restore_hotkey_skip; rewrite Hg.
Qed.

(** ** The last progress over a run *)

Lemma js_Number_exp ds : (0 ≤ exp10 (js_Number ds))%Z.
Proof.
  unfold js_Number, mk_number. destruct (strip_zeros (rev ds)) as [k r].
  case_decide; cbn [exp10]; lia.
Qed.

Lemma on_stderr_percentage text st :
  percentage (lastProgress st) →
  percentage (lastProgress (on_stderr_data text st)).
Proof.
  intros Hst. unfold on_stderr_data.
  pose proof (rexec_percent_leftmost text) as H.
  destruct (rexec percent_re None text) as [y|];
    rewrite send_lastProgress; [|done].
  destruct H as (pre & ds & post & -> & (_ & Hs & _) & _).
  change (default [] (Some ds)) with ds.
  cbn [lastProgress set_lastProgress percentage].
  split; [apply js_Number_exp|].
  unfold js_Number. rewrite mk_number_value.
  apply short_percent_bound in Hs. lia.
Qed.

(** X16: whatever the worker prints on its error stream, and whatever
    else happens, the last progress the main process holds is absent or a
    whole number from 0 to 100. *)
Theorem last_progress_is_a_percentage st0 tr :
  percentage (lastProgress (run (initial st0) tr)).
Proof.
  generalize (initial st0), (I : percentage (lastProgress (initial st0))).
  induction tr as [|a tr IH]; intros st Hst; [done|].
  rewrite run_cons. apply IH.
  destruct a; try (by rewrite step_lastProgress).
  cbn [step]. unfold if_spawned. destruct (py st); [|done].
  by apply on_stderr_percentage.
Qed.

(** ** The message of a progress event *)

Lemma trim_start_spec s :
  ∃ a, s = a ++ trim_start s ∧ spaces a
       ∧ ∀ c r, trim_start s = c :: r → is_js_space c = false.
Proof.
  induction s as [|c s (a & Hs & Ha & Hh)].
  - exists []. split; [done|]. split; [apply Forall_nil_2|done].
  - cbn [trim_start]. destruct (is_js_space c) eqn:Hc.
    + exists (c :: a). split; [cbn; by rewrite <-Hs|].
      split; [by apply Forall_cons|done].
    + exists []. split; [done|]. split; [apply Forall_nil_2|].
      by intros c' r [= <- _].
Qed.

Lemma spaces_rev a : spaces a → spaces (rev a).
Proof. unfold spaces. rewrite rev_reverse. apply Forall_reverse. Qed.

Lemma trim_spec s :
  ∃ a b, s = a ++ trim s ++ b ∧ spaces a ∧ spaces b
         ∧ (∀ c r, trim s = c :: r → is_js_space c = false)
         ∧ (∀ c, last (trim s) = Some c → is_js_space c = false).
Proof.
  unfold trim. destruct (trim_start_spec s) as (a & Hs & Ha & Hh).
  destruct (trim_start_spec (rev (trim_start s))) as (b & Ht & Hb & Hl).
  set (t := trim_start s) in *. set (u := trim_start (rev t)) in *.
  assert (Htu : t = rev u ++ rev b).
  { rewrite <-rev_app_distr, <-Ht. by rewrite rev_involutive. }
  exists a, (rev b). split; [by rewrite <-Htu|].
  split; [done|]. split; [by apply spaces_rev|]. split.
  - intros c r Hc. apply (Hh c (r ++ rev b)). by rewrite Htu, Hc.
  - intros c Hc. destruct u as [|d u'] eqn:Hu; [done|].
    cbn [rev] in Hc. rewrite last_snoc in Hc. injection Hc as <-.
    by apply (Hl d u').
Qed.

(** X17: the message of a [progress] event is the chunk without the white
    space at its two ends, and nothing else is removed: the chunk is the
    message between two runs of white space, and the message is not empty
    and neither begins nor ends with white space. *)
Theorem progress_message_trimmed text st pre ds post :
  win st = true →
  percent_occurrence short_percent text pre ds post →
  ∃ pct a msg b,
    sent (on_stderr_data text st) = sent st ++ [ev_progress pct msg]
    ∧ text = a ++ msg ++ b ∧ spaces a ∧ spaces b ∧ msg ≠ []
    ∧ (∀ c r, msg = c :: r → is_js_space c = false)
    ∧ (∀ c, last msg = Some c → is_js_space c = false).
Proof.
  intros Hwin Hocc. unfold on_stderr_data.
  pose proof (rexec_percent_leftmost text) as H.
  destruct (rexec percent_re None text) as [y|]; [|by destruct (H _ _ _ Hocc)].
  destruct (trim_spec text) as (a & b & Ht & Ha & Hb & Hh & Hl).
  exists (js_Number (default [] (get_cap 2 (caps y)))), a, (trim text), b.
  rewrite send_sent by done.
  cbn [sent set_lastProgress]. repeat split; try done.
  intros Hnil. rewrite Hnil in Ht. cbn [app] in Ht.
  destruct Hocc as (Htext & _).
  assert (Hin : PERCENT ∈ text)
    by (rewrite Htext, !elem_of_app, elem_of_cons; auto).
  rewrite Ht in Hin. apply elem_of_app in Hin as [Hin|Hin].
  - by apply (proj1 (Forall_forall _ _) Ha) in Hin.
  - by apply (proj1 (Forall_forall _ _) Hb) in Hin.
Qed.

Lemma progress_message_trimmed_witness :
  let st := run (initial None) [Ready; DidFinishLoad (js "/opt/app") true RegFail] in
  let text := [CR; LF] ++ js "  Downloading (45%) " ++ [LF] in
  ∃ pct a msg b,
    sent (on_stderr_data text st) = sent st ++ [ev_progress pct msg]
    ∧ text = a ++ msg ++ b ∧ spaces a ∧ spaces b ∧ msg ≠ []
    ∧ (∀ c r, msg = c :: r → is_js_space c = false)
    ∧ (∀ c, last msg = Some c → is_js_space c = false).
Proof.
  intros st text.
  apply (progress_message_trimmed text st
           ([CR; LF] ++ js "  Downloading (") (js "45") (js ") " ++ [LF])).
  - reflexivity.
  - split; [reflexivity|]. split; [|right; reflexivity].
    left. split; [by repeat constructor|by right].
Defined.

(** ** A chunk of whole lines *)

(** X18: a chunk made of whole lines, each without control character and
    not empty, each ended by a line feed, is decoded line by line, in
    order, each line once. *)
Theorem stdout_chunk_of_lines ls st :
  Forall (λ l, plain l ∧ l ≠ []) ls →
  on_stdout_data (concat (map (λ l, l ++ [LF]) ls)) st
  = foldl (λ s l, stdout_line l s) st ls.
Proof.
  intros H. unfold on_stdout_data. f_equal.
  induction H as [|l ls [Hp Hne] _ IH]; [done|].
  cbn [map concat]. rewrite stdout_lines_ended, IH.
  by rewrite (stdout_lines_terminated l [LF]) by auto.
Qed.

Lemma stdout_chunk_of_lines_witness :
  let st := run (initial None) [Ready; DidFinishLoad (js "/opt/app") true RegFail] in
  let ls := [event_line (js "started"); js "loading model";
             event_line (js "stopped")] in
  let st' := on_stdout_data (concat (map (λ l, l ++ [LF]) ls)) st in
  st' = foldl (λ s l, stdout_line l s) st ls
  ∧ running st' = false
  ∧ sent st' = sent st ++ [JObj [(js "event", JStr (js "started"))];
                           ev_log (js "loading model");
                           JObj [(js "event", JStr (js "stopped"))]].
Proof.
  intros st ls st'. split; [|vm_compute; done].
  apply stdout_chunk_of_lines.
  repeat constructor; try (vm_compute; discriminate);
    apply (bool_decide_unpack _); vm_compute; exact I.
Defined.

(** ** The recorded accelerator and the one the OS holds *)

Lemma store_set_registered k v st :
  registeredShortcut (store_set k v st) = registeredShortcut st.
Proof. unfold store_set. by destruct (store st). Qed.

Lemma step_registered st a :
  rebinds a = false → registeredShortcut (step st a) = registeredShortcut st.
Proof.
  intros Ha. destruct a; try done; cbn [step]; unfold if_spawned.
  - destruct (py st); [apply stdout_data_frame|done].
  - destruct (py st); [|done]. unfold on_stderr_data.
    destruct (rexec _ _ _); by rewrite send_registered.
  - destruct (py st); [apply send_registered|done].
  - destruct (py st); [|done]. cbn. apply send_registered.
  - unfold cmd_load. rewrite sendCmd_registered.
    destruct (opt_prop _ _); [|done].
    destruct (truthy _); [apply store_set_registered|done].
  - unfold cmd_start. rewrite sendCmd_registered.
    destruct (opt_prop _ _); [|done].
    destruct (truthy _); [apply store_set_registered|done].
  - apply sendCmd_registered.
  - apply sendCmd_registered.
  - unfold keypress. destruct (_ !! _); [|done]. unfold run_handler.
    destruct (running st); [apply sendCmd_registered|].
    destruct h; apply sendCmd_registered.
Qed.

(** What is recorded is held. *)
Lemma restore_hotkey_held o st :
  (∀ b, registeredShortcut st = Some b → is_Some (shortcuts st !! b)) →
  ∀ b, registeredShortcut (restore_hotkey o st) = Some b →
       is_Some (shortcuts (restore_hotkey o st) !! b).
Proof.
  intros Hst. unfold restore_hotkey.
  destruct (truthy _ && truthy _); [|done].
  destruct (store_get (js "hotkey") st) as [[| | |a| |]|]; try done.
  destruct o; cbn; [|done|done].
  intros b [= <-]. rewrite lookup_insert_eq. by eexists.
Qed.

Lemma step_held st a :
  env_ok a → bindings_consistent st →
  (∀ b, registeredShortcut st = Some b → is_Some (shortcuts st !! b)) →
  ∀ b, registeredShortcut (step st a) = Some b →
       is_Some (shortcuts (step st a) !! b).
Proof.
  intros Ha Hinv Hst.
  destruct (rebinds a) eqn:Hr;
    [|by rewrite step_registered, step_shortcuts].
  destruct a; try done; cbn [step].
  - destruct (did_finish_load_restore projectRoot present o st)
      as (st4 & -> & _ & Hsh & Hreg).
    apply restore_hotkey_held. by rewrite Hsh, Hreg.
  - assert (Hne : o = RegOk → accelerator ≠ []) by (intros ->; exact Ha).
    destruct (hotkey_set_effect accelerator language o st Hinv Hne)
      as (_ & _ & Hf & Hk).
    assert (o = RegOk ∨ o ≠ RegOk) as [Ho|Ho] by (destruct o; auto).
    + destruct (Hk Ho) as (_ & -> & ->). intros b [= <-].
      rewrite lookup_singleton_eq. by eexists.
    + destruct (Hf Ho) as (_ & -> & _). done.
  - cbn. rewrite store_delete_registered.
    destruct (drop_registered_clears st Hinv) as (_ & -> & _). done.
Qed.

(** X19: in every state the main process reaches (the OS never accepting
    an empty accelerator), the variable [registeredShortcut] tells exactly
    what the OS holds for the application: when it is [null] no
    accelerator is bound, and when it names an accelerator, that one is
    bound and no other. *)
Theorem recorded_shortcut_is_the_bound_one st0 tr :
  Forall env_ok tr → bindings_exact (run (initial st0) tr).
Proof.
  intros Htr.
  enough (H : bindings_consistent (run (initial st0) tr)
              ∧ ∀ b, registeredShortcut (run (initial st0) tr) = Some b →
                     is_Some (shortcuts (run (initial st0) tr) !! b)).
  { destruct H as [(H1 & _) H2]. unfold bindings_exact.
    destruct (registeredShortcut _) as [a|] eqn:Hr.
    - destruct (H2 a eq_refl) as [h Hh]. exists h.
      apply map_eq. intros a'. destruct (decide (a = a')) as [<-|Hne].
      + by rewrite lookup_singleton_eq.
      + rewrite lookup_singleton_ne by done.
        destruct (shortcuts _ !! a') eqn:Ha'; [|done].
        apply H1 in Ha'. congruence.
    - apply map_empty. intros a'.
      destruct (shortcuts _ !! a') eqn:Ha'; [|done].
      apply H1 in Ha'. congruence. }
  assert (Hheld0 : ∀ b, registeredShortcut (initial st0) = Some b →
                        is_Some (shortcuts (initial st0) !! b)) by done.
  generalize (initial st0), (initial_consistent st0), Hheld0. clear Hheld0.
  induction Htr as [|a tr Ha _ IH]; intros st Hinv Hheld; [done|].
  rewrite run_cons. apply IH; [by apply step_consistent|by apply step_held].
Qed.

Lemma recorded_shortcut_is_the_bound_one_witness :
  let tr := [Ready; HotkeySet (js "F9") (Some (JStr (js "de"))) RegOk;
             CmdStart (Some (JObj [(js "language", JStr (js "de"))])) WriteReturns;
             DidFinishLoad (js "/opt/app") true RegOk] in
  shortcuts (run (initial (Some ∅)) tr) = {[ js "F9" := HRestore ]}
  ∧ bindings_exact (run (initial (Some ∅)) tr).
Proof.
  intros tr. split; [vm_compute; reflexivity|].
  apply recorded_shortcut_is_the_bound_one.
  repeat constructor. vm_compute. discriminate.
Defined.

(** ** A percentage with a decimal point *)

Lemma short_percent_digits ds :
  short_percent ds → Forall (λ c, is_digit c = true) ds.
Proof. intros [[Hd _]| ->]; [done|by repeat constructor]. Qed.

(** Digits followed by a percent sign do not reach over a point that no
    percent sign precedes. *)
Lemma digits_stop_at_point ds0 post0 k rest :
  Forall (λ c, is_digit c = true) ds0 → PERCENT ∉ k →
  ds0 ++ PERCENT :: post0 = k ++ DOT :: rest → False.
Proof.
  intros Hd. revert k. induction Hd as [|d ds0 Hd _ IH]; intros k Hk Heq.
  - destruct k as [|c k]; [done|]. injection Heq as <- _.
    apply Hk. by left.
  - destruct k as [|c k]; [injection Heq as -> _; done|].
    injection Heq as <- Heq. apply (IH k); [|done].
    intros Hin. apply Hk. by right.
Qed.

(** X20: the scraper does not read a decimal point.  When the first
    percent sign of a chunk follows a point and one or two digits (or
    100), as in [12.5%], the percent of the [progress] event and the last
    progress are the number after the point. *)
Theorem decimal_percentage_reports_fraction text st pre ds post :
  win st = true →
  text = pre ++ DOT :: ds ++ PERCENT :: post →
  PERCENT ∉ pre → short_percent ds →
  let st' := on_stderr_data text st in
  sent st' = sent st ++ [ev_progress (js_Number ds) (trim text)]
  ∧ lastProgress st' = Some (js_Number ds)
  ∧ number_value (js_Number ds) = Z.of_N (dval 0 ds).
Proof.
  intros Hwin Htext Hpre Hds. cbv zeta.
  assert (Hmine : percent_occurrence short_percent text (pre ++ [DOT]) ds post).
  { split; [by rewrite <-app_assoc|]. split; [done|]. left.
    rewrite last_snoc. destruct (short_percent_head _ Hds) as (d & r & -> & Hd).
    unfold at_word_boundary, word_before, word_after. cbn.
    by rewrite (digit_is_word_char _ Hd). }
  unfold on_stderr_data.
  pose proof (rexec_percent_leftmost text) as H.
  destruct (rexec percent_re None text) as [y|]; [|by destruct (H _ _ _ Hmine)].
  destruct H as (pre0 & ds0 & post0 & Hc & Hocc & Hleft).
  assert (ds0 = ds) as ->.
  { pose proof (Hleft _ _ _ Hmine) as Hlen.
    enough (length pre0 = length (pre ++ [DOT]))
      by by destruct (occurrence_same_place _ _ _ _ _ _ _ Hocc Hmine).
    destruct Hocc as (Heq & Hs0 & _). rewrite Htext in Heq.
    pose proof (short_percent_digits _ Hs0) as Hd0. symmetry in Heq.
    apply app_eq_inv in Heq as [(k & Hk1 & Hk2)|(k & Hk1 & Hk2)].
    - destruct k as [|c k].
      + exfalso.
        apply (digits_stop_at_point ds0 post0 [] (ds ++ PERCENT :: post));
          [done|apply not_elem_of_nil|done].
      + injection Hk2 as <- _. rewrite Hk1, !length_app in *. cbn in *.
        destruct k; cbn in *; lia.
    - exfalso. apply (digits_stop_at_point ds0 post0 k (ds ++ PERCENT :: post));
        [done| |done].
      intros Hin. apply Hpre. rewrite Hk1. apply elem_of_app. by right. }
  rewrite Hc. change (default [] (Some ds)) with ds.
  rewrite send_sent, send_lastProgress by done. cbn [sent lastProgress set_lastProgress].
  repeat split. unfold js_Number. apply mk_number_value.
Qed.

Lemma decimal_percentage_reports_fraction_witness :
  let st := run (initial None) [Ready; DidFinishLoad (js "/opt/app") true RegFail] in
  let text := js "Downloading 12.5% done" in
  let st' := on_stderr_data text st in
  sent st' = sent st ++ [ev_progress (js_Number (js "5")) (trim text)]
  ∧ lastProgress st' = Some (js_Number (js "5"))
  ∧ number_value (js_Number (js "5")) = 5%Z.
Proof.
  intros st text.
  apply (decimal_percentage_reports_fraction text st (js "Downloading 12")
           (js "5") (js " done")).
  - reflexivity.
  - reflexivity.
  - apply (bool_decide_unpack _). vm_compute. exact I.
  - left. split; [by repeat constructor|by left].
Defined.
